(** * ocifs: a read-only overlay of OCI image layers

    A shallow embedding of [layer.go] (package [ocifs]) and the properties
    of its visibility resolution ([lookup]), of the merged directory
    cursor ([dirReader.scan], [layerFile.ReadDir]), of [Open] and of
    [Stat].

    Conventions of the embedding:
    - a Go [string] is a [string] (a sequence of bytes);
    - a Go [(T, error)] result is a [result T];
    - an underlying layer ([fs.FS]) is a record of its answers to
      [fs.Stat] and [Open]: layers of an OCI image are immutable, so the
      answers are functions of the path;
    - state that the Go code mutates in place (the directory cursor, the
      read position of an underlying directory, the set of open file
      descriptors) is passed explicitly. *)

From Stdlib Require Import ZArith String Ascii List Bool Lia.
From stdpp Require Import base gmap strings list.

Local Open Scope string_scope.
Local Open Scope Z_scope.
Local Open Scope list_scope.

(** ** Errors *)

Module Errors.

(** The sentinel errors of [io/fs] that the code tests with [errors.Is],
    and other error causes (an errno-like code). *)
Inductive errno :=
| ErrNotExist
| ErrInvalid
| ErrPermission
| ErrOther (code : nat).

(** An [error] value: [&fs.PathError{Op, Path, Err}], a bare cause, or
    the sentinel [io.EOF]. *)
Inductive error :=
| PathError (op path : string) (err : errno)
| Bare (err : errno)
| EOF.

#[global] Instance errno_eq_dec : EqDecision errno.
Proof. solve_decision. Defined.

#[global] Instance error_eq_dec : EqDecision error.
Proof. solve_decision. Defined.

(** [errors.Is(err, target)] for a sentinel [target] of [io/fs]:
    [*fs.PathError] unwraps to its [Err] field. *)
Definition errors_Is (err : error) (target : errno) : bool :=
  match err with
  | PathError _ _ e => bool_decide (e = target)
  | Bare e => bool_decide (e = target)
  | EOF => false
  end.

(** A Go [(T, error)] pair of which exactly one side is meaningful. *)
Inductive result (T : Type) :=
| Ok (v : T)
| Err (e : error).

Arguments Ok {T} v.
Arguments Err {T} e.

End Errors.
Export Errors.

(** ** Strings and paths (the parts of [strings], [path], [unicode/utf8]
    and [io/fs] that [layer.go] calls) *)

Module GoStrings.

Definition slash : ascii := "/"%char.

(** [s[n:]] *)
Fixpoint string_drop (n : nat) (s : string) : string :=
  match n, s with
  | O, _ => s
  | S n', String _ s' => string_drop n' s'
  | S _, EmptyString => EmptyString
  end.

(** [s[:n]] *)
Fixpoint string_take (n : nat) (s : string) : string :=
  match n, s with
  | O, _ => EmptyString
  | S n', String c s' => String c (string_take n' s')
  | S _, EmptyString => EmptyString
  end.

(** [strings.IndexByte(s, c)]; [None] stands for the result [-1]. *)
Fixpoint IndexByte (s : string) (c : ascii) : option nat :=
  match s with
  | EmptyString => None
  | String d s' =>
      if Ascii.eqb d c then Some O
      else match IndexByte s' c with
           | Some i => Some (S i)
           | None => None
           end
  end.

(** [strings.LastIndexByte(s, c)]. *)
Fixpoint LastIndexByte (s : string) (c : ascii) : option nat :=
  match s with
  | EmptyString => None
  | String d s' =>
      match LastIndexByte s' c with
      | Some i => Some (S i)
      | None => if Ascii.eqb d c then Some O else None
      end
  end.

(** [strings.HasPrefix(s, prefix)] *)
Definition HasPrefix (s pre : string) : bool := String.prefix pre s.

(** [path.Split]: the directory part keeps its final slash. *)
Definition path_Split (name : string) : string * string :=
  match LastIndexByte name slash with
  | Some i => (string_take (S i) name, string_drop (S i) name)
  | None => (EmptyString, name)
  end.

(** The elements of a slash-separated path; [cur] is the element being
    read, in reverse. *)
Fixpoint elements_from (cur : string) (s : string) : list string :=
  match s with
  | EmptyString => [cur]
  | String c s' =>
      if Ascii.eqb c slash then cur :: elements_from EmptyString s'
      else elements_from (cur +:+ String c EmptyString) s'
  end.

Definition elements (s : string) : list string := elements_from EmptyString s.

(** [path.Clean] on the elements of a path: empty and [.] elements are
    dropped, [..] removes the element before it (and is kept at the head
    of a relative path, dropped at the root). [acc] is the cleaned path
    so far, last element first. *)
Fixpoint clean_elements (rooted : bool) (acc : list string) (els : list string)
  : list string :=
  match els with
  | [] => rev acc
  | e :: els' =>
      if String.eqb e EmptyString || String.eqb e "." then clean_elements rooted acc els'
      else if String.eqb e ".." then
        match acc with
        | [] => clean_elements rooted (if rooted then [] else [".."]) els'
        | a :: acc' =>
            if String.eqb a ".." then clean_elements rooted (e :: acc) els'
            else clean_elements rooted acc' els'
        end
      else clean_elements rooted (e :: acc) els'
  end.

Fixpoint join_elements (els : list string) : string :=
  match els with
  | [] => EmptyString
  | [e] => e
  | e :: els' => e +:+ "/" +:+ join_elements els'
  end.

Definition path_Clean (p : string) : string :=
  match p with
  | EmptyString => "."
  | String c _ =>
      let rooted := Ascii.eqb c slash in
      let body := join_elements (clean_elements rooted [] (elements p)) in
      if rooted then "/" +:+ body
      else if String.eqb body EmptyString then "." else body
  end.

(** [path.Join(a, b)]: empty arguments are skipped, the rest joined with
    a slash and cleaned. *)
Definition path_Join (a b : string) : string :=
  match String.eqb a EmptyString, String.eqb b EmptyString with
  | true, true => EmptyString
  | true, false => path_Clean b
  | false, true => path_Clean a
  | false, false => path_Clean (a +:+ "/" +:+ b)
  end.

(** [utf8.ValidString] on the bytes of the string. *)
Definition byte (c : ascii) : Z := Z.of_N (N_of_ascii c).

Definition cont (lo hi : Z) (c : ascii) : bool :=
  (lo <=? byte c) && (byte c <=? hi).

Fixpoint utf8_valid_from (fuel : nat) (s : string) : bool :=
  match fuel with
  | O => match s with EmptyString => true | _ => false end
  | S fuel' =>
      match s with
      | EmptyString => true
      | String c0 s1 =>
          let b0 := byte c0 in
          if b0 <? 128 then utf8_valid_from fuel' s1
          else if (194 <=? b0) && (b0 <=? 223) then
            match s1 with
            | String c1 s2 => cont 128 191 c1 && utf8_valid_from fuel' s2
            | _ => false
            end
          else if (224 <=? b0) && (b0 <=? 239) then
            match s1 with
            | String c1 (String c2 s3) =>
                cont (if b0 =? 224 then 160 else 128)
                     (if b0 =? 237 then 159 else 191) c1
                && cont 128 191 c2 && utf8_valid_from fuel' s3
            | _ => false
            end
          else if (240 <=? b0) && (b0 <=? 244) then
            match s1 with
            | String c1 (String c2 (String c3 s4)) =>
                cont (if b0 =? 240 then 144 else 128)
                     (if b0 =? 244 then 143 else 191) c1
                && cont 128 191 c2 && cont 128 191 c3
                && utf8_valid_from fuel' s4
            | _ => false
            end
          else false
      end
  end.

Definition utf8_ValidString (s : string) : bool :=
  utf8_valid_from (String.length s) s.

(** [fs.ValidPath]: either [.], or slash-separated elements none of
    which is empty, [.] or [..]. The loop of the Go function reads one
    element per iteration; here [elem] is the element being read. *)
Definition valid_elem (elem : string) : bool :=
  negb (String.eqb elem EmptyString || String.eqb elem "." || String.eqb elem "..").

Fixpoint valid_elems (elem : string) (name : string) : bool :=
  match name with
  | EmptyString => valid_elem elem
  | String c name' =>
      if Ascii.eqb c slash then valid_elem elem && valid_elems EmptyString name'
      else valid_elems (elem +:+ String c EmptyString) name'
  end.

Definition ValidPath (name : string) : bool :=
  if negb (utf8_ValidString name) then false
  else if String.eqb name "." then true
  else valid_elems EmptyString name.

End GoStrings.
Export GoStrings.

(** ** The collaborators: what a layer and its files answer *)

Module Layers.

(** [fs.FileInfo], one field per method ([Sys] left out). [fiMode] is an
    [fs.FileMode], a [uint32]. *)
Record FileInfo := {
  fiName : string;
  fiSize : Z;
  fiMode : Z;
  fiModTime : Z;
  fiIsDir : bool;
}.

(** [fs.DirEntry]. *)
Record DirEntry := {
  deName : string;
  deIsDir : bool;
  deType : Z;
}.

(** An open directory of a layer ([fs.ReadDirFile]) at its read
    position: the entries not yet returned, and the error that reading
    past them meets, if any. *)
Record ReadDirFile := {
  pending : list DirEntry;
  failure : option error;
}.

(** [ReadDir(n)] of an underlying directory, by the contract of
    [fs.ReadDirFile]: with [n <= 0] all the remaining entries, and the
    error met before the end if there is one; with [n > 0] at most [n]
    entries, and an empty slice only together with an error, [io.EOF] at
    the end. The result is the slice, the error and the file at its new
    position. *)
Definition readDir (f : ReadDirFile) (n : Z)
  : list DirEntry * option error * ReadDirFile :=
  if n <=? 0 then
    (pending f, failure f, {| pending := []; failure := failure f |})
  else
    match pending f with
    | [] => ([], Some (default EOF (failure f)), f)
    | _ :: _ =>
        (take (Z.to_nat n) (pending f), None,
         {| pending := drop (Z.to_nat n) (pending f); failure := failure f |})
    end.

(** What a layer hands out on [Open]: the answer of [Stat] on the file,
    and its directory stream when the file implements
    [fs.ReadDirFile]. *)
Record FileData := {
  dataStat : result FileInfo;
  dataDir : option ReadDirFile;
}.

(** An open file of a layer: a descriptor and what the file answers. *)
Record File := {
  fd : nat;
  fileData : FileData;
}.

(** A layer ([fs.FS]) by its answers: [fs.Stat(layer, name)],
    [layer.Open(name)], [fslink.ReadLink(layer, name)] and
    [fslink.Sub(layer, name)]. *)
#[warnings="-register-all"] Inductive FS := mkFS {
  fsStat : string -> result FileInfo;
  fsOpen : string -> result FileData;
  fsReadLink : string -> result string;
  fsSub : string -> result FS;
}.

(** The open file descriptors of the process: the next descriptor to be
    handed out and the ones that are open. *)
Record World := {
  nextFd : nat;
  openFds : list nat;
}.

(** [layer.Open(name)] in a world. *)
Definition openFile (layer : FS) (name : string) (w : World)
  : result File * World :=
  match fsOpen layer name with
  | Err e => (Err e, w)
  | Ok d =>
      (Ok {| fd := nextFd w; fileData := d |},
       {| nextFd := S (nextFd w); openFds := openFds w ++ [nextFd w] |})
  end.

(** [f.Close()] in a world. *)
Definition closeFile (f : File) (w : World) : World :=
  {| nextFd := nextFd w;
     openFds := filter (fun d => d ≠ fd f) (openFds w) |}.

End Layers.
Export Layers.

(** ** [layer.go] *)

Definition whiteoutPrefix : string := ".wh.".
Definition whiteoutOpaque : string := ".wh..wh..opq".

(** [type layerFS []fs.FS], highest priority first. *)
Definition layerFS := list FS.

(** [LayerFS(layers...)]: a copy of the argument, reversed. *)
Definition LayerFS (layers : list FS) : layerFS := rev layers.

(** [whiteout(name)] *)
Definition whiteout (name : string) : string * string :=
  let (dir, base) := path_Split name in
  (path_Join dir (whiteoutPrefix +:+ base), path_Join dir whiteoutOpaque).

(** [hasOneOf(fsys, names...)] *)
Fixpoint hasOneOf (fsys : FS) (names : list string) : result bool :=
  match names with
  | [] => Ok false
  | name :: names' =>
      match fsStat fsys name with
      | Ok _ => Ok true
      | Err err =>
          if negb (errors_Is err ErrNotExist) then Err err
          else hasOneOf fsys names'
      end
  end.

(** The loop over the candidate layers at one prefix of the path
    (lines 133-165). The slice [visibleLayers] is [kept ++ rest] and the
    index [i] is [length kept]: deleting the element at [i] drops the
    head of [rest], [i++] moves it to the end of [kept]. *)
Fixpoint scanLayers (prefix whiteoutOne whiteoutAll : string)
    (kept rest : list FS) : result (list FS) :=
  match rest with
  | [] => Ok kept
  | layer :: rest' =>
      match fsStat layer prefix with
      | Err err =>
          if negb (errors_Is err ErrNotExist) then Err err
          else scanLayers prefix whiteoutOne whiteoutAll kept rest'
      | Ok s =>
          if negb (fiIsDir s) then
            (* [if i == 0 { i++ }; visibleLayers = visibleLayers[:i]] *)
            Ok (match kept with [] => [layer] | _ :: _ => kept end)
          else
            match hasOneOf layer [whiteoutOne; whiteoutAll] with
            | Err err => Err err
            | Ok true => Ok (kept ++ [layer])
            | Ok false =>
                scanLayers prefix whiteoutOne whiteoutAll (kept ++ [layer]) rest'
            end
      end
  end.

(** The loop over the candidate layers as the Go code writes it, on the
    slice and the index [i] (lines 133-165). Every iteration removes an
    element or moves [i] forward; [None] is the loop still running when
    [fuel] is spent, or an index out of range. [scanLayers] above is the
    same loop on the two halves of the slice ([scanLayers_index]
    below). *)
Fixpoint scanLayersAt (fuel : nat) (prefix whiteoutOne whiteoutAll : string)
    (i : nat) (visibleLayers : list FS) : option (result (list FS)) :=
  if negb (i <? length visibleLayers)%nat then Some (Ok visibleLayers)
  else
    match fuel with
    | O => None
    | S fuel' =>
        match visibleLayers !! i with
        | None => None
        | Some layer =>
            match fsStat layer prefix with
            | Err err =>
                if negb (errors_Is err ErrNotExist) then Some (Err err)
                else
                  (* [n := copy(visibleLayers[i:], visibleLayers[i+1:]);
                      visibleLayers = visibleLayers[:i+n]] *)
                  scanLayersAt fuel' prefix whiteoutOne whiteoutAll i
                    (take i visibleLayers ++ drop (S i) visibleLayers)
            | Ok s =>
                if negb (fiIsDir s) then
                  Some (Ok (take (if (i =? 0)%nat then 1%nat else i)
                                 visibleLayers))
                else
                  match hasOneOf layer [whiteoutOne; whiteoutAll] with
                  | Err err => Some (Err err)
                  | Ok true => Some (Ok (take (S i) visibleLayers))
                  | Ok false =>
                      scanLayersAt fuel' prefix whiteoutOne whiteoutAll
                        (S i) visibleLayers
                  end
            end
        end
    end.

(** The walk over the prefixes of the path (lines 124-167). Every
    iteration moves [walk] forward, so [length path] iterations are
    enough; [None] is the loop still running when [fuel] is spent. *)
Fixpoint walkPath (fuel : nat) (path : string) (walk : nat)
    (visibleLayers : list FS) : option (result (list FS)) :=
  if negb ((walk <? String.length path)%nat && (0 <? length visibleLayers)%nat)
  then Some (Ok visibleLayers)
  else
    match fuel with
    | O => None
    | S fuel' =>
        let walk' :=
          match IndexByte (string_drop walk path) slash with
          | None => String.length path
          | Some i => (walk + i)%nat
          end in
        let (whiteoutOne, whiteoutAll) := whiteout (string_take walk' path) in
        match scanLayers (string_take walk' path) whiteoutOne whiteoutAll
                [] visibleLayers with
        | Err err => Some (Err err)
        | Ok visibleLayers' => walkPath fuel' path (S walk') visibleLayers'
        end
    end.

(** [layers.lookup(op, name)] *)
Definition lookup_fuel (fuel : nat) (layers : layerFS) (op name : string)
  : option (result (list FS)) :=
  if negb (ValidPath name) then Some (Err (PathError op name ErrNotExist))
  else if String.eqb name "." then Some (Ok layers)
  else
    match walkPath fuel name 0 layers with
    | None => None
    | Some (Err err) => Some (Err err)
    | Some (Ok []) => Some (Err (PathError op name ErrNotExist))
    | Some (Ok visibleLayers) => Some (Ok visibleLayers)
    end.

Definition lookup (layers : layerFS) (op name : string)
  : option (result (list FS)) :=
  lookup_fuel (String.length name) layers op name.

(** [type dirReader struct]: the remaining layers of the directory
    (the one being read first), the names met in the layer being read,
    and the names that are masked for good. *)
Record dirReader := {
  files : list ReadDirFile;
  names : list string;
  masks : gset string;
}.

(** [type layerFile struct] *)
Record layerFile := {
  layers : list File;
  name : string;
  dirReader_ : option dirReader;
}.

(** The range loop of [Open] (lines 62-68): [files] is the slice of the
    files opened so far; the result is the error of the first failing
    [layer.Open], the slice at that point, and the world. *)
Fixpoint openLayers (visibleLayers : list FS) (name : string)
    (files : list File) (w : World) : option error * list File * World :=
  match visibleLayers with
  | [] => (None, files, w)
  | layer :: rest =>
      match openFile layer name w with
      | (Err err, w') => (Some err, files, w')
      | (Ok f, w') => openLayers rest name (files ++ [f]) w'
      end
  end.

(** The deferred loop of [Open] (lines 56-60): close every file of
    [files]. *)
Definition closeAll (files : list File) (w : World) : World :=
  foldl (fun w f => closeFile f w) w files.

(** [layers.Open(name)]. On the error path the deferred loop closes the
    files opened so far; on the success path the function deferred last
    runs first and empties [files], so the loop closes nothing. *)
Definition Open (layers : layerFS) (name : string) (w : World)
  : option (result layerFile * World) :=
  match lookup layers "open" name with
  | None => None
  | Some (Err err) => Some (Err err, w)
  | Some (Ok visibleLayers) =>
      match openLayers visibleLayers name [] w with
      | (Some err, files, w') => Some (Err err, closeAll files w')
      | (None, files, w') =>
          Some (Ok {| layers := files; name := name; dirReader_ := None |},
                closeAll [] w')
      end
  end.

(** The loop of [Sub] (lines 79-85). *)
Fixpoint subLayers (visibleLayers : list FS) (name : string)
  : result (list FS) :=
  match visibleLayers with
  | [] => Ok []
  | layer :: rest =>
      match fsSub layer name with
      | Err err => Err err
      | Ok layer' =>
          match subLayers rest name with
          | Err err => Err err
          | Ok rest' => Ok (layer' :: rest')
          end
      end
  end.

(** [layers.Sub(name)] *)
Definition Sub (layers : layerFS) (name : string) : option (result layerFS) :=
  match lookup layers "open" name with
  | None => None
  | Some (Err err) => Some (Err err)
  | Some (Ok visibleLayers) => Some (subLayers visibleLayers name)
  end.

(** The loop of [ReadLink] (lines 95-105). *)
Fixpoint readLinkLayers (visibleLayers : list FS) (name : string)
  : result string :=
  match visibleLayers with
  | [] => Err (PathError "readlink" name ErrNotExist)
  | layer :: rest =>
      match fsReadLink layer name with
      | Ok link => Ok link
      | Err err =>
          if errors_Is err ErrNotExist then readLinkLayers rest name
          else if errors_Is err ErrInvalid then readLinkLayers rest name
          else Err err
      end
  end.

(** [layers.ReadLink(name)] *)
Definition ReadLink (layers : layerFS) (name : string)
  : option (result string) :=
  match lookup layers "readlink" name with
  | None => None
  | Some (Err err) => Some (Err err)
  | Some (Ok visibleLayers) => Some (readLinkLayers visibleLayers name)
  end.

(** [f.Close()] *)
Definition Close (f : layerFile) (w : World) : World :=
  closeAll (layers f) w.

(** [type layerInfo struct{ fs.FileInfo }]: every method but [Mode] is
    the embedded one. *)
Record layerInfo := { embedded : FileInfo }.

(** [^fs.FileMode(0222)] on 32 bits. *)
Definition notWriteBits : Z := Z.lxor (2 ^ 32 - 1) 146.

(** [info.Mode()] *)
Definition Mode (info : layerInfo) : Z :=
  Z.land (fiMode (embedded info)) notWriteBits.

(** The outcome of a method that indexes [f.layers[0]]: a result, or the
    run-time panic of the index out of range. *)
Inductive outcome (T : Type) :=
| Returns (r : result T)
| Panics.

Arguments Returns {T} r.
Arguments Panics {T}.

(** [f.Stat()] *)
Definition Stat (f : layerFile) : outcome layerInfo :=
  match layers f with
  | [] => Panics
  | layer0 :: _ =>
      match dataStat (fileData layer0) with
      | Err err => Returns (Err err)
      | Ok s => Returns (Ok {| embedded := s |})
      end
  end.

(** The local state of a call of [scan]: the cursor (mutated in place
    in Go), the counter [dirents], and the entries handed to the
    callback so far. *)
Record scanState := {
  cursor : dirReader;
  dirents : Z;
  emitted : list DirEntry;
}.

(** How a loop of [scan] ends: it runs to its end (or [break]s), or the
    function returns from inside it. *)
Inductive flow :=
| Continue (s : scanState)
| Return (err : option error) (s : scanState).

(** Lines 333-337: the names of the layer that was read are masked, and
    the layer leaves the list. *)
Definition applyNames (dir : dirReader) : dirReader :=
  {| files := drop 1 (files dir);
     names := [];
     masks := list_to_set (names dir) ∪ masks dir |}.

Section Scan.

(** The callback of [scan]. *)
Variable f : DirEntry -> option error.

(** The loop over the entries of one read (lines 304-321). *)
Fixpoint scanEntries (entries : list DirEntry) (s : scanState) : flow :=
  match entries with
  | [] => Continue s
  | entry :: entries' =>
      let dir := cursor s in
      let name := deName entry in
      if bool_decide (name ∈ masks dir) then scanEntries entries' s
      else if String.eqb name whiteoutOpaque then
        scanEntries entries'
          {| cursor := {| files := take 1 (files dir);
                          names := names dir;
                          masks := masks dir |};
             dirents := dirents s;
             emitted := emitted s |}
      else if HasPrefix name whiteoutPrefix then
        scanEntries entries'
          {| cursor := {| files := files dir;
                          names := names dir ++
                            [string_drop (String.length whiteoutPrefix) name];
                          masks := masks dir |};
             dirents := dirents s;
             emitted := emitted s |}
      else
        let dir' := {| files := files dir;
                       names := names dir ++ [name];
                       masks := masks dir |} in
        match f entry with
        | Some err =>
            Return (Some err)
              {| cursor := dir'; dirents := dirents s; emitted := emitted s |}
        | None =>
            scanEntries entries'
              {| cursor := dir';
                 dirents := dirents s + 1;
                 emitted := emitted s ++ [entry] |}
        end
  end.

(** The inner loop (lines 301-329), which reads [dir.files[0]]. [None]:
    the loop does not end within [fuel] iterations, or [dir.files] is
    empty and the index panics. *)
Fixpoint readLayer (fuel : nat) (n : Z) (s : scanState) : option flow :=
  match fuel with
  | O => None
  | S fuel' =>
      match files (cursor s) with
      | [] => None
      | file :: rest =>
          let '(entries, err, file') := readDir file (n - dirents s) in
          let s0 := {| cursor := {| files := file' :: rest;
                                    names := names (cursor s);
                                    masks := masks (cursor s) |};
                       dirents := dirents s;
                       emitted := emitted s |} in
          match scanEntries entries s0 with
          | Return e s' => Some (Return e s')
          | Continue s' =>
              if (n =? 0) || bool_decide (err = Some EOF) then
                Some (Continue s')
              else if (n =? dirents s') || bool_decide (err ≠ None) then
                Some (Return err s')
              else readLayer fuel' n s'
          end
      end
  end.

(** The iterations that the inner loop can need on the layer it reads:
    every read but the last returns an entry of it. *)
Definition layerFuel (dir : dirReader) : nat :=
  match files dir with
  | [] => O
  | file :: _ => S (length (pending file))
  end.

(** The outer loop (lines 300-338) and the end of the function. Every
    iteration removes a layer from [dir.files]. *)
Fixpoint scanLoop (fuel : nat) (n : Z) (s : scanState)
  : option (option error * scanState) :=
  match files (cursor s) with
  | [] => Some (if dirents s <? n then Some EOF else None, s)
  | _ :: _ =>
      match fuel with
      | O => None
      | S fuel' =>
          match readLayer (layerFuel (cursor s)) n s with
          | None => None
          | Some (Return err s') => Some (err, s')
          | Some (Continue s') =>
              scanLoop fuel' n
                {| cursor := applyNames (cursor s');
                   dirents := dirents s';
                   emitted := emitted s' |}
          end
      end
  end.

(** [dir.scan(n, f)]: the error, the cursor after the call and the
    entries that [f] accepted. The map [dir.masks] is allocated on the
    first call; an empty set stands for both [nil] and the empty map.
    [None]: the call does not return. *)
Definition scan (n : Z) (dir : dirReader)
  : option (option error * dirReader * list DirEntry) :=
  match scanLoop (length (files dir)) n
          {| cursor := dir; dirents := 0; emitted := [] |} with
  | None => None
  | Some (err, s) => Some (err, cursor s, emitted s)
  end.

End Scan.

(** The cursor that [ReadDir] allocates on the first call: the files of
    the handle that implement [fs.ReadDirFile], in their order. *)
Definition newDirReader (f : layerFile) : dirReader :=
  {| files := omap (fun layer => dataDir (fileData layer)) (layers f);
     names := [];
     masks := ∅ |}.

(** [f.ReadDir(n)]: the slice, the error and the handle after the call.
    The callback appends the entry to the slice and returns [nil]. The
    read position of an underlying directory only moves through the
    cursor ([Seek] is not part of this model), so the cursor holds it. *)
Definition ReadDir (f : layerFile) (n : Z)
  : option (list DirEntry * option error * layerFile) :=
  let dir := default (newDirReader f) (dirReader_ f) in
  let n := if n <? 0 then 0 else n in
  match scan (fun _ => None) n dir with
  | None => None
  | Some (err, dir', ret) =>
      Some (ret, err,
            {| layers := layers f; name := name f; dirReader_ := Some dir' |})
  end.

(** ** Fixtures: layers given by a table, in the manner of
    [fstest.MapFS] in the tests of the package *)

Module Fixtures.

(** A regular file and a directory, with the modes of the test. *)
Definition fileInfo (base : string) (mode : Z) : FileInfo :=
  {| fiName := base; fiSize := 0; fiMode := mode; fiModTime := 0;
     fiIsDir := false |}.

Definition dirInfo (base : string) : FileInfo :=
  {| fiName := base; fiSize := 0; fiMode := 2 ^ 31 + 365; fiModTime := 0;
     fiIsDir := true |}.

Fixpoint find (p : string) (table : list (string * FileInfo))
  : option FileInfo :=
  match table with
  | [] => None
  | (q, info) :: table' => if String.eqb p q then Some info else find p table'
  end.

(** The entries of the table that are directly in the directory [p]. *)
Definition children (p : string) (table : list (string * FileInfo))
  : list DirEntry :=
  omap (fun '(q, info) =>
          if String.eqb (fst (path_Split q)) (p +:+ "/")
          then Some {| deName := snd (path_Split q);
                       deIsDir := fiIsDir info;
                       deType := 0 |}
          else None) table.

(** The layer of a table: a path that is not in the table does not
    exist; the layer has no symbolic links and no sub-rooting. *)
Definition mapFS (table : list (string * FileInfo)) : FS :=
  {| fsStat := fun p =>
       match find p table with
       | Some info => Ok info
       | None => Err (PathError "stat" p ErrNotExist)
       end;
     fsOpen := fun p =>
       match find p table with
       | Some info =>
           Ok {| dataStat := Ok info;
                 dataDir :=
                   if fiIsDir info
                   then Some {| pending := children p table; failure := None |}
                   else None |}
       | None => Err (PathError "open" p ErrNotExist)
       end;
     fsReadLink := fun p => Err (PathError "readlink" p ErrInvalid);
     fsSub := fun p => Err (PathError "sub" p ErrInvalid) |}.

(** The entry of a directory listing with a given name. *)
Definition entry (name : string) : DirEntry :=
  {| deName := name; deIsDir := false; deType := 0 |}.

(** An open directory that lists the given names and then ends. *)
Definition listing (names : list string) : ReadDirFile :=
  {| pending := map entry names; failure := None |}.

(** A fresh cursor over directories given by their names. *)
Definition cursorOf (dirs : list (list string)) : dirReader :=
  {| files := map listing dirs; names := []; masks := ∅ |}.

(** A world in which three descriptors are open. *)
Definition world0 : World := {| nextFd := 3; openFds := [0; 1; 2]%nat |}.

(** A handle, not read yet, on a directory [d] that is found in layers
    with the given directory streams. *)
Definition handleOf (dirs : list ReadDirFile) : layerFile :=
  {| layers :=
       imap (fun i dir =>
               {| fd := (3 + i)%nat;
                  fileData := {| dataStat := Ok (dirInfo "d");
                                 dataDir := Some dir |} |}) dirs;
     name := "d";
     dirReader_ := None |}.

(** The same, in layers which list the given names and then end. *)
Definition dirHandle (dirs : list (list string)) : layerFile :=
  handleOf (map listing dirs).

(** The five layers of [TestLayerFS], oldest first, with the parent
    directories that [fstest.MapFS] leaves implicit. *)
Definition testLayers : list FS :=
  [ mapFS [("a", dirInfo "a"); ("a/x", dirInfo "x");
           ("a/x/one", fileInfo "one" 292); ("a/x/two", fileInfo "two" 292)];
    mapFS [("a", dirInfo "a"); ("a/b", dirInfo "b"); ("a/x", dirInfo "x");
           ("a/x/two", fileInfo "two" 292)];
    mapFS [("a", dirInfo "a"); ("a/b", dirInfo "b"); ("a/b/c", dirInfo "c");
           ("a/b/c/d", dirInfo "d"); ("a/b/c/d/e", dirInfo "e");
           ("a/x", dirInfo "x");
           ("a/x/.wh..wh..opq", fileInfo ".wh..wh..opq" 292);
           ("a/x/three", fileInfo "three" 292)];
    mapFS [("a", dirInfo "a"); ("a/b", dirInfo "b"); ("a/b/c", dirInfo "c");
           ("a/b/c/file-0", fileInfo "file-0" 292);
           ("a/b/c/d", dirInfo "d"); ("a/b/c/d/nope", fileInfo "nope" 292)];
    mapFS [("a", dirInfo "a"); ("a/b", dirInfo "b"); ("a/b/c", dirInfo "c");
           ("a/b/c/file-1", fileInfo "file-1" 292);
           ("a/b/c/.wh.d", dirInfo ".wh.d")] ].

(** The names that one unbounded [ReadDir] lists in the directory
    [name] of a stack, when it opens. *)
Definition listDir (stack : layerFS) (name : string) : option (list string) :=
  match Open stack name world0 with
  | Some (Ok f, _) =>
      match ReadDir f (-1) with
      | Some (ret, None, _) => Some (map deName ret)
      | _ => None
      end
  | _ => None
  end.

End Fixtures.

(** ** Notions used to state the properties of [lookup] *)

(** The prefix is absent from the layer: [fs.Stat] fails with an error
    that is [fs.ErrNotExist]. *)
Definition absent (p : string) (layer : FS) : Prop :=
  exists e, fsStat layer p = Err e /\ errors_Is e ErrNotExist = true.

(** A layer where the prefix is a directory, resp. is not. *)
Definition isDirIn (p : string) (layer : FS) : Prop :=
  exists s, fsStat layer p = Ok s /\ fiIsDir s = true.

Definition nonDirIn (p : string) (layer : FS) : Prop :=
  exists s, fsStat layer p = Ok s /\ fiIsDir s = false.

(** The end of an element of the path: the end of the path or the
    position of a slash. *)
Definition boundary (name : string) (j : nat) : Prop :=
  j = String.length name \/ String.get j name = Some slash.

(** The next position that the walk stops at: the first boundary from
    [walk] on. *)
Definition nextStop (path : string) (walk : nat) : nat :=
  match IndexByte (string_drop walk path) slash with
  | None => String.length path
  | Some i => (walk + i)%nat
  end.

(** After the prefix where [H] is not a directory: [H] alone, or layers
    above [H] only. *)
Definition shadowed (hi : list FS) (H : FS) (vis : list FS) : Prop :=
  vis `sublist_of` [H] \/ vis `sublist_of` hi.

(** Before it: [H] may still be a candidate, between layers above and
    layers below it. *)
Definition candidate (hi lo : list FS) (H : FS) (vis : list FS) : Prop :=
  shadowed hi H vis \/
  exists a b, vis = a ++ H :: b /\ a `sublist_of` hi /\ b `sublist_of` lo.

(** ** Notions used to state the properties of [Open] *)

(** Every open descriptor was handed out before [nextFd]. *)
Definition world_ok (w : World) : Prop :=
  Forall (fun d => (d < nextFd w)%nat) (openFds w).

(** [layer.Open(name)] succeeds. *)
Definition opens (name : string) (layer : FS) : Prop :=
  exists d, fsOpen layer name = Ok d.

(** ** Notions used to state the properties of the directory cursor *)

(** The callback of [ReadDir], which never fails. *)
Definition accept : DirEntry -> option error := fun _ => None.

(** What [scan] does with an entry depends on its name and on the mask
    set only. *)
Definition unmasked (masks : gset string) (e : DirEntry) : bool :=
  negb (bool_decide (deName e ∈ masks)).

Definition isOpaque (e : DirEntry) : bool :=
  String.eqb (deName e) whiteoutOpaque.

Definition isWhiteout (e : DirEntry) : bool :=
  HasPrefix (deName e) whiteoutPrefix.

(** Of the entries read from a layer under a mask set: those that are
    handed to the caller, *)
Definition layerEmit (masks : gset string) (entries : list DirEntry)
  : list DirEntry :=
  List.filter
    (fun e => unmasked masks e && negb (isOpaque e) && negb (isWhiteout e))
    entries.

(** the names that they add to the names of the layer, *)
Definition layerNames (masks : gset string) (entries : list DirEntry)
  : list string :=
  flat_map
    (fun e =>
       if unmasked masks e && negb (isOpaque e) then
         [if isWhiteout e
          then string_drop (String.length whiteoutPrefix) (deName e)
          else deName e]
       else [])
    entries.

(** and whether the opaque marker is among them. *)
Definition layerOpaque (masks : gset string) (entries : list DirEntry)
  : bool :=
  existsb (fun e => unmasked masks e && isOpaque e) entries.

(** The state of a call of [scan] after the entries [consumed] of the
    first layer have been read and processed, the layer being left at
    [file']. *)
Definition advance (consumed : list DirEntry) (file' : ReadDirFile)
    (s : scanState) : scanState :=
  let dir := cursor s in
  {| cursor :=
       {| files := file' :: (if layerOpaque (masks dir) consumed then []
                             else drop 1 (files dir));
          names := names dir ++ layerNames (masks dir) consumed;
          masks := masks dir |};
     dirents := dirents s + Z.of_nat (length (layerEmit (masks dir) consumed));
     emitted := emitted s ++ layerEmit (masks dir) consumed |}.

(** The merged listing of what is left of a directory: the entries that
    remain to be handed out, layer after layer, and the cursor once they
    are. [names] are the names met so far in the first layer. *)
Fixpoint drainFiles (masks : gset string) (names : list string)
    (files : list ReadDirFile) : list DirEntry * dirReader :=
  match files with
  | [] => ([], {| files := []; names := names; masks := masks |})
  | file :: rest =>
      let masks' :=
        list_to_set (names ++ layerNames masks (pending file)) ∪ masks in
      if layerOpaque masks (pending file) then
        (layerEmit masks (pending file),
         {| files := []; names := []; masks := masks' |})
      else
        let (out, dir) := drainFiles masks' [] rest in
        (layerEmit masks (pending file) ++ out, dir)
  end.

Definition drain (dir : dirReader) : list DirEntry * dirReader :=
  drainFiles (masks dir) (names dir) (files dir).

(** Successive calls of [ReadDir] on a handle: the entries of all the
    calls, the error of the last one ([last] if there is no call) and
    the handle after them. *)
Fixpoint readDirs (f : layerFile) (ns : list Z) (last : option error)
  : option (list DirEntry * option error * layerFile) :=
  match ns with
  | [] => Some ([], last, f)
  | n :: ns' =>
      match ReadDir f n with
      | None => None
      | Some (ret, err, f') =>
          match readDirs f' ns' err with
          | None => None
          | Some (ret', err', f'') => Some (ret ++ ret', err', f'')
          end
      end
  end.

(** No layer of the directory fails while it is read. *)
Definition listsCleanly (dir : dirReader) : Prop :=
  Forall (fun file => failure file = None) (files dir).

(** The state of a call of [scan] when it leaves a layer: lines 333-337
    on the cursor. *)
Definition nextLayer (s : scanState) : scanState :=
  {| cursor := applyNames (cursor s);
     dirents := dirents s;
     emitted := emitted s |}.

(** The ways a call of [scan] moves the cursor: it consumes a part of
    the first layer and stays there; or it consumes all that is left of
    the first layer, leaves it, and goes on in the same way with the
    next layers; or there is no layer left. *)
Inductive scanned : scanState -> scanState -> Prop :=
| scanned_here s consumed file file' rest :
    files (cursor s) = file :: rest ->
    pending file = consumed ++ pending file' ->
    failure file' = failure file ->
    scanned s (advance consumed file' s)
| scanned_next s file file' rest s' :
    files (cursor s) = file :: rest ->
    pending file' = [] ->
    failure file' = failure file ->
    scanned (nextLayer (advance (pending file) file' s)) s' ->
    scanned s s'
| scanned_end s :
    files (cursor s) = [] ->
    scanned s s.

(** How a call of [scan] ends, by its error: with [nil], [n] entries
    were handed out, or the call was unbounded and no layer is left;
    with [io.EOF], no layer is left and fewer than [n] entries were
    there; with another error, the first layer of the cursor failed with
    it after its entries. *)
Definition ending (n : Z) (err : option error) (s' : scanState) : Prop :=
  (err = None /\
   ((n = 0 /\ files (cursor s') = []) \/ (0 < n /\ dirents s' = n))) \/
  (err = Some EOF /\ 0 < n /\ files (cursor s') = [] /\ dirents s' < n) \/
  (exists e file' rest',
     err = Some e /\ e <> EOF /\ 0 < n /\
     files (cursor s') = file' :: rest' /\
     pending file' = [] /\ failure file' = Some e /\ dirents s' < n).

(** The cursor that a call of [ReadDir] on the handle works on. *)
Definition handleCursor (f : layerFile) : dirReader :=
  default (newDirReader f) (dirReader_ f).

(** The handle with its cursor at [dir]. *)
Definition withCursor (f : layerFile) (dir : dirReader) : layerFile :=
  {| layers := layers f; name := name f; dirReader_ := Some dir |}.

(** ** Notions used to state further properties *)

(** The path exists in the layer: [fs.Stat] succeeds. *)
Definition existsIn (p : string) (layer : FS) : Prop :=
  exists s, fsStat layer p = Ok s.

(** The layer has the directory [p] and one of the two whiteout markers
    of [p]. *)
Definition whitedOut (p : string) (layer : FS) : Prop :=
  isDirIn p layer /\
  hasOneOf layer [fst (whiteout p); snd (whiteout p)] = Ok true.

(** [ReadLink] goes on to the next layer: [fslink.ReadLink] fails with
    an error that is [fs.ErrNotExist] or [fs.ErrInvalid]. *)
Definition noLink (name : string) (layer : FS) : Prop :=
  exists e, fsReadLink layer name = Err e /\
            (errors_Is e ErrNotExist || errors_Is e ErrInvalid = true).

(** ** The loop of [LayerFS] as it is written *)

(** The loop of [LayerFS] (lines 39-43) on the copy of its argument,
    with the two indices [i] and [j] (an [int]: [j] is [-1] at first
    when there is no layer). Every iteration moves the indices towards
    each other; [None] is the loop still running when [fuel] is spent,
    or an index out of range. *)
Fixpoint reverseLoop (fuel : nat) (i j : Z) (layers : list FS)
  : option (list FS) :=
  if negb (i <? j) then Some layers
  else
    match fuel with
    | O => None
    | S fuel' =>
        match layers !! Z.to_nat i, layers !! Z.to_nat j with
        | Some li, Some lj =>
            (* [layers[i], layers[j] = layers[j], layers[i]] *)
            reverseLoop fuel' (i + 1) (j - 1)
              (<[Z.to_nat j := li]> (<[Z.to_nat i := lj]> layers))
        | _, _ => None
        end
    end.

(** [LayerFS(layers...)] with its loop; [LayerFS] above is what it
    computes ([LayerFS_reverses] below). *)
Definition LayerFS_loop (layers : list FS) : option layerFS :=
  reverseLoop (length layers) 0 (Z.of_nat (length layers) - 1) layers.

(** The layer takes no part in hiding at the prefix [p]: it lacks [p],
    or has it as a directory with neither of its whiteout markers. *)
Definition plainAt (p : string) (layer : FS) : Prop :=
  absent p layer \/
  (isDirIn p layer /\
   hasOneOf layer [fst (whiteout p); snd (whiteout p)] = Ok false).

(** No entry of the directory is the whiteout of a whiteout: a name
    that starts with the whiteout prefix twice is the opaque marker. *)
Definition noNestedWhiteout (file : ReadDirFile) : Prop :=
  Forall (fun e =>
            HasPrefix (deName e) (whiteoutPrefix +:+ whiteoutPrefix) = true ->
            deName e = whiteoutOpaque)
         (pending file).

(** The directory says nothing about the name [x]: it lists neither
    [x], nor the whiteout of [x], nor the opaque marker. *)
Definition silentOn (x : string) (file : ReadDirFile) : Prop :=
  ~ In x (map deName (pending file)) /\
  ~ In (whiteoutPrefix +:+ x) (map deName (pending file)) /\
  ~ In whiteoutOpaque (map deName (pending file)).

(** * Properties *)

(** ** Strings *)

Lemma string_take_length (n : nat) (s : string) :
  (String.length s <= n)%nat -> string_take n s = s.
Proof.
  revert n; induction s as [|c s IH]; intros [|n] H; simpl in *.
  - reflexivity.
  - reflexivity.
  - lia.
  - rewrite IH; [reflexivity | lia].
Qed.

Lemma string_drop_get (n i : nat) (s : string) :
  String.get i (string_drop n s) = String.get (n + i) s.
Proof.
  revert s; induction n as [|n IH]; intros [|c s]; simpl; auto.
Qed.

Lemma string_drop_nonempty (n : nat) (s : string) :
  (n < String.length s)%nat -> string_drop n s <> EmptyString.
Proof.
  revert s; induction n as [|n IH]; intros [|c s]; simpl; try lia; try discriminate.
  intros H. apply IH. lia.
Qed.

(** [IndexByte] finds the first occurrence. *)
Lemma IndexByte_Some (s : string) (c : ascii) (i : nat) :
  IndexByte s c = Some i ->
  String.get i s = Some c /\ forall j, (j < i)%nat -> String.get j s <> Some c.
Proof.
  revert i; induction s as [|d s IH]; simpl; intros i H; [discriminate|].
  destruct (Ascii.eqb_spec d c) as [->|Hne].
  - injection H as <-. split; [reflexivity | intros j Hj; lia].
  - destruct (IndexByte s c) as [k|] eqn:E; [|discriminate].
    injection H as <-. destruct (IH k eq_refl) as [Hk Hlt]. split; [exact Hk|].
    intros [|j] Hj; simpl; [congruence | apply Hlt; lia].
Qed.

Lemma IndexByte_None (s : string) (c : ascii) :
  IndexByte s c = None -> forall j, String.get j s <> Some c.
Proof.
  induction s as [|d s IH]; simpl; intros H j; [discriminate|].
  destruct (Ascii.eqb_spec d c) as [->|Hne]; [discriminate|].
  destruct (IndexByte s c); [discriminate|].
  destruct j; simpl; [congruence | apply IH; reflexivity].
Qed.

(** [fs.ValidPath] in terms of the elements of the path. *)
Lemma valid_elems_elements (cur s : string) :
  valid_elems cur s = forallb valid_elem (elements_from cur s).
Proof.
  revert cur; induction s as [|c s IH]; intros cur; simpl.
  - rewrite andb_true_r. reflexivity.
  - destruct (Ascii.eqb c slash); simpl; rewrite IH; reflexivity.
Qed.

Lemma ValidPath_false_elements (name : string) :
  name <> "." ->
  (exists e, In e (elements name) /\ (e = EmptyString \/ e = "." \/ e = "..")) ->
  ValidPath name = false.
Proof.
  intros Hdot (e & Hin & He). unfold ValidPath.
  destruct (utf8_ValidString name); [simpl | reflexivity].
  destruct (String.eqb_spec name "."); [contradiction|].
  rewrite valid_elems_elements. apply not_true_is_false. intros Hall.
  rewrite forallb_forall in Hall. specialize (Hall e Hin).
  unfold valid_elem in Hall.
  destruct He as [-> | [-> | ->]]; discriminate.
Qed.

(** ** Visibility resolution *)

Section Lookup.

Implicit Types (layer : FS) (kept rest vis : list FS).

(** The walk ends: [length path] iterations are enough from any
    position, so [lookup] returns. *)
Lemma walkPath_total (fuel : nat) (path : string) (walk : nat) vis :
  (String.length path <= walk + fuel)%nat ->
  exists r, walkPath fuel path walk vis = Some r.
Proof.
  revert walk vis; induction fuel as [|fuel IH]; intros walk vis Hf.
  - simpl. destruct (Nat.ltb_spec walk (String.length path)); [lia|].
    simpl. eauto.
  - simpl.
    destruct (Nat.ltb_spec walk (String.length path)) as [Hlt|Hge];
      [|simpl; eauto].
    destruct (0 <? length vis)%nat; [simpl | simpl; eauto].
    set (walk' := match IndexByte _ _ with Some i => _ | None => _ end).
    assert (Hw : (walk <= walk')%nat).
    { subst walk'. destruct (IndexByte _ _); lia. }
    destruct (whiteout _) as [w1 w2].
    destruct (scanLayers _ _ _ _ _); [|eauto].
    apply IH. lia.
Qed.

Lemma lookup_total (stack : layerFS) (op name : string) :
  exists r, lookup stack op name = Some r.
Proof.
  unfold lookup, lookup_fuel.
  destruct (negb (ValidPath name)); [eauto|].
  destruct (String.eqb name "."); [eauto|].
  destruct (walkPath_total (String.length name) name 0 stack) as [r ->]; [lia|].
  destruct r as [[|l vis]|e]; eauto.
Qed.

(** What is left after a prefix is a part of what was there, the layers
    kept so far first. *)
Lemma scanLayers_sublist (p w1 w2 : string) kept rest vis :
  scanLayers p w1 w2 kept rest = Ok vis ->
  exists r, vis = kept ++ r /\ r `sublist_of` rest.
Proof.
  revert kept; induction rest as [|layer rest IH]; intros kept H;
    cbn [scanLayers] in H.
  - inversion H; subst. exists []. rewrite app_nil_r. split; [reflexivity | constructor].
  - destruct (fsStat layer p) as [s|e].
    + destruct (fiIsDir s); cbn [negb] in H.
      * destruct (hasOneOf layer [w1; w2]) as [[|]|e]; [| |discriminate].
        -- inversion H; subst. exists [layer]. split; [reflexivity|].
           apply sublist_skip, sublist_nil_l.
        -- destruct (IH _ H) as (r & -> & Hr). exists (layer :: r).
           rewrite <- app_assoc. split; [reflexivity | by apply sublist_skip].
      * inversion H; subst. destruct kept as [|k kept].
        -- exists [layer]. split; [reflexivity|]. apply sublist_skip, sublist_nil_l.
        -- exists []. rewrite app_nil_r. split; [reflexivity | apply sublist_nil_l].
    + destruct (negb (errors_Is e ErrNotExist)); [discriminate|].
      destruct (IH _ H) as (r & -> & Hr). exists r. split; [reflexivity|].
      by apply sublist_cons.
Qed.

End Lookup.

(** ** The loop over the candidates, on the slice and its index *)

Lemma scanLayers_index (p w1 w2 : string) (kept rest : list FS) (fuel : nat) :
  (length rest <= fuel)%nat ->
  scanLayersAt fuel p w1 w2 (length kept) (kept ++ rest)
  = Some (scanLayers p w1 w2 kept rest).
Proof.
  revert kept fuel; induction rest as [|layer rest IH]; intros kept fuel Hfuel.
  - rewrite app_nil_r. destruct fuel; cbn [scanLayersAt scanLayers];
      rewrite (proj2 (Nat.ltb_ge _ _)) by lia; reflexivity.
  - destruct fuel as [|fuel]; [cbn in Hfuel; lia|].
    cbn [scanLayersAt scanLayers].
    rewrite (proj2 (Nat.ltb_lt _ _)) by (rewrite length_app; cbn; lia).
    cbn [negb]. rewrite list_lookup_middle by reflexivity.
    destruct (fsStat layer p) as [s|e].
    + destruct (fiIsDir s); cbn [negb].
      * destruct (hasOneOf layer [w1; w2]) as [[|]|e]; [| |reflexivity].
        -- rewrite cons_middle, app_assoc, take_app_length'
             by (rewrite length_app; cbn; lia).
           reflexivity.
        -- rewrite cons_middle, app_assoc.
           replace (S (length kept)) with (length (kept ++ [layer]))
             by (rewrite length_app; cbn; lia).
           apply IH. cbn in Hfuel. lia.
      * destruct kept as [|k kept]; cbn [length Nat.eqb app take].
        -- rewrite take_0. reflexivity.
        -- f_equal. f_equal. f_equal. by rewrite take_app_length.
    + destruct (negb (errors_Is e ErrNotExist)); [reflexivity|].
      rewrite take_app_length, cons_middle, app_assoc, drop_app_length'
        by (rewrite length_app; cbn; lia).
      apply IH. cbn in Hfuel. lia.
Qed.

(** ** Shadowing by a non-directory *)

Section NonDirectory.

Implicit Types (layer H : FS) (kept rest vis hi lo : list FS).

Lemma scanLayers_absent (p w1 w2 : string) kept a rest :
  Forall (absent p) a ->
  scanLayers p w1 w2 kept (a ++ rest) = scanLayers p w1 w2 kept rest.
Proof.
  induction 1 as [|l a (e & He & His) _ IH]; [reflexivity|].
  cbn [app scanLayers]. rewrite He, His. exact IH.
Qed.

(** One prefix, a candidate [H] where it is not a directory: the scan
    stops there at the latest. *)
Lemma scanLayers_nondir (p w1 w2 : string) kept a H b vis :
  nonDirIn p H ->
  scanLayers p w1 w2 kept (a ++ H :: b) = Ok vis ->
  (kept = [] /\ vis = [H] /\ Forall (absent p) a) \/
  (vis <> [] /\ exists r, vis = kept ++ r /\ r `sublist_of` a).
Proof.
  intros (s & Hs & Hd). revert kept.
  induction a as [|l a IH]; intros kept Hscan; cbn [app scanLayers] in Hscan.
  - rewrite Hs, Hd in Hscan. cbn [negb] in Hscan.
    destruct kept as [|x kept]; inversion Hscan; subst.
    + left. auto.
    + right. split; [discriminate|]. exists []. by rewrite app_nil_r.
  - destruct (fsStat l p) as [s'|e] eqn:El.
    + destruct (fiIsDir s'); cbn [negb] in Hscan.
      * destruct (hasOneOf l [w1; w2]) as [[|]|e]; [| |discriminate].
        -- inversion Hscan; subst. right.
           split; [by destruct kept|]. exists [l].
           split; [reflexivity | apply sublist_skip, sublist_nil_l].
        -- destruct (IH _ Hscan) as [(Hk & _) | (Hne & r & -> & Hr)].
           ++ by destruct kept.
           ++ right. split; [exact Hne|]. exists (l :: r).
              rewrite <- app_assoc. split; [reflexivity | by apply sublist_skip].
      * right. destruct kept as [|x kept]; inversion Hscan; subst.
        -- split; [discriminate|]. exists [l].
           split; [reflexivity | apply sublist_skip, sublist_nil_l].
        -- split; [discriminate|]. exists []. rewrite app_nil_r.
           split; [reflexivity | apply sublist_nil_l].
    + destruct (errors_Is e ErrNotExist) eqn:Ee; cbn [negb] in Hscan;
        [|discriminate].
      destruct (IH _ Hscan) as [(Hk & Hv & Ha) | (Hne & r & -> & Hr)].
      * left. repeat split; auto. constructor; [by exists e | exact Ha].
      * right. split; [exact Hne|]. exists r.
        split; [reflexivity | by apply sublist_cons].
Qed.

(** One prefix, a candidate [H] where it is a directory: [H] stays a
    candidate together with layers above and below it, or the scan
    stops at [H] or above it. *)
Lemma scanLayers_dir (p w1 w2 : string) kept a H b vis :
  isDirIn p H ->
  scanLayers p w1 w2 kept (a ++ H :: b) = Ok vis ->
  exists r, vis = kept ++ r /\
    (r `sublist_of` a \/
     exists a' b', r = a' ++ H :: b' /\ a' `sublist_of` a /\ b' `sublist_of` b).
Proof.
  intros (s & Hs & Hd). revert kept.
  induction a as [|l a IH]; intros kept Hscan; cbn [app scanLayers] in Hscan.
  - rewrite Hs, Hd in Hscan. cbn [negb] in Hscan.
    destruct (hasOneOf H [w1; w2]) as [[|]|e]; [| |discriminate].
    + inversion Hscan; subst. exists [H]. split; [reflexivity|].
      right. exists [], []. split; [reflexivity|]. split; apply sublist_nil_l.
    + destruct (scanLayers_sublist _ _ _ _ _ _ Hscan) as (r & -> & Hr).
      exists (H :: r). rewrite <- app_assoc. split; [reflexivity|].
      right. exists [], r. split; [reflexivity|]. split; [apply sublist_nil_l | exact Hr].
  - destruct (fsStat l p) as [s'|e] eqn:El.
    + destruct (fiIsDir s'); cbn [negb] in Hscan.
      * destruct (hasOneOf l [w1; w2]) as [[|]|e]; [| |discriminate].
        -- inversion Hscan; subst. exists [l]. split; [reflexivity|]. left.
           apply sublist_skip, sublist_nil_l.
        -- destruct (IH _ Hscan) as (r & -> & Hr). exists (l :: r).
           rewrite <- app_assoc. split; [reflexivity|].
           destruct Hr as [Hr | (a' & b' & -> & Ha & Hb)].
           ++ left. by apply sublist_skip.
           ++ right. exists (l :: a'), b'. split; [reflexivity|].
              split; [by apply sublist_skip | exact Hb].
      * destruct kept as [|x kept]; inversion Hscan; subst.
        -- exists [l]. split; [reflexivity|]. left.
           apply sublist_skip, sublist_nil_l.
        -- exists []. rewrite app_nil_r. split; [reflexivity|]. left.
           apply sublist_nil_l.
    + destruct (errors_Is e ErrNotExist) eqn:Ee; cbn [negb] in Hscan;
        [|discriminate].
      destruct (IH _ Hscan) as (r & -> & Hr). exists r. split; [reflexivity|].
      destruct Hr as [Hr | (a' & b' & -> & Ha & Hb)].
      * left. by apply sublist_cons.
      * right. exists a', b'. split; [reflexivity|].
        split; [by apply sublist_cons | exact Hb].
Qed.

(** In a valid path no element is empty: a boundary is never at the
    start of the path nor right after a slash. *)
Lemma valid_elems_boundary (cur s : string) (j : nat) :
  valid_elems cur s = true -> boundary s j ->
  (j = O -> cur <> EmptyString) /\
  (forall j', j = S j' -> String.get j' s <> Some slash).
Proof.
  revert cur j; induction s as [|c s IH]; intros cur j Hv Hb; cbn in Hv.
  - split.
    + intros _ ->. discriminate.
    + intros j' ->. destruct Hb as [Hb|Hb]; simpl in Hb; discriminate.
  - destruct (Ascii.eqb_spec c slash) as [->|Hc].
    + apply andb_prop in Hv as [Hcur Hv]. split.
      * intros _ ->. discriminate.
      * intros j' ->.
        assert (Hb' : boundary s j').
        { destruct Hb as [Hb|Hb]; [left; simpl in Hb; lia | right; exact Hb]. }
        destruct (IH _ _ Hv Hb') as [H0 HS].
        destruct j' as [|j'']; [exfalso; by apply H0 | simpl; by apply HS].
    + split.
      * intros ->. destruct Hb as [Hb|Hb]; simpl in Hb; [lia | congruence].
      * intros j' ->.
        assert (Hb' : boundary s j').
        { destruct Hb as [Hb|Hb]; [left; simpl in Hb; lia | right; exact Hb]. }
        destruct (IH _ _ Hv Hb') as [H0 HS].
        destruct j' as [|j'']; [simpl; congruence | simpl; by apply HS].
Qed.

Lemma ValidPath_boundary (name : string) (j : nat) :
  ValidPath name = true -> name <> "." -> boundary name j ->
  exists j', j = S j' /\ String.get j' name <> Some slash.
Proof.
  unfold ValidPath. intros Hv Hdot Hb.
  destruct (utf8_ValidString name); [cbn in Hv | discriminate].
  destruct (String.eqb_spec name "."); [contradiction|].
  destruct (valid_elems_boundary _ _ _ Hv Hb) as [H0 HS].
  destruct j as [|j']; [exfalso; by apply H0|].
  exists j'. split; [reflexivity | by apply HS].
Qed.

Lemma boundary_le (name : string) (j : nat) :
  boundary name j -> (j <= String.length name)%nat.
Proof.
  intros [->|Hb]; [lia|].
  destruct (Nat.le_gt_cases j (String.length name)) as [|Hgt]; [assumption|].
  exfalso. revert j Hb Hgt. induction name as [|c s IH]; intros [|j]; simpl;
    try discriminate; try lia.
  intros Hb Hgt. apply (IH j Hb). lia.
Qed.

Lemma get_lt_length (name : string) (j : nat) (c : ascii) :
  String.get j name = Some c -> (j < String.length name)%nat.
Proof.
  revert j; induction name as [|d s IH]; intros [|j]; simpl;
    try discriminate; try lia.
  intros Hj. apply IH in Hj. lia.
Qed.

Lemma nextStop_spec (path : string) (walk : nat) :
  (walk <= String.length path)%nat ->
  (walk <= nextStop path walk)%nat /\
  (forall j, (walk <= j < nextStop path walk)%nat ->
             String.get j path <> Some slash) /\
  boundary path (nextStop path walk).
Proof.
  intros Hw. unfold nextStop.
  destruct (IndexByte (string_drop walk path) slash) as [i|] eqn:E.
  - apply IndexByte_Some in E as [Hi Hlt]. rewrite string_drop_get in Hi.
    split; [lia|]. split.
    + intros j Hj. replace j with (walk + (j - walk))%nat by lia.
      rewrite <- string_drop_get. apply Hlt. lia.
    + by right.
  - split; [assumption|]. split.
    + intros j Hj. replace j with (walk + (j - walk))%nat by lia.
      rewrite <- string_drop_get. by apply IndexByte_None.
    + by left.
Qed.

Lemma walkPath_unfold (fuel : nat) (path : string) (walk : nat) vis :
  walkPath fuel path walk vis =
  if negb ((walk <? String.length path)%nat && (0 <? length vis)%nat)
  then Some (Ok vis)
  else match fuel with
       | O => None
       | S fuel' =>
           let walk' := nextStop path walk in
           match scanLayers (string_take walk' path)
                   (fst (whiteout (string_take walk' path)))
                   (snd (whiteout (string_take walk' path))) [] vis with
           | Err err => Some (Err err)
           | Ok vis' => walkPath fuel' path (S walk') vis'
           end
       end.
Proof.
  destruct fuel; cbn [walkPath]; [reflexivity|]. unfold nextStop.
  destruct (negb _); [reflexivity|]. cbv zeta.
  destruct (whiteout _); reflexivity.
Qed.

Section Walk.

Variables (hi lo : list FS) (H : FS) (name : string) (k : nat).

Lemma shadowed_sublist vis vis' :
  vis' `sublist_of` vis -> shadowed hi H vis -> shadowed hi H vis'.
Proof. intros Hs [Hv|Hv]; [left | right]; by etrans. Qed.

Hypothesis Hk : boundary name k.
Hypothesis Helem : exists k', k = S k' /\ String.get k' name <> Some slash.
Hypothesis Hnondir : nonDirIn (string_take k name) H.
Hypothesis Hdirs :
  forall j, (j < k)%nat -> boundary name j -> isDirIn (string_take j name) H.

Lemma walkPath_shadowed (fuel walk : nat) vis vis' :
  walkPath fuel name walk vis = Some (Ok vis') ->
  ((walk <= k)%nat ->
     (walk = O \/ exists w, walk = S w /\ String.get w name = Some slash) /\
     candidate hi lo H vis) ->
  ((k < walk)%nat -> shadowed hi H vis) ->
  shadowed hi H vis'.
Proof.
  revert walk vis; induction fuel as [|fuel IH]; intros walk vis Hw Hbefore Hafter;
    rewrite walkPath_unfold in Hw.
  all: destruct (Nat.ltb_spec walk (String.length name)) as [Hlt|Hge];
    cbn [andb negb] in Hw.
  all: try destruct (Nat.ltb_spec 0 (length vis)) as [Hne|Hnil];
    cbn [andb negb] in Hw.
  all: try discriminate.
  (* the loop is over, for want of candidates or of path *)
  all: try (inversion Hw; subst vis';
            destruct (Nat.le_gt_cases walk k) as [Hwk|Hwk]; [|by apply Hafter]).
  all: try (destruct vis; [left; apply sublist_nil_l | simpl in Hnil; lia]).
  all: try (exfalso; destruct Helem as (k' & -> & Hk');
            pose proof (boundary_le _ _ Hk);
            destruct (Hbefore Hwk) as [[->|(w & -> & Hget)] _]; [lia|];
            assert (w = k') by lia; subst w; contradiction).
  (* one more prefix *)
  cbv zeta in Hw.
  destruct (nextStop_spec name walk ltac:(lia)) as (Hle & Hfree & Hb).
  set (walk' := nextStop name walk) in *.
  destruct (scanLayers _ _ _ [] vis) as [vis1|e] eqn:Escan; [|discriminate].
  apply IH in Hw; [exact Hw | |].
  - intros Hnext. assert (Hwk : (walk <= k)%nat) by lia.
    destruct (Hbefore Hwk) as [_ Hcand]. split.
    + right. exists walk'. split; [reflexivity|].
      destruct Hb as [Hb|Hb]; [|exact Hb].
      pose proof (boundary_le _ _ Hk). lia.
    + destruct Hcand as [Hsh | (a & b & -> & Ha & Hb')].
      * left. apply (shadowed_sublist vis); [|exact Hsh].
        by destruct (scanLayers_sublist _ _ _ _ _ _ Escan) as (r & -> & Hr).
      * destruct (scanLayers_dir _ _ _ _ _ _ _ _ (Hdirs walk' ltac:(lia) Hb) Escan)
          as (r & -> & [Hr | (a' & b' & -> & Ha' & Hb'')]).
        -- left. right. by etrans.
        -- right. exists a', b'. split; [reflexivity|].
           split; by etrans.
  - intros Hnext. destruct (Nat.le_gt_cases walk k) as [Hwk|Hwk].
    + assert (walk' = k) as Heq.
      { destruct (Nat.lt_ge_cases k walk') as [Hkw|Hkw]; [|lia].
        exfalso. destruct Hk as [Hk'|Hk'].
        - pose proof (boundary_le _ _ Hb). lia.
        - by apply (Hfree k). }
      rewrite Heq in Escan.
      destruct (Hbefore Hwk) as [_ [Hsh | (a & b & -> & Ha & Hb')]].
      * apply (shadowed_sublist vis); [|exact Hsh].
        by destruct (scanLayers_sublist _ _ _ _ _ _ Escan) as (r & -> & Hr).
      * destruct (scanLayers_nondir _ _ _ _ _ _ _ _ Hnondir Escan)
          as [(_ & -> & _) | (_ & r & -> & Hr)].
        -- by left.
        -- right. by etrans.
    + apply (shadowed_sublist vis); [|by apply Hafter].
      by destruct (scanLayers_sublist _ _ _ _ _ _ Escan) as (r & -> & Hr).
Qed.

End Walk.

End NonDirectory.

Lemma lookup_Ok_inv (stack : layerFS) (op name : string) (vis : list FS) :
  lookup stack op name = Some (Ok vis) ->
  ValidPath name = true /\
  (name = "." /\ vis = stack \/
   name <> "." /\ vis <> [] /\
   walkPath (String.length name) name 0 stack = Some (Ok vis)).
Proof.
  unfold lookup, lookup_fuel. intros Hl.
  destruct (ValidPath name); cbn [negb] in Hl; [|discriminate].
  split; [reflexivity|].
  destruct (String.eqb_spec name ".") as [->|Hne].
  - left. inversion Hl. auto.
  - right. split; [exact Hne|].
    destruct (walkPath _ _ _ _) as [[[|l vis']|e]|]; inversion Hl; subst.
    split; [discriminate | reflexivity].
Qed.

(** C1. Shadowing by a non-directory. At one prefix [p], a candidate
    [H] where [p] exists and is not a directory ends the scan of the
    candidates [a ++ H :: b]: when every candidate above [H] lacks [p],
    [H] is the topmost one left and is kept alone; otherwise [H] and all
    of [b] are dropped and what is left comes from [a]. For a whole
    lookup: when a layer [H] of the stack has the prefix [name[:k]] as a
    non-directory (with its parents as directories), the layers visible
    at [name] are [H] alone or layers above [H]; no layer below [H] is
    ever visible at or under that prefix. *)
Theorem nondirectory_shadows_lower_layers :
  (forall (p w1 w2 : string) (a : list FS) (H : FS) (b : list FS),
     nonDirIn p H ->
     (Forall (absent p) a ->
      scanLayers p w1 w2 [] (a ++ H :: b) = Ok [H]) /\
     (forall vis, scanLayers p w1 w2 [] (a ++ H :: b) = Ok vis ->
        (vis = [H] /\ Forall (absent p) a) \/
        (vis <> [] /\ vis `sublist_of` a))) /\
  (forall (hi : list FS) (H : FS) (lo : list FS) (op name : string) (k : nat)
          (vis : list FS),
     name <> "." ->
     boundary name k ->
     nonDirIn (string_take k name) H ->
     (forall j, (j < k)%nat -> boundary name j ->
                isDirIn (string_take j name) H) ->
     lookup (hi ++ H :: lo) op name = Some (Ok vis) ->
     vis = [H] \/ (vis <> [] /\ vis `sublist_of` hi)).
Proof.
  split.
  - intros p w1 w2 a H b Hnd. split.
    + intros Habs. rewrite scanLayers_absent by exact Habs.
      destruct Hnd as (s & Hs & Hd). cbn [scanLayers]. rewrite Hs, Hd.
      reflexivity.
    + intros vis Hscan.
      destruct (scanLayers_nondir _ _ _ _ _ _ _ _ Hnd Hscan)
        as [(_ & -> & Ha) | (Hne & r & -> & Hr)]; [left | right]; auto.
  - intros hi H lo op name k vis Hdot Hk Hnd Hdirs Hl.
    apply lookup_Ok_inv in Hl as [Hvalid [[-> _] | (_ & Hne & Hw)]];
      [contradiction|].
    pose proof (ValidPath_boundary _ _ Hvalid Hdot Hk) as Helem.
    eapply (walkPath_shadowed hi lo H name k Hk Helem Hnd Hdirs) in Hw.
    + destruct Hw as [Hs | Hs].
      * left. destruct vis as [|x vis]; [contradiction|].
        apply sublist_cons_l in Hs as (k1 & k2 & Heq & Hs).
        destruct k1 as [|y [|? ?]]; inversion Heq; subst.
        apply sublist_nil_r in Hs. by subst.
      * right. auto.
    + intros _. split; [by left|]. right. exists hi, lo. auto.
    + lia.
Qed.

(** The file [d/f] of the middle layer hides the directory [d/f] of the
    layer below it. *)
Lemma nondirectory_shadows_lower_layers_witness :
  let top := Fixtures.mapFS [("d", Fixtures.dirInfo "d")] in
  let mid := Fixtures.mapFS [("d", Fixtures.dirInfo "d");
                             ("d/f", Fixtures.fileInfo "f" 292)] in
  let low := Fixtures.mapFS [("d", Fixtures.dirInfo "d");
                             ("d/f", Fixtures.dirInfo "f");
                             ("d/f/x", Fixtures.fileInfo "x" 292)] in
  lookup ([top] ++ mid :: [low]) "open" "d/f" = Some (Ok [mid]) /\
  ([mid] = [mid] \/ ([mid] <> [] /\ [mid] `sublist_of` [top])).
Proof.
  intros top mid low. split; [reflexivity|].
  apply (proj2 nondirectory_shadows_lower_layers [top] mid [low]
           "open" "d/f" 3%nat [mid]).
  - discriminate.
  - left. reflexivity.
  - exists (Fixtures.fileInfo "f" 292). split; reflexivity.
  - intros j Hj [Hb|Hb].
    + simpl in Hb. lia.
    + destruct j as [|[|[|j]]]; try discriminate; try lia.
      exists (Fixtures.dirInfo "d"). split; reflexivity.
  - reflexivity.
Defined.

(** ** Invalid paths *)

Lemma lookup_invalid (stack : layerFS) (op name : string) :
  ValidPath name = false ->
  lookup stack op name = Some (Err (PathError op name ErrNotExist)).
Proof. intros Hv. unfold lookup, lookup_fuel. rewrite Hv. reflexivity. Qed.

(** C9, as the code has it. A path that [fs.ValidPath] rejects (among
    them every path other than [.] with an empty element, as an absolute
    path has, or with an element [.] or [..]) makes [Open], [Sub] and
    [ReadLink] fail with a [*fs.PathError] whose cause is
    [fs.ErrNotExist]: the error is in the Not Found category and is not
    [fs.ErrInvalid]. No file is opened. *)
Theorem invalid_path_is_not_found (stack : layerFS) (name : string) (w : World) :
  ValidPath name = false \/
  (name <> "." /\
   exists e, In e (elements name) /\ (e = EmptyString \/ e = "." \/ e = "..")) ->
  Open stack name w = Some (Err (PathError "open" name ErrNotExist), w) /\
  Sub stack name = Some (Err (PathError "open" name ErrNotExist)) /\
  ReadLink stack name = Some (Err (PathError "readlink" name ErrNotExist)) /\
  (forall op, errors_Is (PathError op name ErrNotExist) ErrNotExist = true /\
              errors_Is (PathError op name ErrNotExist) ErrInvalid = false).
Proof.
  intros Hbad.
  assert (Hv : ValidPath name = false).
  { destruct Hbad as [Hv | [Hdot Hel]]; [exact Hv|].
    by apply ValidPath_false_elements. }
  unfold Open, Sub, ReadLink. rewrite !lookup_invalid by exact Hv.
  repeat split.
Qed.

Lemma invalid_path_is_not_found_witness :
  ValidPath "a/../b" = false /\
  Open [Fixtures.mapFS [("a", Fixtures.dirInfo "a")]] "a/../b" Fixtures.world0
  = Some (Err (PathError "open" "a/../b" ErrNotExist), Fixtures.world0).
Proof.
  split; [reflexivity|].
  apply (invalid_path_is_not_found
           [Fixtures.mapFS [("a", Fixtures.dirInfo "a")]] "a/../b"
           Fixtures.world0).
  left. reflexivity.
Defined.

(** C9, as the specification has it, fails: the absolute path [/etc] is
    rejected with [fs.ErrNotExist], which is the Not Found category and
    not an Invalid Path error. *)
Lemma invalid_path_counterexample :
  ValidPath "/etc" = false /\
  Open [Fixtures.mapFS [("etc", Fixtures.dirInfo "etc")]] "/etc" Fixtures.world0
  = Some (Err (PathError "open" "/etc" ErrNotExist), Fixtures.world0) /\
  Sub [Fixtures.mapFS [("etc", Fixtures.dirInfo "etc")]] "/etc"
  = Some (Err (PathError "open" "/etc" ErrNotExist)) /\
  ReadLink [Fixtures.mapFS [("etc", Fixtures.dirInfo "etc")]] "/etc"
  = Some (Err (PathError "readlink" "/etc" ErrNotExist)) /\
  errors_Is (PathError "open" "/etc" ErrNotExist) ErrInvalid = false /\
  errors_Is (PathError "readlink" "/etc" ErrNotExist) ErrInvalid = false /\
  errors_Is (PathError "open" "/etc" ErrNotExist) ErrNotExist = true.
Proof. repeat split. Qed.

(** ** Read-only metadata *)

Lemma notWriteBits_spec (i : Z) :
  0 <= i ->
  Z.testbit notWriteBits i =
  (i <? 32) && negb ((i =? 1) || (i =? 4) || (i =? 7)).
Proof.
  intros Hi. unfold notWriteBits. rewrite Z.lxor_spec.
  change (2 ^ 32 - 1) with (Z.ones 32).
  rewrite Z.testbit_ones_nonneg by lia.
  destruct (Z.ltb_spec i 8) as [Hlt|Hge].
  - assert (Hc : i = 0 \/ i = 1 \/ i = 2 \/ i = 3 \/ i = 4 \/ i = 5 \/
                 i = 6 \/ i = 7) by lia.
    destruct Hc as [->|[->|[->|[->|[->|[->|[->| ->]]]]]]]; reflexivity.
  - rewrite (Z.bits_above_log2 146 i) by (cbn; lia).
    destruct (Z.ltb_spec i 32); cbn [xorb andb];
      repeat match goal with
             | |- context [?a =? ?b] =>
                 destruct (Z.eqb_spec a b); [lia|]
             end; reflexivity.
Qed.

(** The bits of [Mode]: those of the underlying mode, without the three
    write bits (bits 1, 4 and 7: other, group, owner) and within 32
    bits. *)
Lemma Mode_testbit (info : layerInfo) (i : Z) :
  0 <= i ->
  Z.testbit (Mode info) i =
  Z.testbit (fiMode (embedded info)) i &&
  ((i <? 32) && negb ((i =? 1) || (i =? 4) || (i =? 7))).
Proof.
  intros Hi. unfold Mode. rewrite Z.land_spec, notWriteBits_spec by exact Hi.
  reflexivity.
Qed.

Lemma openLayers_length (vis : list FS) (name : string) (files : list File)
    (w : World) (files' : list File) (w' : World) :
  openLayers vis name files w = (None, files', w') ->
  length files' = (length files + length vis)%nat.
Proof.
  revert files w; induction vis as [|l vis IH]; intros files w Ho;
    cbn [openLayers] in Ho.
  - inversion Ho. simpl. lia.
  - unfold openFile in Ho. destruct (fsOpen l name); [|discriminate].
    apply IH in Ho. rewrite length_app in Ho. simpl in *. lia.
Qed.

Lemma Open_Ok_layers (stack : layerFS) (name : string) (w : World)
    (f : layerFile) (w' : World) :
  stack <> [] -> Open stack name w = Some (Ok f, w') -> layers f <> [].
Proof.
  intros Hstack Ho. unfold Open in Ho.
  destruct (lookup stack "open" name) as [[vis|e]|] eqn:El;
    [|discriminate|discriminate].
  destruct (openLayers vis name [] w) as [[[e|] files] w1] eqn:Eo;
    [discriminate|].
  inversion Ho; subst. cbn [layers].
  apply openLayers_length in Eo.
  apply lookup_Ok_inv in El as [_ [[_ ->] | (_ & Hne & _)]].
  - destruct stack; [contradiction|]. destruct files; [simpl in Eo; lia|discriminate].
  - destruct vis; [contradiction|]. destruct files; [simpl in Eo; lia|discriminate].
Qed.



(** ** Open and the descriptors of the layers *)

Lemma filter_all {A} (P : A -> Prop) `{!forall x, Decision (P x)} (l : list A) :
  (forall x, x ∈ l -> P x) -> filter P l = l.
Proof.
  induction l as [|x l IH]; intros Hall; [reflexivity|].
  rewrite filter_cons_True by (apply Hall; left).
  f_equal. apply IH. intros y Hy. apply Hall. by right.
Qed.

Lemma filter_none {A} (P : A -> Prop) `{!forall x, Decision (P x)} (l : list A) :
  (forall x, x ∈ l -> ~ P x) -> filter P l = [].
Proof.
  induction l as [|x l IH]; intros Hall; [reflexivity|].
  rewrite filter_cons_False by (apply Hall; left).
  apply IH. intros y Hy. apply Hall. by right.
Qed.

Lemma closeAll_openFds (files : list File) (w : World) :
  openFds (closeAll files w) =
  filter (fun d => d ∉ map fd files) (openFds w) /\
  nextFd (closeAll files w) = nextFd w.
Proof.
  unfold closeAll. revert w; induction files as [|f files IH]; intros w;
    cbn [foldl map].
  - split; [|reflexivity]. symmetry. apply filter_all.
    intros d _. apply not_elem_of_nil.
  - destruct (IH (closeFile f w)) as [-> ->]. split; [|reflexivity].
    cbn [closeFile openFds]. rewrite list_filter_filter.
    apply list_filter_iff. intros d. rewrite not_elem_of_cons. tauto.
Qed.

(** The loop of [Open] when every layer opens. *)
Lemma openLayers_all (name : string) (vis : list FS) (files : list File)
    (w : World) :
  Forall (opens name) vis ->
  exists new,
    openLayers vis name files w =
      (None, files ++ new,
       {| nextFd := (nextFd w + length vis)%nat;
          openFds := openFds w ++ seq (nextFd w) (length vis) |}) /\
    map fd new = seq (nextFd w) (length vis) /\
    map (fun f => Ok (fileData f)) new = map (fun l => fsOpen l name) vis.
Proof.
  intros Hall. revert files w.
  induction Hall as [|l vis (d & Hd) _ IH]; intros files w.
  - exists []. cbn. rewrite Nat.add_0_r, !app_nil_r. by destruct w.
  - cbn [openLayers]. unfold openFile. rewrite Hd.
    destruct (IH (files ++ [{| fd := nextFd w; fileData := d |}])
                 {| nextFd := S (nextFd w);
                    openFds := openFds w ++ [nextFd w] |})
      as (new & -> & Hfd & Hdata).
    exists ({| fd := nextFd w; fileData := d |} :: new).
    cbn [nextFd openFds length seq map fd fileData].
    rewrite <- !app_assoc, Hfd, Hdata, Hd.
    replace (S (nextFd w) + length vis)%nat
      with (nextFd w + S (length vis))%nat by lia.
    auto.
Qed.

(** The loop of [Open] when a layer fails after others have opened. *)
Lemma openLayers_fails (name : string) (pre : list FS) (layer : FS)
    (post : list FS) (err : error) (files : list File) (w : World) :
  Forall (opens name) pre ->
  fsOpen layer name = Err err ->
  exists new,
    openLayers (pre ++ layer :: post) name files w =
      (Some err, files ++ new,
       {| nextFd := (nextFd w + length pre)%nat;
          openFds := openFds w ++ seq (nextFd w) (length pre) |}) /\
    map fd new = seq (nextFd w) (length pre).
Proof.
  intros Hall Herr. revert files w.
  induction Hall as [|l pre (d & Hd) _ IH]; intros files w.
  - exists []. cbn [app openLayers]. unfold openFile. rewrite Herr. cbn.
    rewrite Nat.add_0_r, !app_nil_r. by destruct w.
  - cbn [app openLayers]. unfold openFile. rewrite Hd.
    destruct (IH (files ++ [{| fd := nextFd w; fileData := d |}])
                 {| nextFd := S (nextFd w);
                    openFds := openFds w ++ [nextFd w] |})
      as (new & -> & Hfd).
    exists ({| fd := nextFd w; fileData := d |} :: new).
    cbn [nextFd openFds length seq map fd].
    rewrite <- !app_assoc, Hfd.
    replace (S (nextFd w) + length pre)%nat
      with (nextFd w + S (length pre))%nat by lia.
    auto.
Qed.

Lemma filter_fresh_fds (w : World) (n : nat) :
  world_ok w ->
  filter (fun d => d ∉ seq (nextFd w) n) (openFds w ++ seq (nextFd w) n)
  = openFds w.
Proof.
  intros Hok. rewrite filter_app.
  rewrite (filter_all _ (openFds w)).
  - rewrite (filter_none _ (seq (nextFd w) n)).
    + apply app_nil_r.
    + intros d Hd Hn. contradiction.
  - intros d Hd Hin. unfold world_ok in Hok. rewrite Forall_forall in Hok.
    apply Hok in Hd. apply elem_of_seq in Hin. lia.
Qed.

(** C6. [Open] on a path that the lookup resolves to the layers [vis]:
    when the layer after [pre] fails to open and those of [pre] open,
    the call returns that error and no file, the [length pre]
    descriptors that it opened are closed again, and the descriptors
    that were open before are untouched; when every layer opens, the
    call returns a file over the new descriptors, one per visible layer
    in their order, and all of them are still open. *)
Theorem Open_closes_on_failure (stack : layerFS) (name : string) (w : World)
    (vis : list FS) :
  world_ok w ->
  lookup stack "open" name = Some (Ok vis) ->
  (forall pre layer post err,
     vis = pre ++ layer :: post ->
     Forall (opens name) pre ->
     fsOpen layer name = Err err ->
     exists w',
       Open stack name w = Some (Err err, w') /\
       nextFd w' = (nextFd w + length pre)%nat /\
       openFds w' = openFds w /\
       forall d, (nextFd w <= d < nextFd w')%nat -> d ∉ openFds w') /\
  (Forall (opens name) vis ->
   exists f w',
     Open stack name w = Some (Ok f, w') /\
     map fd (layers f) = seq (nextFd w) (length vis) /\
     map (fun l => Ok (fileData l)) (layers f)
       = map (fun l => fsOpen l name) vis /\
     openFds w' = openFds w ++ map fd (layers f)).
Proof.
  intros Hok Hl. split.
  - intros pre layer post err -> Hpre Herr.
    destruct (openLayers_fails name pre layer post err [] w Hpre Herr)
      as (new & Ho & Hfd).
    unfold Open. rewrite Hl, Ho. eexists. split; [reflexivity|].
    destruct (closeAll_openFds ([] ++ new)
                {| nextFd := (nextFd w + length pre)%nat;
                   openFds := openFds w ++ seq (nextFd w) (length pre) |})
      as [Hfds Hnext].
    cbn [app nextFd openFds] in *. rewrite Hfd in Hfds.
    rewrite filter_fresh_fds in Hfds by exact Hok.
    split; [exact Hnext|]. split; [exact Hfds|].
    intros d Hd Hin. rewrite Hfds in Hin.
    unfold world_ok in Hok. rewrite Forall_forall in Hok.
    apply Hok in Hin. lia.
  - intros Hall.
    destruct (openLayers_all name vis [] w Hall) as (new & Ho & Hfd & Hdata).
    unfold Open. rewrite Hl, Ho. eexists _, _. split; [reflexivity|].
    cbn [layers app closeAll foldl openFds]. rewrite Hfd. auto.
Qed.

(** The second of two layers that have [d] fails to open it: the
    descriptor of the first is closed again. *)
Lemma Open_closes_on_failure_witness :
  let top := Fixtures.mapFS [("d", Fixtures.dirInfo "d")] in
  let bad := {| fsStat := fsStat top;
                fsOpen := fun p => Err (PathError "open" p ErrPermission);
                fsReadLink := fsReadLink top;
                fsSub := fsSub top |} in
  world_ok Fixtures.world0 /\
  lookup [top; bad] "open" "d" = Some (Ok [top; bad]) /\
  exists w',
    Open [top; bad] "d" Fixtures.world0
      = Some (Err (PathError "open" "d" ErrPermission), w') /\
    nextFd w' = 4%nat /\
    openFds w' = [0; 1; 2]%nat.
Proof.
  intros top bad.
  assert (Hok : world_ok Fixtures.world0).
  { unfold world_ok. repeat constructor. }
  split; [exact Hok|]. split; [reflexivity|].
  destruct (proj1 (Open_closes_on_failure [top; bad] "d" Fixtures.world0
                     [top; bad] Hok eq_refl)
              [top] bad [] (PathError "open" "d" ErrPermission) eq_refl)
    as (w' & Ho & Hn & Hfds & _).
  - repeat constructor. eexists. reflexivity.
  - reflexivity.
  - exists w'. auto.
Defined.

(** ** The directory cursor *)

Section Cursor.

Implicit Types (masks : gset string) (entries consumed : list DirEntry)
  (file : ReadDirFile) (s : scanState) (dir : dirReader).

Lemma layerEmit_app masks (l1 l2 : list DirEntry) :
  layerEmit masks (l1 ++ l2) = layerEmit masks l1 ++ layerEmit masks l2.
Proof. apply List.filter_app. Qed.

Lemma layerNames_app masks (l1 l2 : list DirEntry) :
  layerNames masks (l1 ++ l2) = layerNames masks l1 ++ layerNames masks l2.
Proof. apply flat_map_app. Qed.

Lemma layerOpaque_app masks (l1 l2 : list DirEntry) :
  layerOpaque masks (l1 ++ l2) = layerOpaque masks l1 || layerOpaque masks l2.
Proof. apply existsb_app. Qed.

(** The opaque marker carries the whiteout prefix. *)
Lemma isOpaque_isWhiteout (e : DirEntry) :
  isOpaque e = true -> isWhiteout e = true.
Proof.
  unfold isOpaque, isWhiteout. intros H. apply String.eqb_eq in H.
  rewrite H. reflexivity.
Qed.

Lemma advance_nil file rest s :
  files (cursor s) = file :: rest -> advance [] file s = s.
Proof.
  destruct s as [[fl nm mk] d em]. cbn [cursor files]. intros ->.
  unfold advance, layerEmit, layerNames, layerOpaque.
  cbn [cursor files names masks dirents emitted List.filter flat_map existsb
       drop length].
  rewrite !app_nil_r. change (Z.of_nat 0) with 0. rewrite Z.add_0_r.
  reflexivity.
Qed.

Lemma advance_app consumed1 consumed2 file1 file2 s :
  advance consumed2 file2 (advance consumed1 file1 s)
  = advance (consumed1 ++ consumed2) file2 s.
Proof.
  unfold advance. cbn [cursor files names masks dirents emitted].
  rewrite layerEmit_app, layerNames_app, layerOpaque_app, length_app.
  rewrite Nat2Z.inj_add, <- !app_assoc, Z.add_assoc.
  destruct (layerOpaque _ consumed1); cbn [orb drop].
  - destruct (layerOpaque _ consumed2); reflexivity.
  - reflexivity.
Qed.

(** One entry. *)
Lemma scanEntries_cons (entry : DirEntry) entries file rest s :
  files (cursor s) = file :: rest ->
  scanEntries accept (entry :: entries) s
  = scanEntries accept entries (advance [entry] file s).
Proof.
  destruct s as [[fl nm mk] d em]. cbn [cursor files]. intros ->.
  cbn [scanEntries cursor files names masks dirents emitted].
  unfold advance, layerEmit, layerNames, layerOpaque, unmasked.
  cbn [cursor files names masks dirents emitted List.filter flat_map existsb
       drop].
  destruct (bool_decide (deName entry ∈ mk)); cbn [negb andb orb].
  { cbn. rewrite !app_nil_r, Z.add_0_r. reflexivity. }
  fold (isOpaque entry). fold (isWhiteout entry).
  destruct (isOpaque entry) eqn:Eo; cbn [negb andb orb].
  { cbn. rewrite !app_nil_r, Z.add_0_r. reflexivity. }
  destruct (isWhiteout entry) eqn:Ew; cbn [negb andb orb app length].
  { cbn. rewrite !app_nil_r, Z.add_0_r. reflexivity. }
  unfold accept. reflexivity.
Qed.

(** The loop over the entries of a read. *)
Lemma scanEntries_advance entries file rest s :
  files (cursor s) = file :: rest ->
  scanEntries accept entries s = Continue (advance entries file s).
Proof.
  revert s rest; induction entries as [|e entries IH]; intros s rest Hf.
  - cbn [scanEntries]. by erewrite advance_nil.
  - erewrite scanEntries_cons by exact Hf.
    erewrite IH by reflexivity. rewrite advance_app. reflexivity.
Qed.

(** What an underlying directory returns. *)
Lemma readDir_spec file (k : Z) entries (err : option error) file' :
  readDir file k = (entries, err, file') ->
  pending file = entries ++ pending file' /\
  failure file' = failure file /\
  (k <= 0 -> pending file' = [] /\ err = failure file) /\
  (0 < k ->
   (pending file = [] /\ entries = [] /\ file' = file /\
    err = Some (default EOF (failure file))) \/
   (entries <> [] /\ err = None /\ Z.of_nat (length entries) <= k)).
Proof.
  unfold readDir. destruct (Z.leb_spec k 0) as [Hk|Hk].
  - intros [= <- <- <-]. cbn. rewrite app_nil_r. repeat split; auto; lia.
  - destruct (pending file) as [|e l] eqn:Ep.
    + intros [= <- <- <-]. rewrite Ep. repeat split; auto; try lia.
    + intros [= <- <- <-]. cbn [pending failure]. rewrite take_drop.
      repeat split; auto; try lia. intros _. right.
      split; [|split; [reflexivity|]].
      * destruct (Z.to_nat k) eqn:Ek; [lia | discriminate].
      * rewrite length_take. lia.
Qed.

Lemma advance_reset entries file file1 rest s :
  files (cursor s) = file :: rest ->
  advance entries file1
    {| cursor := {| files := file1 :: rest;
                    names := names (cursor s);
                    masks := masks (cursor s) |};
       dirents := dirents s;
       emitted := emitted s |}
  = advance entries file1 s.
Proof.
  intros Hf. unfold advance. cbn [cursor files names masks dirents emitted].
  rewrite Hf. reflexivity.
Qed.

Lemma layerEmit_length masks entries :
  Z.of_nat (length (layerEmit masks entries)) <= Z.of_nat (length entries).
Proof. unfold layerEmit. pose proof (List.filter_length_le
  (fun e => unmasked masks e && negb (isOpaque e) && negb (isWhiteout e))
  entries). lia. Qed.

(** The inner loop: it ends, having consumed a part of the first layer.
    It runs to its end only when the layer has nothing left; it makes
    [scan] return when [n] entries are there or when the layer fails. *)
Lemma readLayer_spec (fuel : nat) (n : Z) s file rest :
  0 <= dirents s -> n = 0 \/ dirents s < n ->
  files (cursor s) = file :: rest ->
  (length (pending file) < fuel)%nat ->
  exists consumed file' fl,
    readLayer accept fuel n s = Some fl /\
    pending file = consumed ++ pending file' /\
    failure file' = failure file /\
    match fl with
    | Continue s' =>
        s' = advance consumed file' s /\ pending file' = [] /\
        (n = 0 \/ dirents s' < n) /\
        (n = 0 \/ failure file = None \/ failure file = Some EOF)
    | Return err s' =>
        s' = advance consumed file' s /\ 0 < n /\
        ((err = None /\ dirents s' = n) \/
         (exists e, err = Some e /\ e <> EOF /\ failure file = Some e /\
                    pending file' = [] /\ dirents s' < n))
    end.
Proof.
  revert s file rest; induction fuel as [|fuel IH];
    intros s file rest Hd Hn Hf Hfuel; [lia|].
  cbn [readLayer]. rewrite Hf.
  destruct (readDir file (n - dirents s)) as [[entries err] file1] eqn:Er.
  apply readDir_spec in Er as (Hp & Hfail & Hall & Hsome).
  erewrite scanEntries_advance by reflexivity.
  rewrite (advance_reset _ _ _ _ _ Hf).
  destruct (Z.eqb_spec n 0) as [Hn0|Hn0]; cbn [orb].
  { (* an unbounded read: everything comes at once *)
    destruct Hall as [Hnil _]; [lia|].
    exists entries, file1, (Continue (advance entries file1 s)).
    split; [reflexivity|]. split; [exact Hp|]. split; [exact Hfail|].
    split; [reflexivity|]. split; [exact Hnil|]. split; by left. }
  assert (Hlt : dirents s < n) by (destruct Hn; [contradiction | assumption]).
  destruct Hsome as [(Hpn & -> & -> & ->) | (Hne & -> & Hlen)]; [lia| |].
  - (* the layer has nothing left: end of the listing, or failure *)
    destruct (failure file) as [e|] eqn:Efail; cbn [default].
    + destruct (decide (e = EOF)) as [->|He].
      * rewrite bool_decide_eq_true_2 by reflexivity.
        exists [], file, (Continue (advance [] file s)).
        split; [reflexivity|]. split; [reflexivity|]. split; [auto|].
        split; [reflexivity|]. split; [exact Hpn|].
        rewrite (advance_nil _ _ _ Hf). split; right; [exact Hlt | by right].
      * rewrite bool_decide_eq_false_2 by (intros [= ->]; contradiction).
        rewrite (advance_nil _ _ _ Hf).
        destruct (Z.eqb_spec n (dirents s)); [lia|]. cbn [orb].
        rewrite bool_decide_eq_true_2 by discriminate.
        exists [], file, (Return (Some e) s).
        rewrite (advance_nil _ _ _ Hf).
        split; [reflexivity|]. split; [reflexivity|]. split; [auto|].
        split; [reflexivity|]. split; [lia|].
        right. exists e. auto.
    + rewrite bool_decide_eq_true_2 by reflexivity.
      exists [], file, (Continue (advance [] file s)).
      split; [reflexivity|]. split; [reflexivity|]. split; [auto|].
      split; [reflexivity|]. split; [exact Hpn|].
      rewrite (advance_nil _ _ _ Hf). split; right; [exact Hlt | by left].
  - (* some entries came *)
    rewrite bool_decide_eq_false_2 by discriminate.
    pose proof (layerEmit_length (masks (cursor s)) entries) as Hemit.
    destruct (Z.eqb_spec n (dirents (advance entries file1 s))) as [Heq|Hneq];
      cbn [orb].
    + exists entries, file1, (Return None (advance entries file1 s)).
      split; [reflexivity|]. split; [exact Hp|]. split; [exact Hfail|].
      split; [reflexivity|]. split; [lia|]. left. auto.
    + rewrite bool_decide_eq_false_2 by (intros Hx; by apply Hx).
      assert (Hd' : dirents (advance entries file1 s) < n).
      { cbn [advance dirents] in *. lia. }
      destruct (IH (advance entries file1 s) file1
                  (if layerOpaque (masks (cursor s)) entries then []
                   else drop 1 (files (cursor s))))
        as (consumed & file2 & fl & -> & Hp2 & Hfail2 & Hfl).
      * cbn [advance dirents]. lia.
      * right. exact Hd'.
      * reflexivity.
      * rewrite Hp, length_app in Hfuel.
        destruct entries; [contradiction|]. cbn [length] in Hfuel. lia.
      * exists (entries ++ consumed), file2, fl.
        split; [reflexivity|]. split; [by rewrite Hp, Hp2, app_assoc|].
        split; [congruence|].
        destruct fl as [s'|err' s']; rewrite advance_app in Hfl.
        -- destruct Hfl as (-> & Hnil & Hdn & Hx).
           split; [reflexivity|]. split; [exact Hnil|]. split; [exact Hdn|].
           rewrite <- Hfail. exact Hx.
        -- destruct Hfl as (-> & Hpos & Hx).
           split; [reflexivity|]. split; [exact Hpos|].
           rewrite <- Hfail. exact Hx.
Qed.

Lemma scanned_dirents s s' :
  scanned s s' -> dirents s <= dirents s'.
Proof.
  induction 1 as [s consumed file file' rest _ _ _ | s file file' rest s' _ _ _ _ IH | s _].
  - cbn [advance dirents]. lia.
  - cbn [nextLayer advance dirents] in IH. lia.
  - lia.
Qed.

Lemma scanLoop_end (fuel : nat) (n : Z) s :
  0 <= n -> 0 <= dirents s -> n = 0 \/ dirents s < n ->
  files (cursor s) = [] ->
  exists err,
    scanLoop accept fuel n s = Some (err, s) /\ ending n err s.
Proof.
  intros Hn Hd Hlt Hf. exists (if dirents s <? n then Some EOF else None).
  split; [destruct fuel; cbn [scanLoop]; rewrite Hf; reflexivity|].
  destruct (Z.ltb_spec (dirents s) n).
  - right. left. split; [reflexivity|]. split; [lia|]. split; [exact Hf | lia].
  - left. split; [reflexivity|]. left. split; [lia | exact Hf].
Qed.

(** The outer loop and the end of [scan]: the call returns. *)
Lemma scanLoop_spec (fuel : nat) (n : Z) s :
  0 <= n -> 0 <= dirents s -> n = 0 \/ dirents s < n ->
  (length (files (cursor s)) <= fuel)%nat ->
  exists err s',
    scanLoop accept fuel n s = Some (err, s') /\
    scanned s s' /\ ending n err s'.
Proof.
  revert s; induction fuel as [|fuel IH]; intros s Hn Hd Hlt Hfuel.
  - destruct (files (cursor s)) as [|file rest] eqn:Hf; [|cbn in Hfuel; lia].
    destruct (scanLoop_end 0 n s Hn Hd Hlt Hf) as (err & Hloop & Hend).
    exists err, s. split; [exact Hloop|]. split; [by apply scanned_end | exact Hend].
  - destruct (files (cursor s)) as [|file rest] eqn:Hf.
    { destruct (scanLoop_end (S fuel) n s Hn Hd Hlt Hf) as (err & Hloop & Hend).
      exists err, s. split; [exact Hloop|].
      split; [by apply scanned_end | exact Hend]. }
    cbn [scanLoop]. rewrite Hf.
    destruct (readLayer_spec (layerFuel (cursor s)) n s file rest Hd Hlt Hf)
      as (consumed & file' & fl & -> & Hp & Hfail & Hfl).
    { unfold layerFuel. rewrite Hf. lia. }
    destruct fl as [s1|err s1].
    + destruct Hfl as (-> & Hnil & Hdn & _).
      change {| cursor := applyNames (cursor (advance consumed file' s));
                dirents := dirents (advance consumed file' s);
                emitted := emitted (advance consumed file' s) |}
        with (nextLayer (advance consumed file' s)).
      destruct (IH (nextLayer (advance consumed file' s)))
        as (err & s' & Hloop & Hsc & Hend).
      * exact Hn.
      * cbn [nextLayer advance dirents]. lia.
      * exact Hdn.
      * cbn [nextLayer applyNames advance cursor files].
        rewrite Hf. destruct (layerOpaque _ _); cbn [drop length] in *;
          rewrite ?drop_0; lia.
      * exists err, s'. split; [exact Hloop|]. split; [|exact Hend].
        rewrite Hnil, app_nil_r in Hp. subst consumed.
        eapply scanned_next; eauto.
    + destruct Hfl as (-> & Hpos & Hx).
      exists err, (advance consumed file' s). split; [reflexivity|].
      split; [by eapply scanned_here|].
      destruct Hx as [(-> & Hdn) | (e & -> & He & Hfe & Hnil & Hdn)].
      * left. split; [reflexivity|]. right. auto.
      * right. right. exists e, file'. eexists.
        split; [reflexivity|]. split; [exact He|]. split; [exact Hpos|].
        split; [reflexivity|]. split; [exact Hnil|].
        split; [congruence | exact Hdn].
Qed.

(** *** The cursor and the merged listing *)

Lemma drain_advance s file rest consumed file' :
  files (cursor s) = file :: rest ->
  pending file = consumed ++ pending file' ->
  drain (cursor s)
  = (layerEmit (masks (cursor s)) consumed
       ++ fst (drain (cursor (advance consumed file' s))),
     snd (drain (cursor (advance consumed file' s)))).
Proof.
  intros Hf Hp. unfold drain, advance.
  cbn [cursor files names masks]. rewrite Hf.
  cbn [drainFiles drop]. rewrite drop_0, Hp.
  rewrite layerOpaque_app, layerEmit_app, layerNames_app, <- !app_assoc.
  destruct (layerOpaque (masks (cursor s)) consumed); cbn [orb].
  - destruct (layerOpaque (masks (cursor s)) (pending file')); cbn [fst snd].
    + reflexivity.
    + cbn [drainFiles fst snd]. rewrite app_nil_r. reflexivity.
  - destruct (layerOpaque (masks (cursor s)) (pending file')); cbn [fst snd].
    + reflexivity.
    + destruct (drainFiles _ [] rest) as [out dir]. cbn [fst snd].
      rewrite <- app_assoc. reflexivity.
Qed.

Lemma drain_nextLayer s file rest :
  files (cursor s) = file :: rest ->
  pending file = [] ->
  drain (cursor (nextLayer s)) = drain (cursor s).
Proof.
  intros Hf Hp. unfold drain, nextLayer, applyNames.
  cbn [cursor files names masks]. rewrite Hf. cbn [drainFiles drop].
  rewrite drop_0, Hp. cbn [layerOpaque layerEmit layerNames existsb
                              List.filter flat_map app].
  rewrite app_nil_r. by destruct (drainFiles _ [] rest).
Qed.

Lemma layerEmit_Forall masks entries :
  Forall (fun e => (deName e ∉ masks) /\ isWhiteout e = false)
         (layerEmit masks entries).
Proof.
  apply Forall_forall. intros e He. apply list_elem_of_In in He.
  unfold layerEmit in He. apply filter_In in He as [_ He].
  apply andb_prop in He as [He Hw]. apply andb_prop in He as [Hm _].
  split.
  - unfold unmasked in Hm. apply negb_true_iff in Hm.
    by apply bool_decide_eq_false in Hm.
  - by apply negb_true_iff in Hw.
Qed.

(** A call hands out a part of the merged listing, in its order, and
    leaves the rest of it; what it hands out was not masked when the
    call began and is no whiteout. *)
Lemma scanned_drain s s' :
  scanned s s' ->
  exists out,
    emitted s' = emitted s ++ out /\
    dirents s' = dirents s + Z.of_nat (length out) /\
    drain (cursor s) = (out ++ fst (drain (cursor s')), snd (drain (cursor s'))) /\
    masks (cursor s) ⊆ masks (cursor s') /\
    Forall (fun e => (deName e ∉ masks (cursor s)) /\ isWhiteout e = false) out.
Proof.
  induction 1 as [s consumed file file' rest Hf Hp Hfail
                 | s file file' rest s' Hf Hnil Hfail Hsc IH
                 | s Hf].
  - exists (layerEmit (masks (cursor s)) consumed).
    split; [reflexivity|]. split; [reflexivity|].
    split; [by eapply drain_advance|]. split; [reflexivity|].
    apply layerEmit_Forall.
  - destruct IH as (out & Hem & Hd & Hdr & Hm & Hall).
    exists (layerEmit (masks (cursor s)) (pending file) ++ out).
    split; [rewrite Hem; cbn [nextLayer advance emitted]; by rewrite app_assoc|].
    split; [rewrite Hd; cbn [nextLayer advance dirents];
            rewrite length_app; lia|].
    split; [|split].
    + rewrite (drain_advance s file rest (pending file) file' Hf)
        by (by rewrite Hnil, app_nil_r).
      rewrite <- (drain_nextLayer (advance (pending file) file' s) file'
                    (if layerOpaque (masks (cursor s)) (pending file)
                     then [] else drop 1 (files (cursor s))))
        by (reflexivity || exact Hnil).
      rewrite Hdr. cbn [fst snd]. by rewrite app_assoc.
    + etrans; [|exact Hm].
      cbn [nextLayer applyNames advance cursor masks]. set_solver.
    + apply Forall_app. split; [apply layerEmit_Forall|].
      eapply Forall_impl; [exact Hall|]. intros e [He Hw]. split; [|exact Hw].
      intros Hin. apply He.
      cbn [nextLayer applyNames advance cursor masks]. set_solver.
  - exists []. rewrite !app_nil_r. cbn [length]. rewrite Z.add_0_r.
    split; [reflexivity|]. split; [reflexivity|].
    split; [by destruct (drain (cursor s))|]. split; [reflexivity | constructor].
Qed.

Lemma drain_empty dir :
  files dir = [] -> drain dir = ([], dir).
Proof.
  destruct dir as [fl nm mk]. cbn [files]. intros ->. reflexivity.
Qed.

(** A layer that does not fail stays so. *)
Lemma scanned_listsCleanly s s' :
  scanned s s' -> listsCleanly (cursor s) -> listsCleanly (cursor s').
Proof.
  unfold listsCleanly.
  induction 1 as [s consumed file file' rest Hf Hp Hfail
                 | s file file' rest s' Hf Hnil Hfail Hsc IH
                 | s Hf]; intros Hc; [| |exact Hc].
  - cbn [advance cursor files]. rewrite Hf in *. cbn [drop].
    rewrite drop_0. inversion Hc; subst.
    constructor; [congruence|]. destruct (layerOpaque _ _); [constructor | assumption].
  - apply IH. cbn [nextLayer applyNames advance cursor files drop].
    rewrite drop_0, Hf in *. cbn [drop]. rewrite drop_0. inversion Hc; subst.
    destruct (layerOpaque _ _); [constructor | assumption].
Qed.

(** A call of [scan] with [n >= 0] returns, and what it does. *)
Lemma scan_returns (n : Z) dir :
  0 <= n ->
  exists err dir' out,
    scan accept n dir = Some (err, dir', out) /\
    scanned {| cursor := dir; dirents := 0; emitted := [] |}
            {| cursor := dir'; dirents := Z.of_nat (length out);
               emitted := out |} /\
    ending n err {| cursor := dir'; dirents := Z.of_nat (length out);
                    emitted := out |}.
Proof.
  intros Hn.
  destruct (scanLoop_spec (length (files dir)) n
              {| cursor := dir; dirents := 0; emitted := [] |})
    as (err & s' & Hloop & Hsc & Hend); cbn [cursor dirents]; try lia.
  destruct (scanned_drain _ _ Hsc) as (out & Hem & Hd & _).
  cbn [emitted dirents app] in Hem, Hd.
  destruct s' as [dir' d' em']. cbn [emitted dirents] in Hem, Hd. subst.
  exists err, dir', out. unfold scan. rewrite Hloop.
  rewrite Z.add_0_l in *. auto.
Qed.

Lemma scan_drain (n : Z) dir err dir' out :
  0 <= n ->
  scan accept n dir = Some (err, dir', out) ->
  drain dir = (out ++ fst (drain dir'), snd (drain dir')) /\
  masks dir ⊆ masks dir' /\
  Forall (fun e => (deName e ∉ masks dir) /\ isWhiteout e = false) out /\
  (listsCleanly dir -> listsCleanly dir') /\
  ending n err {| cursor := dir'; dirents := Z.of_nat (length out);
                  emitted := out |}.
Proof.
  intros Hn Hs.
  destruct (scan_returns n dir Hn) as (err0 & dir0 & out0 & Hs0 & Hsc & Hend).
  rewrite Hs in Hs0. inversion Hs0; subst err0 dir0 out0.
  destruct (scanned_drain _ _ Hsc) as (out1 & Hem & _ & Hdr & Hm & Hall).
  cbn [emitted cursor app] in *. subst out1.
  split; [exact Hdr|]. split; [exact Hm|]. split; [exact Hall|].
  split; [|exact Hend]. apply (scanned_listsCleanly _ _ Hsc).
Qed.

(** The unbounded call hands out the whole merged listing. *)
Lemma scan_unbounded dir :
  scan accept 0 dir = Some (None, snd (drain dir), fst (drain dir)) /\
  files (snd (drain dir)) = [].
Proof.
  destruct (scan_returns 0 dir ltac:(lia)) as (err & dir' & out & Hs & Hsc & Hend).
  destruct (scan_drain 0 dir err dir' out ltac:(lia) Hs) as (Hdr & _).
  destruct Hend as [(-> & [(_ & Hf) | (Hpos & _)]) |
                    [(_ & Hpos & _) | (e & f' & r' & _ & _ & Hpos & _)]];
    try lia.
  cbn [cursor] in Hf. rewrite (drain_empty dir' Hf) in Hdr.
  cbn [fst snd] in Hdr. rewrite app_nil_r in Hdr. rewrite Hdr. cbn [fst snd].
  auto.
Qed.

End Cursor.

(** ** ReadDir *)

Section ReadDir.

Implicit Types (f : layerFile) (dir : dirReader).

Lemma ReadDir_scan f (n : Z) :
  ReadDir f n =
  match scan accept (Z.max 0 n) (handleCursor f) with
  | None => None
  | Some (err, dir', ret) => Some (ret, err, withCursor f dir')
  end.
Proof.
  unfold ReadDir, handleCursor, withCursor, accept.
  replace (if n <? 0 then 0 else n) with (Z.max 0 n); [reflexivity|].
  destruct (Z.ltb_spec n 0); lia.
Qed.

Lemma handleCursor_withCursor f dir : handleCursor (withCursor f dir) = dir.
Proof. reflexivity. Qed.

(** A call on a directory that has no layer left. *)
Lemma ReadDir_exhausted f (n : Z) :
  files (handleCursor f) = [] ->
  ReadDir f n = Some ([], if 0 <? n then Some EOF else None,
                      withCursor f (handleCursor f)).
Proof.
  intros Hf. rewrite ReadDir_scan. unfold scan. rewrite Hf.
  cbn [length scanLoop cursor dirents emitted]. rewrite Hf.
  destruct (Z.ltb_spec 0 (Z.max 0 n)), (Z.ltb_spec 0 n); try lia; reflexivity.
Qed.

(** The unbounded call on a handle. *)
Lemma ReadDir_unbounded f (n : Z) :
  n <= 0 ->
  ReadDir f n = Some (fst (drain (handleCursor f)), None,
                      withCursor f (snd (drain (handleCursor f)))) /\
  files (snd (drain (handleCursor f))) = [].
Proof.
  intros Hn. rewrite ReadDir_scan. replace (Z.max 0 n) with 0 by lia.
  destruct (scan_unbounded (handleCursor f)) as [-> Hf]. auto.
Qed.



(** *** Resuming a listing *)

Lemma readDirs_drain (ns : list Z) f (last : option error) :
  (last = Some EOF -> files (handleCursor f) = []) ->
  exists ret err f',
    readDirs f ns last = Some (ret, err, f') /\
    fst (drain (handleCursor f)) = ret ++ fst (drain (handleCursor f')) /\
    (err = Some EOF -> files (handleCursor f') = []).
Proof.
  revert f last; induction ns as [|n ns IH]; intros f last Hlast.
  - exists [], last, f. cbn [readDirs app]. auto.
  - cbn [readDirs]. rewrite ReadDir_scan.
    destruct (scan_returns (Z.max 0 n) (handleCursor f) ltac:(lia))
      as (err1 & dir1 & ret1 & Hs & _).
    rewrite Hs.
    destruct (scan_drain (Z.max 0 n) _ _ _ _ ltac:(lia) Hs)
      as (Hdr & _ & _ & _ & Hend).
    destruct (IH (withCursor f dir1) err1) as (ret & err & f' & -> & Hdr' & Hf').
    { intros ->.
      destruct Hend as [(Hx & _) | [(_ & _ & Hf & _) |
                        (e & f1 & r1 & Hx & He & _)]];
        [discriminate | exact Hf | congruence]. }
    exists (ret1 ++ ret), err, f'. split; [reflexivity|]. split; [|exact Hf'].
    rewrite Hdr. cbn [fst]. rewrite handleCursor_withCursor in Hdr'.
    rewrite Hdr', app_assoc. reflexivity.
Qed.

Lemma readDirs_exhausted (ns : list Z) f :
  Forall (fun n => 0 < n) ns ->
  files (handleCursor f) = [] ->
  exists f', readDirs f ns (Some EOF) = Some ([], Some EOF, f').
Proof.
  intros Hns. revert f; induction Hns as [|n ns Hn _ IH]; intros f Hf.
  - exists f. reflexivity.
  - cbn [readDirs]. rewrite (ReadDir_exhausted f n Hf).
    destruct (Z.ltb_spec 0 n); [|lia].
    destruct (IH (withCursor f (handleCursor f)) Hf) as (f' & ->).
    exists f'. reflexivity.
Qed.

(** Bounded calls on layers that do not fail: every call hands out an
    entry, or the listing is over. *)
Lemma readDirs_progress (ns : list Z) f (last : option error)
    (ret : list DirEntry) (err : option error) f' :
  Forall (fun n => 0 < n) ns ->
  listsCleanly (handleCursor f) ->
  readDirs f ns last = Some (ret, err, f') ->
  (ns <> [] /\ err = Some EOF) \/ (length ns <= length ret)%nat.
Proof.
  intros Hns. revert f last ret err f'.
  induction Hns as [|n ns Hn Hns IH]; intros f last ret err f' Hc Hr.
  - right. cbn [length]. lia.
  - cbn [readDirs] in Hr. rewrite ReadDir_scan in Hr.
    destruct (scan accept (Z.max 0 n) (handleCursor f))
      as [[[err1 dir1] ret1]|] eqn:Hs; [|discriminate].
    destruct (scan_drain (Z.max 0 n) _ _ _ _ ltac:(lia) Hs)
      as (_ & _ & _ & Hc1 & Hend).
    specialize (Hc1 Hc).
    destruct Hend as [(-> & [(Hz & _) | (_ & Hd)]) |
                      [(-> & _ & Hf & _) |
                       (e & f1 & r1 & _ & _ & _ & Hf & _ & Hfe & _)]];
      cbn [cursor dirents] in *.
    + lia.
    + destruct (readDirs (withCursor f dir1) ns None)
        as [[[ret2 err2] f2]|] eqn:Hr2; [|discriminate].
      inversion Hr; subst ret err f'.
      destruct (IH (withCursor f dir1) None ret2 err2 f2 Hc1 Hr2)
        as [(_ & ->) | Hlen].
      * left. split; [discriminate | reflexivity].
      * right. rewrite length_app. cbn [length]. lia.
    + destruct (readDirs_exhausted ns (withCursor f dir1) Hns Hf) as (f2 & Hr2).
      rewrite Hr2 in Hr. inversion Hr; subst.
      left. split; [discriminate | reflexivity].
    + exfalso. unfold listsCleanly in Hc1. rewrite Hf in Hc1.
      inversion Hc1; subst. congruence.
Qed.

Lemma layerEmit_names (masks : gset string) (l : list DirEntry) (e : DirEntry) :
  In e (layerEmit masks l) -> In (deName e) (layerNames masks l).
Proof.
  unfold layerEmit, layerNames. intros He. apply filter_In in He as [Hin He].
  apply in_flat_map. exists e. split; [exact Hin|].
  apply andb_prop in He as [He Hw]. rewrite He.
  apply negb_true_iff in Hw. rewrite Hw. by left.
Qed.

Lemma layerEmit_NoDup (masks : gset string) (l : list DirEntry) :
  NoDup (map deName l) -> NoDup (map deName (layerEmit masks l)).
Proof.
  unfold layerEmit. induction l as [|e l IH]; intros Hnd; [constructor|].
  cbn [map List.filter] in *. apply NoDup_cons in Hnd as [Hnin Hnd].
  destruct (_ && _); [|by apply IH].
  cbn [map]. apply NoDup_cons. split; [|by apply IH].
  intros Hin. apply Hnin. apply list_elem_of_In in Hin.
  apply list_elem_of_In. apply in_map_iff in Hin as (e' & Heq & Hin).
  apply filter_In in Hin as [Hin _]. apply in_map_iff. eauto.
Qed.

Lemma drainFiles_unmasked (masks : gset string) (nm : list string)
    (fl : list ReadDirFile) :
  Forall (fun e => deName e ∉ masks) (fst (drainFiles masks nm fl)).
Proof.
  revert masks nm; induction fl as [|file rest IH]; intros masks nm;
    cbn [drainFiles]; [constructor|].
  assert (He : Forall (fun e => deName e ∉ masks)
                      (layerEmit masks (pending file))).
  { eapply Forall_impl; [apply layerEmit_Forall|]. by intros e [He _]. }
  destruct (layerOpaque masks (pending file)); [exact He|].
  specialize (IH (list_to_set (nm ++ layerNames masks (pending file)) ∪ masks) []).
  destruct (drainFiles _ [] rest) as [out dir]. cbn [fst] in *.
  apply Forall_app. split; [exact He|].
  eapply Forall_impl; [exact IH|]. intros e Hn Hin. apply Hn. set_solver.
Qed.

(** When no layer lists a name twice, the merged listing has no name
    twice. *)
Lemma drainFiles_NoDup (masks : gset string) (nm : list string)
    (fl : list ReadDirFile) :
  Forall (fun file => NoDup (map deName (pending file))) fl ->
  NoDup (map deName (fst (drainFiles masks nm fl))).
Proof.
  intros Hall. revert masks nm.
  induction Hall as [|file rest Hnd _ IH]; intros masks nm;
    cbn [drainFiles]; [constructor|].
  destruct (layerOpaque masks (pending file)); [by apply layerEmit_NoDup|].
  specialize (IH (list_to_set (nm ++ layerNames masks (pending file)) ∪ masks) []).
  pose proof (drainFiles_unmasked
    (list_to_set (nm ++ layerNames masks (pending file)) ∪ masks) [] rest) as Hun.
  destruct (drainFiles _ [] rest) as [out dir]. cbn [fst] in *.
  rewrite map_app. apply NoDup_app.
  split; [by apply layerEmit_NoDup|]. split; [|exact IH].
  intros x Hx Hx'. apply list_elem_of_In in Hx, Hx'.
  apply in_map_iff in Hx as (e & <- & He).
  apply in_map_iff in Hx' as (e' & Heq & He').
  rewrite Forall_forall in Hun. apply list_elem_of_In in He'.
  apply (Hun e' He'). rewrite Heq.
  apply layerEmit_names in He. apply list_elem_of_In in He.
  apply elem_of_union_l, elem_of_list_to_set, elem_of_app. by right.
Qed.



End ReadDir.

(** ** The mask set *)

Section Masks.

Implicit Types (s : scanState) (dir : dirReader) (file : ReadDirFile).

Lemma scanned_inv s s' file rest :
  scanned s s' ->
  files (cursor s) = file :: rest ->
  (exists consumed file',
     pending file = consumed ++ pending file' /\
     s' = advance consumed file' s) \/
  (exists file',
     scanned (nextLayer (advance (pending file) file' s)) s').
Proof.
  intros Hsc Hf.
  destruct Hsc as [s consumed file0 file' rest0 Hf0 Hp Hfail
                  | s file0 file' rest0 s' Hf0 Hnil Hfail Hsc
                  | s Hf0].
  - rewrite Hf in Hf0. inversion Hf0; subst file0 rest0.
    left. exists consumed, file'. auto.
  - rewrite Hf in Hf0. inversion Hf0; subst file0 rest0.
    right. exists file'. exact Hsc.
  - congruence.
Qed.



End Masks.

(** ** Whiteouts in the merged listing *)

Section Whiteouts.

Implicit Types (mk : gset string) (hi lo : list ReadDirFile)
  (file : ReadDirFile).

(** The layers [hi] followed by more layers: either an opaque marker in
    [hi] ends the listing there, or the listing goes on below [hi] with
    the mask set that [hi] leaves. *)
Lemma drainFiles_app mk (nm : list string) hi :
  (forall rest, drainFiles mk nm (hi ++ rest) = drainFiles mk nm hi) \/
  (forall rest,
     drainFiles mk nm (hi ++ rest)
     = (fst (drainFiles mk nm hi)
          ++ fst (drainFiles (masks (snd (drainFiles mk nm hi)))
                             (names (snd (drainFiles mk nm hi))) rest),
        snd (drainFiles (masks (snd (drainFiles mk nm hi)))
                        (names (snd (drainFiles mk nm hi))) rest))).
Proof.
  revert mk nm; induction hi as [|file hi IH]; intros mk nm.
  - right. intros rest. cbn [app drainFiles fst snd masks names].
    by destruct (drainFiles mk nm rest).
  - cbn [app drainFiles].
    destruct (layerOpaque mk (pending file)); [by left|].
    destruct (IH (list_to_set (nm ++ layerNames mk (pending file)) ∪ mk)
                 []) as [Hl | Hr].
    + left. intros rest. by rewrite Hl.
    + right. intros rest. rewrite Hr.
      destruct (drainFiles _ [] hi) as [out dir]. cbn [fst snd].
      by rewrite app_assoc.
Qed.

Lemma whiteout_name (x : string) :
  HasPrefix (whiteoutPrefix +:+ x) whiteoutPrefix = true /\
  string_drop (String.length whiteoutPrefix) (whiteoutPrefix +:+ x) = x.
Proof. split; [|reflexivity]. unfold HasPrefix. cbn. by destruct x. Qed.

Lemma layerOpaque_false mk (l : list DirEntry) (e : DirEntry) :
  layerOpaque mk l = false -> In e l -> deName e ∉ mk ->
  isOpaque e = false.
Proof.
  unfold layerOpaque. intros Ho Hin Hm.
  destruct (isOpaque e) eqn:Ee; [|reflexivity].
  assert (existsb (fun e => unmasked mk e && isOpaque e) l = true);
    [|congruence].
  apply existsb_exists. exists e. split; [exact Hin|].
  unfold unmasked. rewrite bool_decide_eq_false_2 by exact Hm. by rewrite Ee.
Qed.

(** An unmasked whiteout of [x] adds [x] to the names of its layer. *)
Lemma layerNames_whiteout mk (l : list DirEntry) (e : DirEntry) (x : string) :
  In e l -> deName e = whiteoutPrefix +:+ x -> deName e ∉ mk ->
  isOpaque e = false ->
  In x (layerNames mk l).
Proof.
  intros Hin Hn Hm Ho. unfold layerNames. apply in_flat_map.
  exists e. split; [exact Hin|].
  unfold unmasked. rewrite bool_decide_eq_false_2 by exact Hm. rewrite Ho.
  cbn [negb andb]. unfold isWhiteout. rewrite Hn.
  destruct (whiteout_name x) as [-> ->]. by left.
Qed.

(** No call ever hands out an entry whose name has the whiteout
    prefix. *)
Lemma scan_no_whiteout (n : Z) (dir : dirReader) (err : option error)
    (dir' : dirReader) (out : list DirEntry) :
  0 <= n ->
  scan accept n dir = Some (err, dir', out) ->
  Forall (fun e => HasPrefix (deName e) whiteoutPrefix = false) out.
Proof.
  intros Hn Hs.
  destruct (scan_drain n dir err dir' out Hn Hs) as (_ & _ & Hall & _).
  eapply Forall_impl; [exact Hall|]. by intros e [_ He].
Qed.

(** C2, as the code has it. In the merged listing of the layers
    [hi ++ Li :: lo], where [Li] has an entry [.wh.x] whose own name is
    not masked when [Li] is read (no layer of [hi] has masked [.wh.x],
    which takes an entry [.wh..wh.x] above): what the layers [lo] add to
    the listing of [hi ++ [Li]] has no entry named [x]. And no call of
    [scan] hands out an entry whose name has the whiteout prefix, so
    [.wh.x] itself is never handed out. *)
Theorem whiteout_hides_name_in_lower_layers :
  (forall hi (Li : ReadDirFile) lo (x : string) (nm : list string) mk
          (d_hi : dirReader) (out_hi : list DirEntry),
     (exists e, In e (pending Li) /\ deName e = whiteoutPrefix +:+ x) ->
     scan accept 0 {| files := hi; names := nm; masks := mk |}
       = Some (None, d_hi, out_hi) ->
     whiteoutPrefix +:+ x ∉ masks d_hi ->
     exists d1 out1 d2 out_lo,
       scan accept 0 {| files := hi ++ [Li]; names := nm; masks := mk |}
         = Some (None, d1, out1) /\
       scan accept 0 {| files := hi ++ Li :: lo; names := nm; masks := mk |}
         = Some (None, d2, out1 ++ out_lo) /\
       Forall (fun e => deName e <> x) out_lo) /\
  (forall (n : Z) (dir : dirReader) err dir' out,
     0 <= n ->
     scan accept n dir = Some (err, dir', out) ->
     Forall (fun e => HasPrefix (deName e) whiteoutPrefix = false) out).
Proof.
  split; [|exact scan_no_whiteout].
  intros hi Li lo x nm mk d_hi out_hi (e0 & Hin & Hname) Hhi Hnot.
  destruct (scan_unbounded {| files := hi; names := nm; masks := mk |})
    as [Hs _].
  rewrite Hs in Hhi. inversion Hhi as [[Hd Ho]]. clear Hhi Hs.
  assert (Hkey : exists out_lo,
    fst (drain {| files := hi ++ Li :: lo; names := nm; masks := mk |})
    = fst (drain {| files := hi ++ [Li]; names := nm; masks := mk |}) ++ out_lo
    /\ Forall (fun e => deName e <> x) out_lo).
  { unfold drain in *. cbn [files names masks] in *.
    destruct (drainFiles_app mk nm hi) as [Hl | Hr].
    - exists []. rewrite !Hl, app_nil_r. split; [reflexivity | constructor].
    - rewrite !Hr. rewrite Hd. cbn [drainFiles fst snd].
      destruct (layerOpaque (masks d_hi) (pending Li)) eqn:Eo.
      + exists []. cbn [fst]. rewrite !app_nil_r.
        split; [reflexivity | constructor].
      + pose proof (drainFiles_unmasked
          (list_to_set (names d_hi ++ layerNames (masks d_hi) (pending Li))
             ∪ masks d_hi) [] lo) as Hun.
        destruct (drainFiles _ [] lo) as [out' d']. cbn [fst] in *.
        exists out'. rewrite !app_nil_r, !app_assoc. split; [reflexivity|].
        eapply Forall_impl; [exact Hun|]. intros e He Heq. apply He.
        rewrite Heq. apply elem_of_union_l, elem_of_list_to_set, elem_of_app.
        right. apply list_elem_of_In.
        rewrite <- Hname in Hnot.
        apply (layerNames_whiteout _ _ e0 x Hin Hname Hnot).
        by apply (layerOpaque_false _ _ _ Eo Hin). }
  destruct Hkey as (out_lo & Hkey & Hall).
  destruct (scan_unbounded {| files := hi ++ [Li]; names := nm; masks := mk |})
    as [Hs1 _].
  destruct (scan_unbounded {| files := hi ++ Li :: lo; names := nm; masks := mk |})
    as [Hs2 _].
  rewrite Hkey in Hs2. eauto 10.
Qed.

(** The whiteout of [x] in the second layer hides the [x] of the third
    layer, and not the [x] of the first. *)
Lemma whiteout_hides_name_in_lower_layers_witness :
  exists d1 out1 d2 out_lo,
    scan accept 0 (Fixtures.cursorOf [["x"]; [".wh.x"; "y"]])
      = Some (None, d1, out1) /\
    scan accept 0 (Fixtures.cursorOf [["x"]; [".wh.x"; "y"]; ["x"; "z"]])
      = Some (None, d2, out1 ++ out_lo) /\
    Forall (fun e => deName e <> "x") out_lo /\
    map deName out1 = ["x"; "y"].
Proof.
  destruct (scan_unbounded (Fixtures.cursorOf [["x"]])) as [Hhi _].
  destruct (proj1 whiteout_hides_name_in_lower_layers
              [Fixtures.listing ["x"]] (Fixtures.listing [".wh.x"; "y"])
              [Fixtures.listing ["x"; "z"]] "x" [] ∅ _ _
              ltac:(exists (Fixtures.entry ".wh.x"); split;
                    [left; reflexivity | reflexivity])
              Hhi)
    as (d1 & out1 & d2 & out_lo & H1 & H2 & Hall).
  - assert (Hb : bool_decide
                   (whiteoutPrefix +:+ "x"
                      ∈ masks (snd (drain (Fixtures.cursorOf [["x"]]))))
                 = false) by (vm_compute; reflexivity).
    by apply bool_decide_eq_false_1 in Hb.
  - exists d1, out1, d2, out_lo. split; [exact H1|]. split; [exact H2|].
    split; [exact Hall|].
    assert (Hc : option_map (fun r => map deName (snd r))
                   (scan accept 0 (Fixtures.cursorOf [["x"]; [".wh.x"; "y"]]))
                 = Some ["x"; "y"]) by (vm_compute; reflexivity).
    change (Fixtures.cursorOf [["x"]; [".wh.x"; "y"]])
      with {| files := [Fixtures.listing ["x"]] ++ [Fixtures.listing [".wh.x"; "y"]];
              names := []; masks := ∅ |} in Hc.
    rewrite H1 in Hc. by inversion Hc.
Defined.

(** C2, as the specification has it, fails: the top layer has
    [.wh..wh.x], which masks the name [.wh.x]; the entry [.wh.x] of the
    second layer is then skipped as a masked name, and the [x] of the
    third layer is handed out. *)
Lemma whiteout_counterexample :
  option_map (fun r => (fst (fst r), map deName (snd r)))
    (scan accept 0 (Fixtures.cursorOf [[".wh..wh.x"]; [".wh.x"]]))
  = Some (None, []) /\
  option_map (fun r => (fst (fst r), map deName (snd r)))
    (scan accept 0 (Fixtures.cursorOf [[".wh..wh.x"]; [".wh.x"]; ["x"]]))
  = Some (None, ["x"]) /\
  option_map (fun r => map deName (fst (fst r)))
    (ReadDir (Fixtures.dirHandle [[".wh..wh.x"]; [".wh.x"]; ["x"]]) (-1))
  = Some ["x"].
Proof. repeat split; vm_compute; reflexivity. Qed.

(** *** The opaque marker *)

(** The layer without its opaque markers. *)
Lemma layerEmit_unmarked mk (l : list DirEntry) :
  layerEmit mk (List.filter (fun e => negb (isOpaque e)) l) = layerEmit mk l /\
  layerNames mk (List.filter (fun e => negb (isOpaque e)) l) = layerNames mk l.
Proof.
  unfold layerEmit, layerNames. induction l as [|e l [IHe IHn]];
    [split; reflexivity|].
  cbn [List.filter flat_map].
  destruct (isOpaque e) eqn:Eo; cbn [negb].
  - rewrite IHe, IHn, andb_false_r. cbn [andb app]. auto.
  - cbn [List.filter flat_map]. rewrite Eo, IHe, IHn. auto.
Qed.

Lemma layerOpaque_true mk (l : list DirEntry) (e : DirEntry) :
  In e l -> deName e = whiteoutOpaque -> deName e ∉ mk ->
  layerOpaque mk l = true.
Proof.
  intros Hin Hn Hm. unfold layerOpaque. apply existsb_exists.
  exists e. split; [exact Hin|]. unfold unmasked, isOpaque.
  rewrite bool_decide_eq_false_2 by exact Hm. rewrite Hn. reflexivity.
Qed.

(** C3, as the code has it. When a read of the current layer brings an
    entry named [.wh..wh..opq] whose name is not masked, the list of the
    layers is cut down to the current layer. In the merged listing of
    [hi ++ Li :: lo], where [Li] has the marker and its name is not
    masked when [Li] is read: the listing and the cursor after it are
    those of [hi ++ [Li]], so that [lo] adds nothing, and those of [hi]
    and [Li] without the marker, so that the marker takes nothing away
    from [Li] nor from the layers above. No call hands out the marker. *)
Theorem opaque_marker_cuts_lower_layers :
  (forall (s : scanState) file (rest : list ReadDirFile)
          (entries : list DirEntry),
     files (cursor s) = file :: rest ->
     (exists e, In e entries /\ deName e = whiteoutOpaque) ->
     whiteoutOpaque ∉ masks (cursor s) ->
     exists s',
       scanEntries accept entries s = Continue s' /\
       files (cursor s') = [file]) /\
  (forall hi (Li : ReadDirFile) lo (nm : list string) mk
          (d_hi : dirReader) (out_hi : list DirEntry),
     (exists e, In e (pending Li) /\ deName e = whiteoutOpaque) ->
     scan accept 0 {| files := hi; names := nm; masks := mk |}
       = Some (None, d_hi, out_hi) ->
     whiteoutOpaque ∉ masks d_hi ->
     exists d out,
       scan accept 0 {| files := hi ++ Li :: lo; names := nm; masks := mk |}
         = Some (None, d, out) /\
       scan accept 0 {| files := hi ++ [Li]; names := nm; masks := mk |}
         = Some (None, d, out) /\
       scan accept 0
         {| files :=
              hi ++ [{| pending :=
                          List.filter (fun e => negb (isOpaque e)) (pending Li);
                        failure := failure Li |}];
            names := nm; masks := mk |}
         = Some (None, d, out)) /\
  (forall (n : Z) (dir : dirReader) err dir' out,
     0 <= n ->
     scan accept n dir = Some (err, dir', out) ->
     Forall (fun e => deName e <> whiteoutOpaque) out).
Proof.
  split; [|split].
  - intros s file rest entries Hf (e & Hin & Hn) Hm.
    rewrite (scanEntries_advance entries file rest s Hf).
    eexists. split; [reflexivity|]. cbn [advance cursor files].
    rewrite <- Hn in Hm. by rewrite (layerOpaque_true _ _ e Hin Hn Hm).
  - intros hi Li lo nm mk d_hi out_hi (e & Hin & Hn) Hhi Hm.
    destruct (scan_unbounded {| files := hi; names := nm; masks := mk |})
      as [Hs _].
    rewrite Hs in Hhi. inversion Hhi as [[Hd Ho]]. clear Hhi Hs.
    rewrite <- Hn in Hm.
    set (Li' := {| pending :=
                     List.filter (fun e => negb (isOpaque e)) (pending Li);
                   failure := failure Li |}).
    assert (Hkey :
      drain {| files := hi ++ [Li]; names := nm; masks := mk |}
      = drain {| files := hi ++ Li :: lo; names := nm; masks := mk |} /\
      drain {| files := hi ++ [Li']; names := nm; masks := mk |}
      = drain {| files := hi ++ Li :: lo; names := nm; masks := mk |}).
    { unfold drain in *. cbn [files names masks] in *.
      destruct (drainFiles_app mk nm hi) as [Hl | Hr].
      - rewrite !Hl. auto.
      - rewrite !Hr. rewrite Hd. cbn [drainFiles fst snd Li' pending].
        destruct (layerEmit_unmarked (masks d_hi) (pending Li)) as [-> ->].
        rewrite (layerOpaque_true _ _ e Hin Hn Hm). cbn [fst snd].
        destruct (layerOpaque (masks d_hi) _); cbn [fst snd];
          rewrite ?app_nil_r; auto. }
    destruct Hkey as [Hk1 Hk2].
    destruct (scan_unbounded
                {| files := hi ++ Li :: lo; names := nm; masks := mk |})
      as [Hs0 _].
    destruct (scan_unbounded
                {| files := hi ++ [Li]; names := nm; masks := mk |})
      as [Hs1 _].
    destruct (scan_unbounded
                {| files := hi ++ [Li']; names := nm; masks := mk |})
      as [Hs2 _].
    rewrite Hk1 in Hs1. rewrite Hk2 in Hs2. eauto.
  - intros n dir err dir' out Hn Hs.
    eapply Forall_impl; [exact (scan_no_whiteout n dir err dir' out Hn Hs)|].
    intros e He Heq. cbv beta in He. rewrite Heq in He. discriminate.
Qed.

(** The marker in the second layer: the third layer adds nothing, and
    [a] and [b] are listed. *)
Lemma opaque_marker_cuts_lower_layers_witness :
  exists d out,
    scan accept 0
      (Fixtures.cursorOf [["a"]; [".wh..wh..opq"; "b"]; ["c"]])
      = Some (None, d, out) /\
    scan accept 0 (Fixtures.cursorOf [["a"]; [".wh..wh..opq"; "b"]])
      = Some (None, d, out) /\
    map deName out = ["a"; "b"].
Proof.
  destruct (scan_unbounded (Fixtures.cursorOf [["a"]])) as [Hhi _].
  destruct (proj1 (proj2 opaque_marker_cuts_lower_layers)
              [Fixtures.listing ["a"]]
              (Fixtures.listing [".wh..wh..opq"; "b"])
              [Fixtures.listing ["c"]] [] ∅ _ _
              ltac:(exists (Fixtures.entry ".wh..wh..opq"); split;
                    [left; reflexivity | reflexivity])
              Hhi)
    as (d & out & H0 & H1 & _).
  - assert (Hb : bool_decide
                   (whiteoutOpaque
                      ∈ masks (snd (drain (Fixtures.cursorOf [["a"]]))))
                 = false) by (vm_compute; reflexivity).
    by apply bool_decide_eq_false_1 in Hb.
  - exists d, out. split; [exact H0|]. split; [exact H1|].
    assert (Hc : option_map (fun r => map deName (snd r))
                   (scan accept 0
                      (Fixtures.cursorOf [["a"]; [".wh..wh..opq"; "b"]]))
                 = Some ["a"; "b"]) by (vm_compute; reflexivity).
    change (Fixtures.cursorOf [["a"]; [".wh..wh..opq"; "b"]])
      with {| files := [Fixtures.listing ["a"]]
                         ++ [Fixtures.listing [".wh..wh..opq"; "b"]];
              names := []; masks := ∅ |} in Hc.
    rewrite H1 in Hc. by inversion Hc.
Defined.

(** C3, as the specification has it, fails: the top layer has
    [.wh..wh..wh..opq], which masks the name of the marker; the marker
    of the second layer is then skipped as a masked name, the list of
    the layers is not cut, and the [y] of the third layer is handed
    out. *)
Lemma opaque_marker_counterexample :
  option_map (fun r => (fst (fst r), map deName (snd r)))
    (scan accept 0
       (Fixtures.cursorOf [[".wh..wh..wh..opq"]; [".wh..wh..opq"]]))
  = Some (None, []) /\
  option_map (fun r => (fst (fst r), map deName (snd r)))
    (scan accept 0
       (Fixtures.cursorOf [[".wh..wh..wh..opq"]; [".wh..wh..opq"]; ["y"]]))
  = Some (None, ["y"]) /\
  option_map (fun r => map deName (fst (fst r)))
    (ReadDir (Fixtures.dirHandle
                [[".wh..wh..wh..opq"]; [".wh..wh..opq"]; ["y"]]) (-1))
  = Some ["y"].
Proof. repeat split; vm_compute; reflexivity. Qed.

End Whiteouts.

(** ** Errors of the layers *)

Section LayerErrors.

Implicit Types (layer : FS) (kept vis pre post : list FS).

Lemma hasOneOf_Err layer (ws : list string) (e : error) :
  hasOneOf layer ws = Err e ->
  exists w, In w ws /\ fsStat layer w = Err e /\
            errors_Is e ErrNotExist = false.
Proof.
  induction ws as [|w ws IH]; cbn [hasOneOf]; [discriminate|].
  destruct (fsStat layer w) as [s|e'] eqn:Ew; [discriminate|].
  destruct (errors_Is e' ErrNotExist) eqn:Ee; cbn [negb].
  - intros H. destruct (IH H) as (w' & Hin & Hw). exists w'.
    split; [by right | exact Hw].
  - intros [= <-]. exists w. split; [by left | auto].
Qed.

Lemma scanLayers_Err (p w1 w2 : string) kept (rest : list FS) (e : error) :
  scanLayers p w1 w2 kept rest = Err e ->
  exists layer q, In layer rest /\ fsStat layer q = Err e /\
                  errors_Is e ErrNotExist = false.
Proof.
  revert kept; induction rest as [|layer rest IH]; intros kept;
    cbn [scanLayers]; [discriminate|].
  destruct (fsStat layer p) as [s|e'] eqn:El.
  - destruct (fiIsDir s); cbn [negb]; [|discriminate].
    destruct (hasOneOf layer [w1; w2]) as [[|]|e'] eqn:Eh; [discriminate| |].
    + intros H. destruct (IH _ H) as (l & q & Hin & Hq). exists l, q.
      split; [by right | exact Hq].
    + intros [= <-]. destruct (hasOneOf_Err _ _ _ Eh) as (w & _ & Hw).
      exists layer, w. split; [by left | exact Hw].
  - destruct (errors_Is e' ErrNotExist) eqn:Ee; cbn [negb].
    + intros H. destruct (IH _ H) as (l & q & Hin & Hq). exists l, q.
      split; [by right | exact Hq].
    + intros [= <-]. exists layer, p. split; [by left | auto].
Qed.

Lemma walkPath_Err (fuel : nat) (path : string) (walk : nat) vis (e : error) :
  walkPath fuel path walk vis = Some (Err e) ->
  exists layer q, In layer vis /\ fsStat layer q = Err e /\
                  errors_Is e ErrNotExist = false.
Proof.
  revert walk vis; induction fuel as [|fuel IH]; intros walk vis;
    rewrite walkPath_unfold; destruct (negb _); try discriminate.
  cbv zeta.
  destruct (scanLayers _ _ _ [] vis) as [vis'|e'] eqn:Es.
  - intros H. destruct (IH _ _ H) as (l & q & Hin & Hq). exists l, q.
    split; [|exact Hq].
    destruct (scanLayers_sublist _ _ _ _ _ _ Es) as (r & -> & Hr).
    apply list_elem_of_In. apply list_elem_of_In in Hin.
    by eapply (sublist_subseteq _ _ Hr).
  - intros [= <-]. by apply scanLayers_Err in Es.
Qed.

(** A layer that lacks the prefix only leaves the candidates. *)
Lemma scanLayers_skip (p w1 w2 : string) kept pre layer post :
  absent p layer ->
  scanLayers p w1 w2 kept (pre ++ layer :: post)
  = scanLayers p w1 w2 kept (pre ++ post).
Proof.
  intros (e & He & His). revert kept.
  induction pre as [|l pre IH]; intros kept; cbn [app scanLayers].
  - by rewrite He, His.
  - destruct (fsStat l p) as [s|e'].
    + destruct (fiIsDir s); cbn [negb]; [|reflexivity].
      destruct (hasOneOf l [w1; w2]) as [[|]|]; auto.
    + destruct (negb _); auto.
Qed.

(** The scan of a prefix reaches every candidate below candidates that
    lack the prefix or have it as a directory without whiteout. *)
Lemma scanLayers_reaches (p w1 w2 : string) kept pre (rest : list FS) :
  Forall (fun l => absent p l \/
                   (isDirIn p l /\ hasOneOf l [w1; w2] = Ok false)) pre ->
  exists kept',
    scanLayers p w1 w2 kept (pre ++ rest) = scanLayers p w1 w2 kept' rest.
Proof.
  intros Hall. revert kept.
  induction Hall as [|l pre Hl _ IH]; intros kept; [by exists kept|].
  cbn [app scanLayers].
  destruct Hl as [(e & -> & ->) | ((s & -> & ->) & ->)]; cbn [negb]; apply IH.
Qed.

(** The first layer of the cursor fails after fewer than [n] entries:
    the call returns its error. *)
Lemma scan_fails (n : Z) (dir : dirReader) (file : ReadDirFile)
    (rest : list ReadDirFile) (e : error) :
  0 < n ->
  files dir = file :: rest ->
  failure file = Some e -> e <> EOF ->
  Z.of_nat (length (pending file)) < n ->
  exists dir' file' rest',
    scan accept n dir
      = Some (Some e, dir', layerEmit (masks dir) (pending file)) /\
    files dir' = file' :: rest' /\
    pending file' = [] /\ failure file' = Some e /\
    masks dir' = masks dir.
Proof.
  intros Hn Hf Hfail He Hlen. unfold scan. rewrite Hf.
  cbn [length scanLoop cursor]. rewrite Hf.
  destruct (readLayer_spec
              (layerFuel dir) n {| cursor := dir; dirents := 0; emitted := [] |}
              file rest)
    as (consumed & file' & fl & Hr & Hp & Hfail' & Hfl);
    cbn [cursor dirents]; try lia; try assumption.
  { unfold layerFuel. rewrite Hf. lia. }
  rewrite Hr.
  pose proof (layerEmit_length (masks dir) consumed) as Hemit.
  assert (Hc : (length consumed <= length (pending file))%nat).
  { rewrite Hp, length_app. lia. }
  destruct fl as [s'|err s'].
  - destruct Hfl as (_ & _ & _ & [Hz | [Hx | Hx]]); [lia | congruence | congruence].
  - destruct Hfl as (-> & _ & [(_ & Hd) | (e' & -> & _ & Hfe & Hnil & _)]).
    + cbn [advance dirents cursor masks] in Hd. lia.
    + assert (e' = e) by congruence. subst e'.
      rewrite Hnil, app_nil_r in Hp. subst consumed.
      cbn [advance cursor emitted app files masks].
      eexists _, file', _. split; [reflexivity|].
      split; [reflexivity|]. split; [exact Hnil|].
      split; [congruence | reflexivity].
Qed.




End LayerErrors.

(** ** The scenario of the test of the package *)

(** The merged directories of [TestLayerFS] list what the test expects:
    [a/x] only has [three], since the opaque marker of the third layer
    hides [one] and [two]; [a/b/c] has the two files and not [d], which
    the whiteout of the fifth layer hides. *)
Example test_scenario :
  Fixtures.listDir (LayerFS Fixtures.testLayers) "a" = Some ["b"; "x"] /\
  Fixtures.listDir (LayerFS Fixtures.testLayers) "a/x" = Some ["three"] /\
  Fixtures.listDir (LayerFS Fixtures.testLayers) "a/b" = Some ["c"] /\
  Fixtures.listDir (LayerFS Fixtures.testLayers) "a/b/c"
    = Some ["file-1"; "file-0"].
Proof. repeat split; vm_compute; reflexivity. Qed.

(** * Further properties *)

(** ** More on the resolution of a path *)

Section LookupMore.

Implicit Types (layer : FS) (kept vis hi lo : list FS).

(** An invariant of the walk holds at its end: the walk of a valid path
    stops at every boundary of the path while candidates are left. *)
Lemma lookup_invariant (I : nat -> list FS -> Prop) (stack : layerFS)
    (op name : string) vis :
  name <> "." ->
  lookup stack op name = Some (Ok vis) ->
  I O stack ->
  (forall walk vis0 vis1,
     (walk < String.length name)%nat ->
     I walk vis0 ->
     scanLayers (string_take (nextStop name walk) name)
       (fst (whiteout (string_take (nextStop name walk) name)))
       (snd (whiteout (string_take (nextStop name walk) name))) [] vis0
     = Ok vis1 ->
     I (S (nextStop name walk)) vis1) ->
  I (S (String.length name)) vis.
Proof.
  intros Hdot Hl H0 Hstep.
  apply lookup_Ok_inv in Hl as [Hvalid [[-> _] | (_ & Hne & Hw)]];
    [contradiction|].
  (* the walk, with the position it is at *)
  assert (Hgen : forall fuel walk vis0,
    walkPath fuel name walk vis0 = Some (Ok vis) ->
    (walk = O \/ exists w, walk = S w /\ boundary name w) ->
    I walk vis0 ->
    exists walk', I walk' vis /\
      (walk' = O \/ exists w, walk' = S w /\ boundary name w) /\
      (String.length name <= walk')%nat).
  { induction fuel as [|fuel IH]; intros walk vis0 Hwalk Hpos HI;
      rewrite walkPath_unfold in Hwalk.
    all: destruct (Nat.ltb_spec walk (String.length name)) as [Hlt|Hge];
      cbn [andb negb] in Hwalk.
    all: try destruct (Nat.ltb_spec 0 (length vis0)) as [Hpos0|Hnil];
      cbn [andb negb] in Hwalk.
    all: try discriminate.
    all: try (inversion Hwalk; subst vis0).
    all: try solve [destruct vis; [contradiction | simpl in Hnil; lia]].
    all: try solve [exists walk; split; [assumption|]; split; [assumption | lia]].
    cbv zeta in Hwalk.
    destruct (scanLayers _ _ _ [] vis0) as [vis1|e] eqn:Es; [|discriminate].
    destruct (nextStop_spec name walk ltac:(lia)) as (_ & _ & Hb).
    apply (IH _ _ Hwalk); [right; eauto | by eapply Hstep]. }
  destruct (Hgen _ _ _ Hw (or_introl eq_refl) H0) as (walk' & HI & Hpos & Hlen).
  assert (walk' = S (String.length name)) as ->; [|exact HI].
  destruct Hpos as [-> | (w & -> & Hb)].
  - destruct (ValidPath_boundary name O Hvalid Hdot) as (j & Hj & _);
      [left; lia | discriminate].
  - pose proof (boundary_le _ _ Hb).
    destruct (Nat.eq_dec w (String.length name)) as [->|Hneq]; [reflexivity|].
    exfalso. assert (S w = String.length name) as Hw' by lia.
    destruct (ValidPath_boundary name (S w) Hvalid Hdot) as (j & Hj & Hnot);
      [by left|].
    inversion Hj; subst j. destruct Hb as [Hb|Hb]; [lia | contradiction].
Qed.

(** The boundaries that a step of the walk adds. *)
Lemma nextStop_boundary (name : string) (walk j : nat) :
  (walk <= String.length name)%nat ->
  boundary name j -> (j < S (nextStop name walk))%nat ->
  (j < walk)%nat \/ j = nextStop name walk.
Proof.
  intros Hw Hb Hj. destruct (nextStop_spec name walk Hw) as (Hle & Hfree & Hb').
  destruct (Nat.lt_ge_cases j walk) as [|Hge]; [by left|]. right.
  destruct (Nat.eq_dec j (nextStop name walk)) as [|Hne]; [assumption|].
  exfalso. destruct Hb as [->|Hb].
  - pose proof (boundary_le _ _ Hb'). lia.
  - apply (Hfree j); [lia | exact Hb].
Qed.

(** After a prefix, the candidates that are left all have it as a
    directory, or a single candidate is left that has it as something
    else. *)
Lemma scanLayers_survivors (p w1 w2 : string) kept (rest : list FS) vis :
  Forall (isDirIn p) kept ->
  scanLayers p w1 w2 kept rest = Ok vis ->
  Forall (isDirIn p) vis \/ (exists l, vis = [l] /\ nonDirIn p l).
Proof.
  revert kept; induction rest as [|layer rest IH]; intros kept Hk Hs;
    cbn [scanLayers] in Hs.
  - inversion Hs; subst. by left.
  - destruct (fsStat layer p) as [s|e] eqn:El.
    + destruct (fiIsDir s) eqn:Ed; cbn [negb] in Hs.
      * assert (Hk' : Forall (isDirIn p) (kept ++ [layer])).
        { apply Forall_app. split; [exact Hk|]. constructor; [|constructor].
          by exists s. }
        destruct (hasOneOf layer [w1; w2]) as [[|]|e]; [| |discriminate].
        -- inversion Hs; subst. by left.
        -- by apply (IH _ Hk').
      * destruct kept as [|x kept]; inversion Hs; subst.
        -- right. exists layer. split; [reflexivity | by exists s].
        -- by left.
    + destruct (negb _); [discriminate|]. by apply (IH _ Hk).
Qed.

(** A candidate that has the directory and one of its whiteout markers
    ends the scan of the prefix: no candidate below it is left. *)
Lemma scanLayers_whitedOut (p : string) kept a H b vis :
  whitedOut p H ->
  scanLayers p (fst (whiteout p)) (snd (whiteout p)) kept (a ++ H :: b)
  = Ok vis ->
  exists r, vis = kept ++ r /\ r `sublist_of` a ++ [H].
Proof.
  intros ((s & Hs & Hd) & Hw). revert kept.
  induction a as [|l a IH]; intros kept Hscan; cbn [app scanLayers] in Hscan.
  - rewrite Hs, Hd in Hscan. cbn [negb] in Hscan. rewrite Hw in Hscan.
    inversion Hscan; subst. by exists [H].
  - destruct (fsStat l p) as [s'|e] eqn:El.
    + destruct (fiIsDir s'); cbn [negb] in Hscan.
      * destruct (hasOneOf l _) as [[|]|e]; [| |discriminate].
        -- inversion Hscan; subst. exists [l]. split; [reflexivity|].
           apply sublist_skip, sublist_nil_l.
        -- destruct (IH _ Hscan) as (r & -> & Hr). exists (l :: r).
           rewrite <- app_assoc. split; [reflexivity | by apply sublist_skip].
      * destruct kept as [|x kept]; inversion Hscan; subst.
        -- exists [l]. split; [reflexivity|].
           apply sublist_skip, sublist_nil_l.
        -- exists []. rewrite app_nil_r. split; [reflexivity|].
           apply sublist_nil_l.
    + destruct (negb _); [discriminate|].
      destruct (IH _ Hscan) as (r & -> & Hr). exists r.
      split; [reflexivity | by apply sublist_cons].
Qed.

Lemma Forall_sublist {A} (P : A -> Prop) (l k : list A) :
  l `sublist_of` k -> Forall P k -> Forall P l.
Proof.
  intros Hs Hk. apply Forall_forall. intros x Hx.
  rewrite Forall_forall in Hk. apply Hk.
  by apply (sublist_subseteq _ _ Hs).
Qed.

(** X1. The layers that [lookup] finds are layers of the stack, in the
    stack's order of priority and none more often than the stack has
    it: a part of the stack. For [.] they are the whole stack; for any
    other path there is at least one. *)
Theorem lookup_keeps_priority_order (stack : layerFS) (op name : string)
    (vis : list FS) :
  lookup stack op name = Some (Ok vis) ->
  vis `sublist_of` stack /\
  (name = "." -> vis = stack) /\
  (name <> "." -> vis <> []).
Proof.
  intros Hl.
  destruct (String.eqb_spec name ".") as [->|Hdot].
  - apply lookup_Ok_inv in Hl as [_ [[_ ->] | (Hx & _)]]; [|contradiction].
    split; [reflexivity|]. split; [reflexivity | contradiction].
  - split; [|split; [contradiction|]].
    + apply (lookup_invariant (fun _ v => v `sublist_of` stack)
               stack op name vis Hdot Hl); [reflexivity|].
      intros walk vis0 vis1 _ Hv Hs.
      destruct (scanLayers_sublist _ _ _ _ _ _ Hs) as (r & -> & Hr).
      by etrans.
    + intros _. by apply lookup_Ok_inv in Hl as [_ [[? _] | (_ & ? & _)]].
Qed.

(** Of three layers the first and the third have the directory [d]. *)
Lemma lookup_keeps_priority_order_witness :
  let top := Fixtures.mapFS [("d", Fixtures.dirInfo "d")] in
  let mid := Fixtures.mapFS [("e", Fixtures.dirInfo "e")] in
  let low := Fixtures.mapFS [("d", Fixtures.dirInfo "d");
                             ("d/f", Fixtures.fileInfo "f" 292)] in
  lookup [top; mid; low] "open" "d" = Some (Ok [top; low]) /\
  [top; low] `sublist_of` [top; mid; low].
Proof.
  intros top mid low.
  assert (Hl : lookup [top; mid; low] "open" "d" = Some (Ok [top; low]))
    by reflexivity.
  split; [exact Hl|].
  apply (lookup_keeps_priority_order [top; mid; low] "open" "d" [top; low] Hl).
Defined.

(** X2. The layers that [lookup] finds for a path other than [.] all
    have the path, and every prefix of it: [fs.Stat] succeeds on them.
    When two layers or more are found, the path and its prefixes are
    directories in each of them: only directories are merged. *)
Theorem lookup_layers_have_the_path (stack : layerFS) (op name : string)
    (vis : list FS) (j : nat) :
  name <> "." ->
  lookup stack op name = Some (Ok vis) ->
  boundary name j ->
  Forall (existsIn (string_take j name)) vis /\
  ((2 <= length vis)%nat -> Forall (isDirIn (string_take j name)) vis).
Proof.
  intros Hdot Hl Hb.
  apply (lookup_invariant
           (fun walk v =>
              forall j, boundary name j -> (j < walk)%nat ->
                Forall (existsIn (string_take j name)) v /\
                ((2 <= length v)%nat ->
                 Forall (isDirIn (string_take j name)) v))
           stack op name vis Hdot Hl).
  - intros j' _ Hj. lia.
  - intros walk vis0 vis1 Hlt HI Hs j' Hb' Hj'.
    destruct (scanLayers_sublist _ _ _ _ _ _ Hs) as (r & Heq & Hr).
    cbn [app] in Heq. subst r.
    destruct (nextStop_boundary name walk j' ltac:(lia) Hb' Hj') as [Hold | ->].
    + destruct (HI j' Hb' Hold) as [He Hd]. split.
      * by eapply Forall_sublist.
      * intros Hlen. eapply Forall_sublist; [exact Hr|]. apply Hd.
        apply sublist_length in Hr. lia.
    + destruct (scanLayers_survivors _ _ _ [] _ _ ltac:(constructor) Hs)
        as [Hd | (l & -> & (s & Hs' & _))].
      * split; [|by intros _].
        eapply Forall_impl; [exact Hd|]. intros l (s & Hs' & _). by exists s.
      * split; [constructor; [by exists s | constructor]|].
        cbn [length]. lia.
  - exact Hb.
  - pose proof (boundary_le _ _ Hb). lia.
Qed.

(** Two layers have the directory [d]: both are found, and [d] is a
    directory in both. *)
Lemma lookup_layers_have_the_path_witness :
  let top := Fixtures.mapFS [("d", Fixtures.dirInfo "d")] in
  let low := Fixtures.mapFS [("d", Fixtures.dirInfo "d");
                             ("d/f", Fixtures.fileInfo "f" 292)] in
  lookup [top; low] "open" "d" = Some (Ok [top; low]) /\
  Forall (isDirIn "d") [top; low].
Proof.
  intros top low. split; [reflexivity|].
  apply (lookup_layers_have_the_path [top; low] "open" "d" [top; low] 1%nat);
    [discriminate | reflexivity | by left | cbn; lia].
Defined.

(** X3. Whiteouts in the resolution of a path. When a layer [H] of the
    stack has the prefix [name[:k]] as a directory together with one of
    its two whiteout markers (the whiteout of the last element of the
    prefix, or the opaque marker, beside it), and has the parents of the
    prefix as directories, then no layer below [H] is found for [name]:
    the layers found are [H] and layers above it. *)
Theorem lookup_whiteout_hides_lower_layers (hi : list FS) (H : FS)
    (lo : list FS) (op name : string) (k : nat) (vis : list FS) :
  name <> "." ->
  boundary name k ->
  whitedOut (string_take k name) H ->
  (forall j, (j < k)%nat -> boundary name j ->
             isDirIn (string_take j name) H) ->
  lookup (hi ++ H :: lo) op name = Some (Ok vis) ->
  vis `sublist_of` hi ++ [H].
Proof.
  intros Hdot Hk Hw Hdirs Hl.
  pose (cand := fun v : list FS =>
          v `sublist_of` hi ++ [H] \/
          exists a b, v = a ++ H :: b /\ a `sublist_of` hi /\ b `sublist_of` lo).
  assert (HI : ((S (String.length name) <= k)%nat -> cand vis) /\
               ((k < S (String.length name))%nat -> vis `sublist_of` hi ++ [H])).
  { apply (lookup_invariant
             (fun walk v =>
                ((walk <= k)%nat -> cand v) /\
                ((k < walk)%nat -> v `sublist_of` hi ++ [H]))
             (hi ++ H :: lo) op name vis Hdot Hl).
    - split; [|lia]. intros _. right. by exists hi, lo.
    - intros walk vis0 vis1 Hlt [Hbefore Hafter] Hs.
      destruct (nextStop_spec name walk ltac:(lia)) as (Hle & Hfree & Hb).
      assert (Hsub : vis1 `sublist_of` vis0).
      { by destruct (scanLayers_sublist _ _ _ _ _ _ Hs) as (r & -> & Hr). }
      destruct (Nat.le_gt_cases walk k) as [Hwk|Hwk].
      + assert (Hstop : (nextStop name walk <= k)%nat).
        { destruct (Nat.lt_ge_cases k (nextStop name walk)) as [Hkw|]; [|lia].
          exfalso. destruct Hk as [Hk'|Hk'].
          - pose proof (boundary_le _ _ Hb). lia.
          - by apply (Hfree k). }
        destruct (Hbefore Hwk) as [Hv | (a & b & -> & Ha & Hb')].
        * assert (vis1 `sublist_of` hi ++ [H]) by (by etrans).
          split; intros _; [by left | assumption].
        * destruct (Nat.eq_dec (nextStop name walk) k) as [Heq|Hneq].
          -- rewrite Heq in Hs.
             destruct (scanLayers_whitedOut _ _ _ _ _ _ Hw Hs)
               as (r & -> & Hr). cbn [app].
             assert (r `sublist_of` hi ++ [H]).
             { etrans; [exact Hr|]. by apply sublist_app. }
             split; intros _; [by left | assumption].
          -- destruct (scanLayers_dir _ _ _ _ _ _ _ _
                         (Hdirs (nextStop name walk) ltac:(lia) Hb) Hs)
               as (r & -> & [Hr | (a' & b' & -> & Ha' & Hb'')]); cbn [app].
             ++ assert (r `sublist_of` hi ++ [H]).
                { etrans; [exact Hr|]. etrans; [exact Ha|].
                  by apply sublist_inserts_r. }
                split; intros _; [by left | assumption].
             ++ split; [|lia]. intros _. right. exists a', b'.
                split; [reflexivity|]. split; by etrans.
      + split; [lia|]. intros _. etrans; [exact Hsub | by apply Hafter]. }
  destruct HI as [_ HI]. apply HI. pose proof (boundary_le _ _ Hk). lia.
Qed.

(** The top layer replaces the directory [d/e]: it has [d/e] and the
    whiteout [d/.wh.e]; the [d/e] of the layer below is not found. *)
Lemma lookup_whiteout_hides_lower_layers_witness :
  let top := Fixtures.mapFS [("d", Fixtures.dirInfo "d");
                             ("d/e", Fixtures.dirInfo "e");
                             ("d/.wh.e", Fixtures.fileInfo ".wh.e" 292)] in
  let low := Fixtures.mapFS [("d", Fixtures.dirInfo "d");
                             ("d/e", Fixtures.dirInfo "e")] in
  lookup ([] ++ top :: [low]) "open" "d/e" = Some (Ok [top]) /\
  [top] `sublist_of` [] ++ [top].
Proof.
  intros top low. split; [reflexivity|].
  apply (lookup_whiteout_hides_lower_layers [] top [low] "open" "d/e" 3%nat
           [top]).
  - discriminate.
  - by left.
  - split; [exists (Fixtures.dirInfo "e"); split; reflexivity | reflexivity].
  - intros j Hj [Hb|Hb].
    + simpl in Hb. lia.
    + destruct j as [|[|[|j]]]; try discriminate; try lia.
      exists (Fixtures.dirInfo "d"). split; reflexivity.
  - reflexivity.
Defined.

(** X4. A layer that lacks the first element of the path has no part in
    the resolution of the path, whatever else it holds: the lookup is
    the lookup in the stack without it. So the whiteout of that element
    in such a layer, which is how a layer deletes an entry of the root
    that it does not replace, hides nothing from [lookup]. *)
Theorem lookup_ignores_layer_without_first_element (hi : list FS) (W : FS)
    (lo : list FS) (op name : string) :
  name <> "." ->
  absent (string_take (nextStop name 0) name) W ->
  lookup (hi ++ W :: lo) op name = lookup (hi ++ lo) op name.
Proof.
  intros Hdot Habs. unfold lookup, lookup_fuel.
  destruct (negb (ValidPath name)) eqn:Hv; [reflexivity|].
  destruct (String.eqb_spec name "."); [contradiction|].
  destruct (String.length name) as [|fuel] eqn:Hlen.
  - destruct name; [discriminate | cbn in Hlen; lia].
  - assert (Hc : forall v : list FS, v <> [] ->
              negb ((0 <? S fuel)%nat && (0 <? length v)%nat) = false).
    { intros [|x v] Hx; [contradiction | reflexivity]. }
    assert (Hend : forall w, walkPath fuel name w [] = Some (Ok [])).
    { intros w. rewrite walkPath_unfold. cbn [length Nat.ltb Nat.leb].
      by rewrite andb_false_r. }
    rewrite (walkPath_unfold (S fuel) name 0 (hi ++ W :: lo)), Hlen.
    rewrite Hc by (by destruct hi). cbv zeta.
    rewrite (scanLayers_skip _ _ _ [] hi W lo Habs).
    destruct (hi ++ lo) as [|x xs] eqn:Hcat.
    + cbn [scanLayers]. rewrite Hend.
      rewrite walkPath_unfold. cbn [length Nat.ltb Nat.leb].
      by rewrite andb_false_r.
    + rewrite (walkPath_unfold (S fuel) name 0 (x :: xs)), Hlen.
      rewrite Hc by discriminate. reflexivity.
Qed.

(** The top layer deletes [a] with the whiteout [.wh.a] and has no [a]
    of its own: the [a] of the layer below is found all the same. *)
Lemma lookup_ignores_layer_without_first_element_witness :
  let top := Fixtures.mapFS [(".wh.a", Fixtures.fileInfo ".wh.a" 292)] in
  let low := Fixtures.mapFS [("a", Fixtures.dirInfo "a")] in
  absent "a" top /\
  lookup ([] ++ top :: [low]) "open" "a" = Some (Ok [low]).
Proof.
  intros top low.
  assert (Ha : absent (string_take (nextStop "a" 0) "a") top).
  { exists (PathError "stat" "a" ErrNotExist). split; reflexivity. }
  split; [exact Ha|].
  rewrite (lookup_ignores_layer_without_first_element [] top [low] "open" "a"
             ltac:(discriminate) Ha).
  reflexivity.
Defined.

End LookupMore.

(** ** The order of the layers *)

Section Reverse.

Lemma reverseLoop_done (fuel : nat) (i j : Z) (layers : list FS) :
  j <= i -> reverseLoop fuel i j layers = Some layers.
Proof.
  intros Hij. assert (Hc : (i <? j) = false) by (apply Z.ltb_ge; exact Hij).
  destruct fuel; cbn [reverseLoop]; rewrite Hc; reflexivity.
Qed.

Lemma rev_reverse {A} (l : list A) : rev l = reverse l.
Proof. apply rev_alt. Qed.

Lemma insert_middle {A} (l1 l2 : list A) (x y : A) :
  <[length l1 := y]> (l1 ++ x :: l2) = l1 ++ y :: l2.
Proof.
  rewrite insert_app_r_alt by lia. by rewrite Nat.sub_diag.
Qed.

Lemma reverseLoop_spec (fuel : nat) (pre mid post : list FS) :
  (length mid <= 2 * fuel + 1)%nat ->
  reverseLoop fuel (Z.of_nat (length pre))
    (Z.of_nat (length pre) + Z.of_nat (length mid) - 1) (pre ++ mid ++ post)
  = Some (pre ++ rev mid ++ post).
Proof.
  revert pre mid post. induction fuel as [|fuel IH]; intros pre mid post Hfuel.
  - destruct mid as [|a [|b mid]]; [| |cbn in Hfuel; lia];
      (rewrite reverseLoop_done by (cbn [length]; lia)); reflexivity.
  - destruct mid as [|a mid]; [|destruct (rev mid) as [|b dim] eqn:Hrev].
    + rewrite reverseLoop_done by (cbn [length]; lia). reflexivity.
    + assert (mid = []) as ->.
      { apply (f_equal (@rev FS)) in Hrev. by rewrite rev_involutive in Hrev. }
      rewrite reverseLoop_done by (cbn [length]; lia). reflexivity.
    + assert (Hmid : mid = rev dim ++ [b]).
      { apply (f_equal (@rev FS)) in Hrev. rewrite rev_involutive in Hrev.
        rewrite Hrev. reflexivity. }
      subst mid. clear Hrev.
      assert (Hlen : length (a :: rev dim ++ [b]) = S (S (length dim))).
      { cbn [length]. rewrite length_app, length_rev. cbn [length]. lia. }
      rewrite Hlen in *.
      cbn [reverseLoop].
      destruct (Z.ltb_spec (Z.of_nat (length pre))
                  (Z.of_nat (length pre) + Z.of_nat (S (S (length dim))) - 1));
        [|lia].
      cbn [negb].
      replace (Z.to_nat (Z.of_nat (length pre))) with (length pre) by lia.
      replace (Z.to_nat (Z.of_nat (length pre)
                         + Z.of_nat (S (S (length dim))) - 1))
        with (length (pre ++ a :: rev dim)).
      2:{ rewrite length_app. cbn [length]. rewrite length_rev. lia. }
      assert (Hshape : pre ++ (a :: rev dim ++ [b]) ++ post
                       = (pre ++ a :: rev dim) ++ b :: post).
      { rewrite <- !app_assoc. cbn [app]. rewrite <- app_assoc. reflexivity. }
      assert (Hi : (pre ++ (a :: rev dim ++ [b]) ++ post) !! length pre
                   = Some a).
      { by apply list_lookup_middle. }
      assert (Hj : (pre ++ (a :: rev dim ++ [b]) ++ post)
                     !! length (pre ++ a :: rev dim) = Some b).
      { rewrite Hshape. by apply list_lookup_middle. }
      rewrite Hi, Hj.
      assert (Hins : <[length (pre ++ a :: rev dim) := a]>
                       (<[length pre := b]>
                          (pre ++ (a :: rev dim ++ [b]) ++ post))
                     = (pre ++ [b]) ++ rev dim ++ (a :: post)).
      { assert (H1 : <[length pre := b]>
                       (pre ++ (a :: rev dim ++ [b]) ++ post)
                     = (pre ++ b :: rev dim) ++ b :: post).
        { cbn [app]. rewrite (insert_middle pre _ a b).
          rewrite <- !app_assoc. reflexivity. }
        rewrite H1.
        replace (length (pre ++ a :: rev dim))
          with (length (pre ++ b :: rev dim))
          by (rewrite !length_app; reflexivity).
        rewrite (insert_middle (pre ++ b :: rev dim) _ b a).
        rewrite <- !app_assoc. reflexivity. }
      rewrite Hins.
      replace (Z.of_nat (length pre) + 1) with (Z.of_nat (length (pre ++ [b])))
        by (rewrite length_app; cbn [length]; lia).
      replace (Z.of_nat (length pre) + Z.of_nat (S (S (length dim))) - 1 - 1)
        with (Z.of_nat (length (pre ++ [b])) + Z.of_nat (length (rev dim)) - 1)
        by (rewrite length_app, length_rev; cbn [length]; lia).
      rewrite IH by (rewrite length_rev; lia).
      rewrite rev_involutive. cbn [rev]. rewrite rev_app_distr, rev_involutive.
      cbn [rev app]. rewrite <- !app_assoc. reflexivity.
Qed.

(** X5. The loop of [LayerFS] ends and reverses the copy of its
    argument: the file system has the layers in the opposite order, so
    the layer that is given last is the one of highest priority, at
    index 0, and the layer given at position [k] is at position
    [length layers - 1 - k]. *)
Theorem LayerFS_reverses (layers : list FS) :
  LayerFS_loop layers = Some (LayerFS layers) /\
  length (LayerFS layers) = length layers /\
  (forall k, (k < length layers)%nat ->
     LayerFS layers !! (length layers - 1 - k)%nat = layers !! k) /\
  head (LayerFS layers) = last layers.
Proof.
  unfold LayerFS_loop, LayerFS. split; [|split; [|split]].
  - pose proof (reverseLoop_spec (length layers) [] layers []) as H.
    cbn [length app] in H. rewrite !app_nil_r in H.
    rewrite Z.add_0_l in H. apply H. lia.
  - apply length_rev.
  - intros k Hk. rewrite rev_reverse. unfold layerFS.
    rewrite reverse_lookup by lia. f_equal. lia.
  - rewrite rev_reverse. apply head_reverse.
Qed.

End Reverse.

(** ** The whiteout markers of a layer *)

(** X6. [hasOneOf] asks the layer for the names in their order and
    stops at the first answer that is not [fs.ErrNotExist]: it reports
    [true] when the first such name exists; an error, which is the
    layer's own, when [fs.Stat] fails on it otherwise, even if a later
    name exists; and [false] only when the layer lacks every name. *)
Theorem hasOneOf_first_answer (layer : FS) (names : list string) :
  match hasOneOf layer names with
  | Ok true =>
      exists pre name post,
        names = pre ++ name :: post /\
        Forall (fun p => absent p layer) pre /\ existsIn name layer
  | Ok false => Forall (fun p => absent p layer) names
  | Err err =>
      exists pre name post,
        names = pre ++ name :: post /\
        Forall (fun p => absent p layer) pre /\
        fsStat layer name = Err err /\ errors_Is err ErrNotExist = false
  end.
Proof.
  induction names as [|name names IH]; cbn [hasOneOf]; [constructor|].
  destruct (fsStat layer name) as [s|e] eqn:Es.
  - exists [], name, names. split; [reflexivity|].
    split; [constructor | by exists s].
  - destruct (errors_Is e ErrNotExist) eqn:Ee; cbn [negb].
    + assert (Ha : absent name layer) by (by exists e).
      destruct (hasOneOf layer names) as [[|]|err].
      * destruct IH as (pre & n & post & -> & Hpre & Hn).
        exists (name :: pre), n, post. split; [reflexivity|].
        split; [by constructor | exact Hn].
      * by constructor.
      * destruct IH as (pre & n & post & -> & Hpre & Hn).
        exists (name :: pre), n, post. split; [reflexivity|].
        split; [by constructor | exact Hn].
    + exists [], name, names. split; [reflexivity|].
      split; [constructor | by split].
Qed.

(** ** Opening and closing *)

Section OpenClose.

Implicit Types (w : World) (f : layerFile).

Lemma openLayers_spec (vis : list FS) (name : string) (files : list File) w
    (oe : option error) (files' : list File) w' :
  openLayers vis name files w = (oe, files', w') ->
  exists k new,
    (k <= length vis)%nat /\
    files' = files ++ new /\
    map fd new = seq (nextFd w) k /\
    w' = {| nextFd := (nextFd w + k)%nat;
            openFds := openFds w ++ seq (nextFd w) k |} /\
    (oe = None -> k = length vis).
Proof.
  revert files w. induction vis as [|l vis IH]; intros files w Ho;
    cbn [openLayers] in Ho.
  - inversion Ho; subst. exists O, []. cbn [length seq map].
    rewrite Nat.add_0_r, !app_nil_r. destruct w'. auto.
  - unfold openFile in Ho. destruct (fsOpen l name) as [d|e].
    + apply IH in Ho as (k & new & Hk & -> & Hfd & -> & Hnone).
      cbn [nextFd openFds] in *.
      exists (S k), ({| fd := nextFd w; fileData := d |} :: new).
      split; [cbn [length]; lia|]. split; [by rewrite <- app_assoc|].
      split; [cbn [map seq fd]; by rewrite Hfd|].
      split.
      * f_equal; [lia|]. rewrite <- app_assoc. reflexivity.
      * intros Hn. cbn [length]. f_equal. auto.
    + inversion Ho; subst. exists O, []. cbn [length seq map].
      rewrite Nat.add_0_r, !app_nil_r. split; [lia|]. destruct w'.
      repeat split; auto. discriminate.
Qed.

Lemma world_ok_extend w (k : nat) :
  world_ok w ->
  world_ok {| nextFd := (nextFd w + k)%nat;
              openFds := openFds w ++ seq (nextFd w) k |}.
Proof.
  unfold world_ok. cbn [nextFd openFds]. intros Hok.
  apply Forall_app. split.
  - eapply Forall_impl; [exact Hok|]. cbv beta. intros d Hd. lia.
  - apply Forall_forall. intros d Hd. apply elem_of_seq in Hd. lia.
Qed.

Lemma Open_Ok_inv (stack : layerFS) (name : string) w f w' :
  Open stack name w = Some (Ok f, w') ->
  map fd (layers f) = seq (nextFd w) (length (layers f)) /\
  w' = {| nextFd := (nextFd w + length (layers f))%nat;
          openFds := openFds w ++ map fd (layers f) |}.
Proof.
  unfold Open. intros Ho.
  destruct (lookup stack "open" name) as [[vis|e]|];
    [|discriminate|discriminate].
  destruct (openLayers vis name [] w) as [[[e|] files] w1] eqn:Eo;
    [discriminate|].
  inversion Ho; subst. cbn [layers closeAll foldl].
  destruct (openLayers_spec _ _ _ _ _ _ _ Eo)
    as (k & new & _ & -> & Hfd & -> & _).
  cbn [app].
  assert (Hk : length new = k).
  { pose proof (f_equal length Hfd) as Hlen.
    by rewrite length_map, length_seq in Hlen. }
  rewrite Hk, Hfd. auto.
Qed.

Lemma closeAll_twice (files : list File) w :
  closeAll files (closeAll files w) = closeAll files w.
Proof.
  destruct (closeAll_openFds files (closeAll files w)) as [Hfds Hnext].
  destruct (closeAll_openFds files w) as [Hfds1 _].
  rewrite Hfds1, list_filter_filter in Hfds.
  rewrite (list_filter_iff _ (fun d => d ∉ map fd files)) in Hfds by tauto.
  rewrite <- Hfds1 in Hfds.
  destruct (closeAll files (closeAll files w)), (closeAll files w).
  cbn [nextFd openFds] in *. by subst.
Qed.

(** X7. A handle that [Open] returns and [Close]: in a world where
    every open descriptor is older than the next one, the descriptors
    that are open after [Close] are those that were open before [Open],
    also when [Close] is called once more; and closing the handle after
    another one was opened leaves the descriptors of the other one
    open. *)
Theorem Open_Close_round_trip (stack : layerFS) (name : string) w f w1 :
  world_ok w ->
  Open stack name w = Some (Ok f, w1) ->
  world_ok w1 /\
  openFds (Close f w1) = openFds w /\
  Close f (Close f w1) = Close f w1 /\
  (forall (stack2 : layerFS) (name2 : string) g w2,
     Open stack2 name2 w1 = Some (Ok g, w2) ->
     openFds (Close f w2) = openFds w ++ map fd (layers g) /\
     openFds (Close g (Close f w2)) = openFds w).
Proof.
  intros Hok Ho. destruct (Open_Ok_inv _ _ _ _ _ Ho) as [Hfd ->].
  set (k := length (layers f)) in *.
  assert (Hok1 : world_ok {| nextFd := (nextFd w + k)%nat;
                             openFds := openFds w ++ map fd (layers f) |}).
  { rewrite Hfd. by apply world_ok_extend. }
  assert (Hkeep : filter (fun d => d ∉ map fd (layers f)) (openFds w)
                  = openFds w).
  { apply filter_all. intros d Hd Hin. rewrite Hfd in Hin.
    apply elem_of_seq in Hin. unfold world_ok in Hok.
    rewrite Forall_forall in Hok. apply Hok in Hd. lia. }
  assert (Hdrop : filter (fun d => d ∉ map fd (layers f)) (map fd (layers f))
                  = []).
  { apply filter_none. intros d Hd Hn. contradiction. }
  assert (Hround : openFds (Close f {| nextFd := (nextFd w + k)%nat;
                     openFds := openFds w ++ map fd (layers f) |})
                   = openFds w).
  { unfold Close. destruct (closeAll_openFds (layers f)
      {| nextFd := (nextFd w + k)%nat;
         openFds := openFds w ++ map fd (layers f) |}) as [-> _].
    cbn [openFds]. by rewrite filter_app, Hkeep, Hdrop, app_nil_r. }
  split; [exact Hok1|]. split; [exact Hround|]. split.
  - apply closeAll_twice.
  - intros stack2 name2 g w2 Hg.
    destruct (Open_Ok_inv _ _ _ _ _ Hg) as [Hgfd ->].
    cbn [nextFd openFds] in *.
    assert (Hother : filter (fun d => d ∉ map fd (layers f)) (map fd (layers g))
                     = map fd (layers g)).
    { apply filter_all. intros d Hd Hin. rewrite Hgfd in Hd. rewrite Hfd in Hin.
      apply elem_of_seq in Hd. apply elem_of_seq in Hin. lia. }
    assert (Hf2 : openFds (Close f
               {| nextFd := (nextFd w + k + length (layers g))%nat;
                  openFds := (openFds w ++ map fd (layers f))
                             ++ map fd (layers g) |})
             = openFds w ++ map fd (layers g)).
    { unfold Close. destruct (closeAll_openFds (layers f)
        {| nextFd := (nextFd w + k + length (layers g))%nat;
           openFds := (openFds w ++ map fd (layers f))
                      ++ map fd (layers g) |}) as [-> _].
      cbn [openFds]. by rewrite !filter_app, Hkeep, Hdrop, Hother, app_nil_r. }
    split; [exact Hf2|].
    unfold Close in *.
    destruct (closeAll_openFds (layers g) (closeAll (layers f)
        {| nextFd := (nextFd w + k + length (layers g))%nat;
           openFds := (openFds w ++ map fd (layers f))
                      ++ map fd (layers g) |})) as [-> _].
    rewrite Hf2, filter_app.
    rewrite (filter_all _ (openFds w)).
    + rewrite (filter_none _ (map fd (layers g))); [apply app_nil_r|].
      intros d Hd Hn. contradiction.
    + intros d Hd Hin. rewrite Hgfd in Hin. apply elem_of_seq in Hin.
      cbn [nextFd] in Hin. unfold world_ok in Hok.
      rewrite Forall_forall in Hok. apply Hok in Hd. lia.
Qed.

(** The directory [d] of two layers is opened and closed again. *)
Lemma Open_Close_round_trip_witness :
  let top := Fixtures.mapFS [("d", Fixtures.dirInfo "d")] in
  let low := Fixtures.mapFS [("d", Fixtures.dirInfo "d")] in
  exists f w1,
    Open [top; low] "d" Fixtures.world0 = Some (Ok f, w1) /\
    openFds w1 = [0; 1; 2; 3; 4]%nat /\
    openFds (Close f w1) = [0; 1; 2]%nat.
Proof.
  intros top low.
  destruct (Open [top; low] "d" Fixtures.world0) as [[[f|e] w1]|] eqn:Ho;
    [|discriminate Ho|discriminate Ho].
  exists f, w1. split; [reflexivity|].
  assert (Hok : world_ok Fixtures.world0).
  { unfold world_ok. repeat constructor. }
  destruct (Open_Close_round_trip [top; low] "d" Fixtures.world0 f w1 Hok Ho)
    as (_ & Hround & _).
  split; [|exact Hround].
  vm_compute in Ho. inversion Ho; subst. reflexivity.
Defined.

(** X8. [Open] returns, and a call that fails leaves no descriptor
    open, whatever the failure (the path is not found, a layer fails
    while the path is resolved, or a layer fails to open): the open
    descriptors are those of before. *)
Theorem Open_failure_leaves_no_descriptor (stack : layerFS) (name : string) w :
  world_ok w ->
  (exists r w', Open stack name w = Some (r, w')) /\
  (forall e w',
     Open stack name w = Some (Err e, w') ->
     openFds w' = openFds w /\ (nextFd w <= nextFd w')%nat /\ world_ok w').
Proof.
  intros Hok. split.
  - unfold Open. destruct (lookup_total stack "open" name) as [[vis|e] ->];
      [|eauto].
    destruct (openLayers vis name [] w) as [[[e|] files] w1]; eauto.
  - intros e w' Ho. unfold Open in Ho.
    destruct (lookup stack "open" name) as [[vis|e0]|];
      [| |discriminate].
    + destruct (openLayers vis name [] w) as [[[e1|] files] w1] eqn:Eo;
        [|discriminate].
      inversion Ho; subst.
      destruct (openLayers_spec _ _ _ _ _ _ _ Eo)
        as (k & new & _ & -> & Hfd & -> & _).
      destruct (closeAll_openFds ([] ++ new)
                  {| nextFd := (nextFd w + k)%nat;
                     openFds := openFds w ++ seq (nextFd w) k |})
        as [Hfds Hnext].
      cbn [app nextFd openFds] in *. rewrite Hfd in Hfds.
      rewrite filter_fresh_fds in Hfds by exact Hok.
      split; [exact Hfds|]. split; [lia|].
      unfold world_ok. rewrite Hfds, Hnext.
      eapply Forall_impl; [exact Hok|]. cbv beta. intros d Hd. lia.
    + inversion Ho; subst. split; [reflexivity|]. split; [lia | exact Hok].
Qed.

(** The second of two layers that have [d] fails to open it. *)
Lemma Open_failure_leaves_no_descriptor_witness :
  let top := Fixtures.mapFS [("d", Fixtures.dirInfo "d")] in
  let bad := {| fsStat := fsStat top;
                fsOpen := fun p => Err (PathError "open" p ErrPermission);
                fsReadLink := fsReadLink top;
                fsSub := fsSub top |} in
  exists w',
    Open [top; bad] "d" Fixtures.world0
      = Some (Err (PathError "open" "d" ErrPermission), w') /\
    openFds w' = [0; 1; 2]%nat.
Proof.
  intros top bad.
  assert (Hok : world_ok Fixtures.world0).
  { unfold world_ok. repeat constructor. }
  destruct (Open [top; bad] "d" Fixtures.world0) as [[[f|e] w1]|] eqn:Ho;
    [discriminate Ho| |discriminate Ho].
  assert (He : e = PathError "open" "d" ErrPermission).
  { vm_compute in Ho. by inversion Ho. }
  subst e. exists w1. split; [reflexivity|].
  exact (proj1 (proj2 (Open_failure_leaves_no_descriptor [top; bad] "d"
                         Fixtures.world0 Hok) _ _ Ho)).
Defined.


End OpenClose.

(** ** Sub and ReadLink *)

Section SubReadLink.

Lemma subLayers_Ok (vis : list FS) (name : string) (subs : list FS) :
  subLayers vis name = Ok subs <->
  Forall2 (fun layer sub => fsSub layer name = Ok sub) vis subs.
Proof.
  revert subs. induction vis as [|l vis IH]; intros subs; cbn [subLayers].
  - split.
    + intros [= <-]. constructor.
    + intros H. inversion H. reflexivity.
  - split.
    + destruct (fsSub l name) as [l'|e] eqn:El; [|discriminate].
      destruct (subLayers vis name) as [rest|e]; [|discriminate].
      intros [= <-]. constructor; [exact El|]. by apply IH.
    + intros H. inversion H as [|? s ? rest Hl Hrest]; subst.
      rewrite Hl. apply IH in Hrest. rewrite Hrest. reflexivity.
Qed.

Lemma subLayers_Err (vis : list FS) (name : string) (e : error) :
  subLayers vis name = Err e <->
  exists pre layer post,
    vis = pre ++ layer :: post /\
    Forall (fun l => exists sub, fsSub l name = Ok sub) pre /\
    fsSub layer name = Err e.
Proof.
  induction vis as [|l vis IH]; cbn [subLayers].
  - split; [discriminate|]. intros (pre & layer & post & H & _).
    by destruct pre.
  - split.
    + destruct (fsSub l name) as [l'|e'] eqn:El.
      * destruct (subLayers vis name) as [rest|e'] eqn:Er; [discriminate|].
        intros [= ->]. destruct (proj1 IH eq_refl)
          as (pre & layer & post & -> & Hpre & Hl).
        exists (l :: pre), layer, post. split; [reflexivity|].
        split; [constructor; eauto | exact Hl].
      * intros [= ->]. exists [], l, vis. split; [reflexivity|].
        split; [constructor | exact El].
    + intros (pre & layer & post & Heq & Hpre & Hl).
      destruct pre as [|p pre]; cbn [app] in Heq; inversion Heq; subst.
      * by rewrite Hl.
      * inversion Hpre as [|? ? (sub & Hs) Hpre']; subst. rewrite Hs.
        rewrite (proj2 IH); [reflexivity|]. by exists pre, layer, post.
Qed.

(** X10. [Sub] on a path that resolves to the layers [vis] returns a
    file system of as many layers, in the same order of priority: the
    sub-tree of each layer of [vis], when [fslink.Sub] succeeds on all
    of them; and it fails with the error of the first layer on which
    [fslink.Sub] fails otherwise, whatever the layers below do. *)
Theorem Sub_maps_the_visible_layers (stack : layerFS) (name : string)
    (vis : list FS) :
  lookup stack "open" name = Some (Ok vis) ->
  (forall subs,
     Sub stack name = Some (Ok subs) <->
     Forall2 (fun layer sub => fsSub layer name = Ok sub) vis subs) /\
  (forall e,
     Sub stack name = Some (Err e) <->
     exists pre layer post,
       vis = pre ++ layer :: post /\
       Forall (fun l => exists sub, fsSub l name = Ok sub) pre /\
       fsSub layer name = Err e).
Proof.
  intros Hl. unfold Sub. rewrite Hl. split.
  - intros subs. rewrite <- subLayers_Ok. split; [by intros [= ->] | by intros ->].
  - intros e. rewrite <- subLayers_Err. split; [by intros [= ->] | by intros ->].
Qed.

(** Two layers have the directory [d], and each has a sub-tree for
    it. *)
Lemma Sub_maps_the_visible_layers_witness :
  let subOf := fun (l : FS) (sub : FS) =>
    {| fsStat := fsStat l; fsOpen := fsOpen l; fsReadLink := fsReadLink l;
       fsSub := fun _ => Ok sub |} in
  let s1 := Fixtures.mapFS [("f", Fixtures.fileInfo "f" 292)] in
  let s2 := Fixtures.mapFS [("g", Fixtures.fileInfo "g" 292)] in
  let top := subOf (Fixtures.mapFS [("d", Fixtures.dirInfo "d")]) s1 in
  let low := subOf (Fixtures.mapFS [("d", Fixtures.dirInfo "d")]) s2 in
  Sub [top; low] "d" = Some (Ok [s1; s2]).
Proof.
  intros subOf s1 s2 top low.
  apply (proj1 (Sub_maps_the_visible_layers [top; low] "d" [top; low]
                  eq_refl)).
  repeat constructor.
Defined.

Lemma readLinkLayers_spec (vis : list FS) (name : string) :
  match readLinkLayers vis name with
  | Ok link =>
      exists pre layer post,
        vis = pre ++ layer :: post /\
        Forall (noLink name) pre /\ fsReadLink layer name = Ok link
  | Err e =>
      (Forall (noLink name) vis /\ e = PathError "readlink" name ErrNotExist) \/
      (exists pre layer post,
         vis = pre ++ layer :: post /\
         Forall (noLink name) pre /\
         fsReadLink layer name = Err e /\
         errors_Is e ErrNotExist = false /\ errors_Is e ErrInvalid = false)
  end.
Proof.
  induction vis as [|l vis IH]; cbn [readLinkLayers].
  - left. split; [constructor | reflexivity].
  - destruct (fsReadLink l name) as [link|e] eqn:El.
    + exists [], l, vis. split; [reflexivity|]. split; [constructor | exact El].
    + assert (Hskip : errors_Is e ErrNotExist || errors_Is e ErrInvalid = true ->
                      noLink name l) by (intros H; by exists e).
      destruct (errors_Is e ErrNotExist) eqn:E1;
        [|destruct (errors_Is e ErrInvalid) eqn:E2].
      3:{ right. exists [], l, vis. split; [reflexivity|].
          split; [constructor | auto]. }
      all: specialize (Hskip eq_refl);
        destruct (readLinkLayers vis name) as [link|e'].
      all: try (destruct IH as (pre & layer & post & -> & Hpre & Hlayer);
                exists (l :: pre), layer, post; split; [reflexivity|];
                split; [by constructor | exact Hlayer]).
      all: destruct IH as [[Hall ->] | (pre & layer & post & -> & Hpre & Hlayer)];
        [left; split; [by constructor | reflexivity]
        |right; exists (l :: pre), layer, post; split; [reflexivity|];
         split; [by constructor | exact Hlayer]].
Qed.

(** X11. [ReadLink] on a path that resolves to the layers [vis] answers
    with the first layer of [vis], in the order of priority, on which
    [fslink.ReadLink] does not fail with [fs.ErrNotExist] or
    [fs.ErrInvalid]: with its link, or with its error. When there is no
    such layer (the path is a regular file or a directory in all of
    them, say), the error is a [*fs.PathError] of [readlink] whose cause
    is [fs.ErrNotExist], not [fs.ErrInvalid]. *)
Theorem ReadLink_first_answer (stack : layerFS) (name : string)
    (vis : list FS) :
  lookup stack "readlink" name = Some (Ok vis) ->
  exists r,
    ReadLink stack name = Some r /\
    match r with
    | Ok link =>
        exists pre layer post,
          vis = pre ++ layer :: post /\
          Forall (noLink name) pre /\ fsReadLink layer name = Ok link
    | Err e =>
        (Forall (noLink name) vis /\
         e = PathError "readlink" name ErrNotExist) \/
        (exists pre layer post,
           vis = pre ++ layer :: post /\
           Forall (noLink name) pre /\
           fsReadLink layer name = Err e /\
           errors_Is e ErrNotExist = false /\ errors_Is e ErrInvalid = false)
    end.
Proof.
  intros Hl. unfold ReadLink. rewrite Hl. eexists. split; [reflexivity|].
  apply readLinkLayers_spec.
Qed.

(** The regular file [f]: the layer answers [fs.ErrInvalid], and
    [ReadLink] answers [fs.ErrNotExist]. *)
Lemma ReadLink_first_answer_witness :
  let top := Fixtures.mapFS [("f", Fixtures.fileInfo "f" 292)] in
  fsReadLink top "f" = Err (PathError "readlink" "f" ErrInvalid) /\
  ReadLink [top] "f" = Some (Err (PathError "readlink" "f" ErrNotExist)).
Proof.
  intros top. split; [reflexivity|].
  destruct (ReadLink_first_answer [top] "f" [top] eq_refl)
    as (r & Hr & Hcase).
  rewrite Hr. f_equal.
  destruct r as [link|e].
  - destruct Hcase as (pre & layer & post & Hvis & Hpre & Hlink).
    exfalso. destruct pre as [|p [|q pre]]; inversion Hvis; subst.
    discriminate Hlink.
  - destruct Hcase as [[_ ->] | (pre & layer & post & Hvis & _ & Hlink & _ & Hinv)];
      [reflexivity|].
    exfalso. destruct pre as [|p [|q pre]]; inversion Hvis; subst.
    inversion Hlink; subst. discriminate Hinv.
Defined.

End SubReadLink.

(** ** More on the merged listing *)

Section ListingMore.

Implicit Types (f : layerFile) (dir : dirReader) (mk : gset string).



Lemma isWhiteout_name (e e' : DirEntry) :
  deName e' = deName e -> isWhiteout e' = isWhiteout e.
Proof. unfold isWhiteout. by intros ->. Qed.

Lemma layerNames_plain mk (l : list DirEntry) (e : DirEntry) :
  In e l -> deName e ∉ mk -> isWhiteout e = false ->
  In (deName e) (layerNames mk l).
Proof.
  intros Hin Hm Hw. unfold layerNames. apply in_flat_map.
  exists e. split; [exact Hin|].
  unfold unmasked. rewrite bool_decide_eq_false_2 by exact Hm.
  destruct (isOpaque e) eqn:Ho.
  - apply isOpaque_isWhiteout in Ho. congruence.
  - cbn [negb andb]. rewrite Hw. by left.
Qed.

Lemma layerEmit_In mk (l : list DirEntry) (e : DirEntry) :
  In e (layerEmit mk l) <->
  In e l /\ (deName e ∉ mk) /\ isWhiteout e = false.
Proof.
  unfold layerEmit. rewrite filter_In. unfold unmasked. split.
  - intros [Hin He]. apply andb_prop in He as [He Hw].
    apply andb_prop in He as [Hm _].
    apply negb_true_iff in Hm, Hw. apply bool_decide_eq_false in Hm. auto.
  - intros (Hin & Hm & Hw). split; [exact Hin|].
    rewrite bool_decide_eq_false_2 by exact Hm. rewrite Hw.
    destruct (isOpaque e) eqn:Ho; [|reflexivity].
    apply isOpaque_isWhiteout in Ho. congruence.
Qed.

(** An entry of the merged listing is an entry of a layer that no layer
    above lists a name for. *)
Lemma drainFiles_origin mk (nm : list string) (fl : list ReadDirFile)
    (e : DirEntry) :
  In e (fst (drainFiles mk nm fl)) ->
  exists hi file lo,
    fl = hi ++ file :: lo /\ In e (pending file) /\
    isWhiteout e = false /\ (deName e ∉ mk) /\
    Forall (fun h => ~ In (deName e) (map deName (pending h))) hi.
Proof.
  revert mk nm. induction fl as [|file rest IH]; intros mk nm;
    cbn [drainFiles fst]; [contradiction|].
  assert (Hhere : In e (layerEmit mk (pending file)) ->
    exists hi file0 lo,
      file :: rest = hi ++ file0 :: lo /\ In e (pending file0) /\
      isWhiteout e = false /\ (deName e ∉ mk) /\
      Forall (fun h => ~ In (deName e) (map deName (pending h))) hi).
  { intros He. apply layerEmit_In in He as (Hin & Hm & Hw).
    exists [], file, rest. split; [reflexivity|]. by repeat split. }
  destruct (layerOpaque mk (pending file)); cbn [fst]; [exact Hhere|].
  specialize (IH (list_to_set (nm ++ layerNames mk (pending file)) ∪ mk) []).
  destruct (drainFiles _ [] rest) as [out d]. cbn [fst] in *.
  intros He. apply in_app_or in He as [He|He]; [by apply Hhere|].
  destruct (IH He) as (hi & file0 & lo & -> & Hin & Hw & Hm & Hhi).
  exists (file :: hi), file0, lo. split; [reflexivity|].
  split; [exact Hin|]. split; [exact Hw|].
  assert (Hmk : deName e ∉ mk).
  { intros Hx. apply Hm. by apply elem_of_union_r. }
  split; [exact Hmk|]. constructor; [|exact Hhi].
  intros Hname. apply in_map_iff in Hname as (e' & Hn & Hin').
  apply Hm. apply elem_of_union_l, elem_of_list_to_set, elem_of_app. right.
  apply list_elem_of_In. rewrite <- Hn.
  apply layerNames_plain; [exact Hin'| by rewrite Hn|].
  by rewrite (isWhiteout_name e e').
Qed.

(** X13. The highest layer wins. An entry that [ReadDir] returns is an
    entry, with its name, kind and type, of one of the directories that
    the handle still has to read, and no directory above that one lists
    an entry of the same name: the entry of a lower layer is never
    returned in place of the entry of a higher one. *)
Theorem ReadDir_highest_layer_wins f (n : Z) (ret : list DirEntry)
    (err : option error) f' (e : DirEntry) :
  ReadDir f n = Some (ret, err, f') ->
  In e ret ->
  exists hi file lo,
    files (handleCursor f) = hi ++ file :: lo /\
    In e (pending file) /\
    Forall (fun h => ~ In (deName e) (map deName (pending h))) hi.
Proof.
  intros Hr He. rewrite ReadDir_scan in Hr.
  destruct (scan accept (Z.max 0 n) (handleCursor f))
    as [[[err0 dir'] out]|] eqn:Hs; [|discriminate].
  inversion Hr; subst ret err0 f'.
  destruct (scan_drain (Z.max 0 n) _ _ _ _ ltac:(lia) Hs) as (Hdr & _).
  destruct (drainFiles_origin (masks (handleCursor f))
              (names (handleCursor f)) (files (handleCursor f)) e)
    as (hi & file & lo & Hf & Hin & _ & _ & Hhi).
  { fold (drain (handleCursor f)). rewrite Hdr. cbn [fst].
    apply in_or_app. by left. }
  by exists hi, file, lo.
Qed.

(** The name [a] is a directory in the top layer and a file below: the
    entry that is listed is the directory. *)
Lemma ReadDir_highest_layer_wins_witness :
  let dirA := {| deName := "a"; deIsDir := true; deType := 2 ^ 31 |} in
  let top := {| pending := [dirA]; failure := None |} in
  let low := Fixtures.listing ["a"; "b"] in
  exists hi file lo,
    [top; low] = hi ++ file :: lo /\
    In dirA (pending file) /\
    Forall (fun h => ~ In "a" (map deName (pending h))) hi.
Proof.
  intros dirA top low.
  destruct (ReadDir (Fixtures.handleOf [top; low]) 0)
    as [[[ret err] f']|] eqn:Hr; [|discriminate Hr].
  apply (ReadDir_highest_layer_wins (Fixtures.handleOf [top; low]) 0
           ret err f' dirA Hr).
  assert (Hc : option_map (fun r => fst (fst r))
                 (ReadDir (Fixtures.handleOf [top; low]) 0)
               = Some [dirA; Fixtures.entry "b"])
    by (vm_compute; reflexivity).
  rewrite Hr in Hc. cbn [option_map fst] in Hc. inversion Hc. by left.
Defined.

Lemma layerOpaque_plain mk (l : list DirEntry) :
  Forall (fun e => isWhiteout e = false) l -> layerOpaque mk l = false.
Proof.
  intros Hall. unfold layerOpaque.
  destruct (existsb _ l) eqn:Ex; [|reflexivity].
  apply existsb_exists in Ex as (e & Hin & He).
  apply andb_prop in He as [_ Ho]. apply isOpaque_isWhiteout in Ho.
  rewrite Forall_forall in Hall. apply list_elem_of_In, Hall in Hin.
  congruence.
Qed.

Lemma layerNames_plain_inv mk (l : list DirEntry) (x : string) :
  Forall (fun e => isWhiteout e = false) l ->
  In x (layerNames mk l) ->
  In x (map deName (layerEmit mk l)).
Proof.
  intros Hall Hx. unfold layerNames in Hx.
  apply in_flat_map in Hx as (e & Hin & Hx).
  rewrite Forall_forall in Hall.
  pose proof (Hall e (proj2 (list_elem_of_In _ _) Hin)) as Hw.
  destruct (unmasked mk e) eqn:Hm; cbn [andb] in Hx; [|contradiction].
  destruct (isOpaque e); cbn [negb] in Hx; [contradiction|].
  rewrite Hw in Hx. destruct Hx as [<-|[]].
  apply in_map, layerEmit_In. split; [exact Hin|]. split; [|exact Hw].
  unfold unmasked in Hm. apply negb_true_iff in Hm.
  by apply bool_decide_eq_false in Hm.
Qed.

(** Without whiteouts, every name of every layer is in the merged
    listing, unless it is masked already. *)
Lemma drainFiles_complete mk (nm : list string) (fl : list ReadDirFile)
    (file : ReadDirFile) (e : DirEntry) :
  Forall (fun file => Forall (fun e => isWhiteout e = false) (pending file))
         fl ->
  In file fl -> In e (pending file) ->
  In (deName e) (map deName (fst (drainFiles mk nm fl))) \/
  deName e ∈ mk \/ In (deName e) nm.
Proof.
  revert mk nm. induction fl as [|file0 rest IH]; intros mk nm Hall Hfile Hin;
    [contradiction|].
  inversion Hall as [|? ? Hplain Hrest]; subst.
  cbn [drainFiles]. rewrite (layerOpaque_plain mk _ Hplain).
  specialize (IH (list_to_set (nm ++ layerNames mk (pending file0)) ∪ mk) []
                 Hrest).
  destruct (drainFiles _ [] rest) as [out d]. cbn [fst] in *.
  rewrite map_app, in_app_iff.
  destruct (decide (deName e ∈ mk)) as [Hm|Hm]; [auto|].
  destruct Hfile as [->|Hfile].
  - left. left. apply in_map, layerEmit_In. split; [exact Hin|].
    split; [exact Hm|]. rewrite Forall_forall in Hplain.
    apply Hplain. by apply list_elem_of_In.
  - destruct (IH Hfile Hin) as [Hout | [Hmask | []]]; [auto|].
    apply elem_of_union in Hmask as [Hmask|Hmask]; [|auto].
    apply elem_of_list_to_set, elem_of_app in Hmask as [Hnm|Hnames].
    + right. right. by apply list_elem_of_In.
    + left. left. apply layerNames_plain_inv; [exact Hplain|].
      by apply list_elem_of_In.
Qed.

(** X14. The union of the layers. On a handle that was not read yet and
    whose directories list no name with the whiteout prefix, the names
    that an unbounded [ReadDir] returns are the names that the
    directories list, those of all the layers that the handle has. *)
Theorem ReadDir_union_without_whiteouts f (n : Z) (ret : list DirEntry)
    (err : option error) f' (x : string) :
  n <= 0 ->
  dirReader_ f = None ->
  Forall (fun file => Forall (fun e => isWhiteout e = false) (pending file))
         (files (handleCursor f)) ->
  ReadDir f n = Some (ret, err, f') ->
  (In x (map deName ret) <->
   exists file, In file (files (handleCursor f)) /\
                In x (map deName (pending file))).
Proof.
  intros Hn Hfresh Hplain Hr.
  destruct (ReadDir_unbounded f n Hn) as [Hu _].
  rewrite Hu in Hr. inversion Hr; subst ret err f'. clear Hr Hu.
  assert (Hstart : masks (handleCursor f) = ∅ /\ names (handleCursor f) = []).
  { unfold handleCursor. rewrite Hfresh. split; reflexivity. }
  destruct Hstart as [Hmk Hnm]. unfold drain. rewrite Hmk, Hnm. split.
  - intros Hx. apply in_map_iff in Hx as (e & <- & He).
    destruct (drainFiles_origin _ _ _ _ He)
      as (hi & file & lo & Hf & Hin & _).
    exists file. split; [rewrite Hf; apply in_or_app; right; by left|].
    by apply in_map.
  - intros (file & Hfile & Hx). apply in_map_iff in Hx as (e & <- & He).
    destruct (drainFiles_complete ∅ [] _ file e Hplain Hfile He)
      as [Hout | [Hm | []]]; [exact Hout|].
    by apply not_elem_of_empty in Hm.
Qed.

(** Two layers without whiteouts: [b] of the layer below is listed. *)
Lemma ReadDir_union_without_whiteouts_witness :
  exists ret err f',
    ReadDir (Fixtures.dirHandle [["a"]; ["a"; "b"]]) 0 = Some (ret, err, f') /\
    In "b" (map deName ret).
Proof.
  destruct (ReadDir (Fixtures.dirHandle [["a"]; ["a"; "b"]]) 0)
    as [[[ret err] f']|] eqn:Hr;
    [|exfalso; revert Hr; rewrite ReadDir_scan;
      destruct (scan_returns (Z.max 0 0)
                  (handleCursor (Fixtures.dirHandle [["a"]; ["a"; "b"]]))
                  ltac:(lia)) as (? & ? & ? & -> & _); discriminate].
  exists ret, err, f'. split; [reflexivity|].
  apply (ReadDir_union_without_whiteouts
           (Fixtures.dirHandle [["a"]; ["a"; "b"]]) 0 ret err f' "b"
           ltac:(lia) eq_refl).
  - repeat constructor.
  - exact Hr.
  - exists (Fixtures.listing ["a"; "b"]). split; [right; by left|].
    right. by left.
Defined.



Lemma openLayers_dirs (name : string) (vis : list FS) (new : list File) :
  map (fun x => Ok (fileData x)) new = map (fun l => fsOpen l name) vis ->
  omap (fun layer => dataDir (fileData layer)) new
  = omap (fun l => match fsOpen l name with
                   | Ok d => dataDir d
                   | Err _ => None
                   end) vis.
Proof.
  revert vis. induction new as [|x new IH]; intros [|l vis] Hmap;
    cbn [map] in Hmap; try discriminate; [reflexivity|].
  inversion Hmap as [[Hx Hrest]]. cbn [omap list_omap].
  rewrite <- Hx, (IH vis Hrest). reflexivity.
Qed.

(** X16. [Open] and then [ReadDir]. When a path resolves to the layers
    [vis] and all of them open it, the directories that the handle
    reads are those of the layers of [vis] in which the path opens as a
    directory, in the order of priority; an unbounded [ReadDir] returns
    their merged listing, from no mask. So no layer that the resolution
    of the path left out contributes an entry. *)
Theorem Open_then_ReadDir (stack : layerFS) (name : string) (w : World)
    (vis : list FS) :
  lookup stack "open" name = Some (Ok vis) ->
  Forall (opens name) vis ->
  exists f w',
    Open stack name w = Some (Ok f, w') /\
    files (handleCursor f)
      = omap (fun l => match fsOpen l name with
                       | Ok d => dataDir d
                       | Err _ => None
                       end) vis /\
    forall n, n <= 0 ->
      exists f'',
        ReadDir f n
        = Some (fst (drainFiles ∅ [] (files (handleCursor f))), None, f'').
Proof.
  intros Hl Hall.
  destruct (openLayers_all name vis [] w Hall) as (new & Ho & _ & Hdata).
  unfold Open. rewrite Hl, Ho. eexists _, _. split; [reflexivity|].
  cbn [app]. split.
  - unfold handleCursor, newDirReader. cbn [dirReader_ default files layers].
    by apply openLayers_dirs.
  - intros n Hn. eexists.
    destruct (ReadDir_unbounded
                {| layers := new; name := name; dirReader_ := None |} n Hn)
      as [-> _].
    reflexivity.
Qed.

(** In the scenario of the test of the package, [a/x] resolves to the
    three oldest layers, and the handle reads their three
    directories. *)
Lemma Open_then_ReadDir_witness :
  let stack := LayerFS Fixtures.testLayers in
  let vis := drop 2 stack in
  lookup stack "open" "a/x" = Some (Ok vis) /\
  exists f w',
    Open stack "a/x" Fixtures.world0 = Some (Ok f, w') /\
    files (handleCursor f)
      = omap (fun l => match fsOpen l "a/x" with
                       | Ok d => dataDir d
                       | Err _ => None
                       end) vis /\
    forall n, n <= 0 ->
      exists f'',
        ReadDir f n
        = Some (fst (drainFiles ∅ [] (files (handleCursor f))), None, f'').
Proof.
  intros stack vis.
  assert (Hl : lookup stack "open" "a/x" = Some (Ok vis))
    by (vm_compute; reflexivity).
  split; [exact Hl|].
  apply (Open_then_ReadDir stack "a/x" Fixtures.world0 vis Hl).
  repeat constructor; eexists; reflexivity.
Defined.

End ListingMore.

(** ** The names of the whiteout markers *)

Section WhiteoutNames.

Implicit Types (s t cur : string) (c : ascii).

Lemma append_cons c s t : String c s +:+ t = String c (s +:+ t).
Proof. reflexivity. Qed.

Lemma append_nil_l t : EmptyString +:+ t = t.
Proof. reflexivity. Qed.

Lemma append_nil_r s : s +:+ EmptyString = s.
Proof.
  induction s as [|c s IH]; [reflexivity|]. by rewrite append_cons, IH.
Qed.

Lemma append_assoc s t u : (s +:+ t) +:+ u = s +:+ t +:+ u.
Proof.
  induction s as [|c s IH]; [reflexivity|]. by rewrite !append_cons, IH.
Qed.

(** [path.Split] cuts the name after its last slash. *)
Lemma LastIndexByte_split s :
  match LastIndexByte s slash with
  | None => IndexByte s slash = None
  | Some i =>
      exists d b,
        s = d +:+ String slash b /\
        IndexByte b slash = None /\
        string_take (S i) s = d +:+ String slash EmptyString /\
        string_drop (S i) s = b
  end.
Proof.
  induction s as [|c s IH]; [reflexivity|]. cbn [LastIndexByte].
  destruct (LastIndexByte s slash) as [i|].
  - destruct IH as (d & b & Hs & Hb & Ht & Hd).
    exists (String c d), b. rewrite !append_cons.
    split; [by rewrite <- Hs|]. split; [exact Hb|].
    split; [|exact Hd].
    change (string_take (S (S i)) (String c s))
      with (String c (string_take (S i) s)). by rewrite Ht.
  - destruct (Ascii.eqb_spec c slash) as [->|Hc].
    + exists EmptyString, s. rewrite !append_nil_l.
      split; [reflexivity|]. split; [exact IH|].
      split; [|reflexivity]. cbn [string_take]. by destruct s.
    + cbn [IndexByte]. rewrite (proj2 (Ascii.eqb_neq _ _) Hc). by rewrite IH.
Qed.

Lemma elements_from_app cur s t :
  elements_from cur (s +:+ String slash t)
  = elements_from cur s ++ elements_from EmptyString t.
Proof.
  revert cur. induction s as [|c s IH]; intros cur.
  - rewrite append_nil_l. cbn [elements_from]. rewrite Ascii.eqb_refl.
    reflexivity.
  - rewrite append_cons. cbn [elements_from].
    destruct (Ascii.eqb c slash); [|apply IH].
    rewrite IH. reflexivity.
Qed.

Lemma elements_from_noslash cur s :
  IndexByte s slash = None -> elements_from cur s = [cur +:+ s].
Proof.
  revert cur. induction s as [|c s IH]; intros cur Hs; cbn [elements_from].
  - by rewrite append_nil_r.
  - cbn [IndexByte] in Hs. destruct (Ascii.eqb c slash); [discriminate|].
    destruct (IndexByte s slash); [discriminate|].
    rewrite IH by reflexivity. by rewrite append_assoc.
Qed.

Lemma elements_from_cons cur s :
  exists e els, elements_from cur s = e :: els.
Proof.
  revert cur. induction s as [|c s IH]; intros cur; cbn [elements_from];
    [eauto|].
  destruct (Ascii.eqb c slash); eauto.
Qed.

Lemma join_elements_from cur s :
  join_elements (elements_from cur s) = cur +:+ s.
Proof.
  revert cur. induction s as [|c s IH]; intros cur; cbn [elements_from].
  - cbn [join_elements]. by rewrite append_nil_r.
  - destruct (Ascii.eqb_spec c slash) as [->|Hc].
    + specialize (IH EmptyString).
      destruct (elements_from_cons EmptyString s) as (e & els & He).
      rewrite He in *. cbn [join_elements] in *. rewrite IH.
      rewrite append_nil_l. reflexivity.
    + rewrite IH. by rewrite append_assoc.
Qed.

Lemma join_elements_snoc (els : list string) (x : string) :
  els <> [] ->
  join_elements (els ++ [x]) = join_elements els +:+ String slash x.
Proof.
  induction els as [|e els IH]; [contradiction|]. intros _.
  destruct els as [|e' els].
  - reflexivity.
  - cbn [app join_elements] in *. rewrite IH by discriminate.
    destruct (els ++ [x]) eqn:Hx; [by destruct els|].
    rewrite !append_assoc. reflexivity.
Qed.

Lemma clean_elements_valid (rooted : bool) (acc els rest : list string) :
  forallb valid_elem els = true ->
  clean_elements rooted acc (els ++ rest)
  = clean_elements rooted (rev els ++ acc) rest.
Proof.
  revert acc. induction els as [|e els IH]; intros acc Hv; [reflexivity|].
  cbn [forallb] in Hv. apply andb_prop in Hv as [He Hv].
  cbn [app clean_elements]. unfold valid_elem in He.
  apply negb_true_iff, orb_false_iff in He as [He H2].
  rewrite He, H2. rewrite (IH _ Hv). cbn [rev]. by rewrite <- app_assoc.
Qed.

(** [path.Join] of a directory part and a name: the name in that
    directory. *)
Lemma path_Join_sibling (d x : string) :
  forallb valid_elem (elements d) = true ->
  valid_elem x = true -> IndexByte x slash = None ->
  path_Join (d +:+ String slash EmptyString) x = d +:+ String slash x.
Proof.
  intros Hd Hx Hns.
  assert (Hxne : String.eqb x EmptyString = false).
  { unfold valid_elem in Hx. apply negb_true_iff in Hx.
    apply orb_false_iff in Hx as [Hx _].
    by apply orb_false_iff in Hx as [Hx _]. }
  destruct d as [|c d'].
  { exfalso. cbn in Hd. discriminate. }
  assert (Hc : Ascii.eqb c slash = false).
  { destruct (Ascii.eqb_spec c slash) as [->|]; [|reflexivity].
    exfalso. unfold elements in Hd. cbn [elements_from] in Hd.
    rewrite Ascii.eqb_refl in Hd. cbn in Hd. discriminate. }
  assert (Hj : path_Join (String c d' +:+ String slash EmptyString) x
               = path_Clean (String c (d' +:+ String slash (String slash x)))).
  { unfold path_Join. rewrite Hxne. rewrite append_cons. cbn [String.eqb].
    f_equal. rewrite append_cons. f_equal. rewrite append_assoc.
    reflexivity. }
  rewrite Hj. unfold path_Clean. rewrite Hc.
  change (String c (d' +:+ String slash (String slash x)))
    with (String c d' +:+ String slash (String slash x)).
  set (dd := String c d') in *.
  unfold elements. rewrite elements_from_app.
  change (elements_from EmptyString (String slash x))
    with (EmptyString :: elements_from EmptyString x).
  rewrite (elements_from_noslash _ x Hns), append_nil_l.
  fold (elements dd).
  rewrite (clean_elements_valid false [] (elements dd) _ Hd).
  rewrite app_nil_r. cbn [clean_elements String.eqb orb].
  assert (Hx1 : String.eqb x EmptyString || String.eqb x "." = false).
  { unfold valid_elem in Hx. apply negb_true_iff in Hx.
    by apply orb_false_iff in Hx as [Hx _]. }
  assert (Hx2 : String.eqb x ".." = false).
  { unfold valid_elem in Hx. apply negb_true_iff in Hx.
    by apply orb_false_iff in Hx as [_ Hx]. }
  rewrite Hx1, Hx2. cbn [clean_elements rev]. rewrite rev_involutive.
  destruct (elements_from_cons EmptyString dd) as (e & els & He).
  rewrite join_elements_snoc by (unfold elements; rewrite He; discriminate).
  unfold elements. rewrite join_elements_from, append_nil_l.
  reflexivity.
Qed.

(** [path.Join] of no directory and a name: the name. *)
Lemma path_Join_root (x : string) :
  valid_elem x = true -> IndexByte x slash = None ->
  path_Join EmptyString x = x.
Proof.
  intros Hx Hns.
  assert (Hx1 : String.eqb x EmptyString || String.eqb x "." = false).
  { unfold valid_elem in Hx. apply negb_true_iff in Hx.
    by apply orb_false_iff in Hx as [Hx _]. }
  assert (Hx2 : String.eqb x ".." = false).
  { unfold valid_elem in Hx. apply negb_true_iff in Hx.
    by apply orb_false_iff in Hx as [_ Hx]. }
  assert (Hxne : String.eqb x EmptyString = false)
    by (by apply orb_false_iff in Hx1 as [? _]).
  unfold path_Join. cbn [String.eqb]. rewrite Hxne.
  destruct x as [|c x']; [discriminate|].
  unfold path_Clean.
  assert (Hc : Ascii.eqb c slash = false).
  { cbn [IndexByte] in Hns. by destruct (Ascii.eqb c slash). }
  rewrite Hc. unfold elements.
  rewrite (elements_from_noslash _ _ Hns), append_nil_l.
  cbn [clean_elements]. rewrite Hx1, Hx2. cbn [clean_elements rev app join_elements].
  rewrite Hxne. reflexivity.
Qed.

Lemma whiteout_elem_valid (b : string) :
  valid_elem (whiteoutPrefix +:+ b) = true /\
  (IndexByte b slash = None ->
   IndexByte (whiteoutPrefix +:+ b) slash = None).
Proof.
  split; [reflexivity|]. intros Hb.
  unfold whiteoutPrefix. rewrite !append_cons, append_nil_l.
  cbn [IndexByte]. cbn. by rewrite Hb.
Qed.

(** X17. The two markers of a path are beside it. For a valid path
    other than [.], which [path.Split] cuts into its directory part
    [dir] (empty, or ending in a slash) and its last element [base]:
    [whiteout] returns the names [.wh.] followed by [base], and
    [.wh..wh..opq], in the directory [dir], with no other change to
    [dir]. These are the names that [lookup] asks each layer for at
    every prefix of the path. *)
Theorem whiteout_markers_are_siblings (name : string) :
  ValidPath name = true ->
  name <> "." ->
  name = fst (path_Split name) +:+ snd (path_Split name) /\
  IndexByte (snd (path_Split name)) slash = None /\
  whiteout name =
    (fst (path_Split name) +:+ whiteoutPrefix +:+ snd (path_Split name),
     fst (path_Split name) +:+ whiteoutOpaque).
Proof.
  intros Hv Hdot.
  assert (Hel : forallb valid_elem (elements name) = true).
  { unfold ValidPath in Hv.
    destruct (utf8_ValidString name); [cbn in Hv | discriminate].
    destruct (String.eqb_spec name "."); [contradiction|].
    unfold elements. by rewrite <- valid_elems_elements. }
  unfold whiteout, path_Split.
  pose proof (LastIndexByte_split name) as Hsplit.
  destruct (LastIndexByte name slash) as [i|].
  - destruct Hsplit as (d & b & Hname & Hb & Ht & Hd).
    rewrite Ht, Hd. cbn [fst snd].
    rewrite !append_assoc. cbn [String.append].
    split; [exact Hname|]. split; [exact Hb|].
    assert (Hdv : forallb valid_elem (elements d) = true).
    { rewrite Hname in Hel. unfold elements in Hel.
      rewrite elements_from_app, forallb_app in Hel.
      by apply andb_prop in Hel as [Hel _]. }
    destruct (whiteout_elem_valid b) as [Hw1 Hw2].
    rewrite (path_Join_sibling d _ Hdv Hw1 (Hw2 Hb)).
    rewrite (path_Join_sibling d whiteoutOpaque Hdv eq_refl eq_refl).
    reflexivity.
  - cbn [fst snd]. rewrite !append_nil_l.
    split; [reflexivity|]. split; [exact Hsplit|].
    destruct (whiteout_elem_valid name) as [Hw1 Hw2].
    rewrite (path_Join_root _ Hw1 (Hw2 Hsplit)).
    rewrite (path_Join_root whiteoutOpaque eq_refl eq_refl).
    reflexivity.
Qed.

(** The markers of [a/b/c] are in [a/b]. *)
Lemma whiteout_markers_are_siblings_witness :
  path_Split "a/b/c" = ("a/b/", "c") /\
  whiteout "a/b/c" = ("a/b/.wh.c", "a/b/.wh..wh..opq").
Proof.
  split; [reflexivity|].
  destruct (whiteout_markers_are_siblings "a/b/c" eq_refl ltac:(discriminate))
    as (_ & _ & Hw).
  exact Hw.
Defined.

End WhiteoutNames.

(** ** The loop over the candidate layers, as it is written *)

(** X18. The loop of [lookup] over the candidate layers (lines 133-165),
    which removes layers from the slice in place while it moves its
    index: on every slice it ends within as many iterations as the slice
    has layers, without an index out of range, and what it leaves is
    what [scanLayers] computes, which keeps the layers it has passed and
    those it has not in two lists. *)
Theorem candidate_loop_in_place (prefix whiteoutOne whiteoutAll : string)
    (visibleLayers : list FS) :
  scanLayersAt (length visibleLayers) prefix whiteoutOne whiteoutAll 0
    visibleLayers
  = Some (scanLayers prefix whiteoutOne whiteoutAll [] visibleLayers).
Proof.
  apply (scanLayers_index prefix whiteoutOne whiteoutAll [] visibleLayers).
  lia.
Qed.

(** ** Directories that several layers have *)

Section Merge.

Implicit Types (layer : FS) (kept rest vis : list FS).

Lemma scanLayers_plain (p : string) kept rest :
  Forall (plainAt p) rest ->
  exists r,
    scanLayers p (fst (whiteout p)) (snd (whiteout p)) kept rest
      = Ok (kept ++ r) /\
    r `sublist_of` rest /\
    forall l, In l r <-> In l rest /\ isDirIn p l.
Proof.
  intros Hall. revert kept.
  induction Hall as [|l rest Hl _ IH]; intros kept; cbn [scanLayers].
  - exists []. rewrite app_nil_r. split; [reflexivity|].
    split; [constructor|]. intros l. split; [contradiction | by intros [? _]].
  - destruct Hl as [(e & He & His) | ((s & Hs & Hd) & Hw)].
    + rewrite He, His. cbn [negb].
      destruct (IH kept) as (r & -> & Hsub & Hin). exists r.
      split; [reflexivity|]. split; [by apply sublist_cons|].
      intros l'. rewrite Hin. split.
      * intros [? ?]. split; [by right | assumption].
      * intros [[<-|?] Hdir]; [|by split].
        destruct Hdir as (s & Hs & _). congruence.
    + rewrite Hs, Hd. cbn [negb]. rewrite Hw.
      destruct (IH (kept ++ [l])) as (r & -> & Hsub & Hin).
      exists (l :: r). rewrite <- app_assoc. split; [reflexivity|].
      split; [by apply sublist_skip|].
      intros l'. cbn [In]. rewrite Hin. split.
      * intros [<-|[? ?]]; [|by split; [right|]].
        split; [by left | by exists s].
      * intros [[<-|?] Hdir]; [by left | right; by split].
Qed.

Lemma boundary_between (name : string) (walk j : nat) :
  (walk <= String.length name)%nat -> boundary name j -> (walk <= j)%nat ->
  j = nextStop name walk \/ (S (nextStop name walk) <= j)%nat.
Proof.
  intros Hw Hb Hj.
  destruct (nextStop_spec name walk Hw) as (Hle & Hfree & Hstop).
  destruct (Nat.lt_trichotomy j (nextStop name walk)) as [Hlt | [-> | Hgt]];
    [|by left | right; lia].
  exfalso. destruct Hb as [Hb | Hb].
  - pose proof (boundary_le _ _ Hstop). lia.
  - by apply (Hfree j).
Qed.

(** The walk over the prefixes, from any of its positions, in layers
    that take no part in hiding: it ends without an error and keeps the
    layers that have the remaining prefixes as directories. *)
Lemma walkPath_plain (name : string) (fuel walk : nat) vis :
  ValidPath name = true -> name <> "." ->
  (String.length name <= walk + fuel)%nat ->
  (walk = O \/ exists w, walk = S w /\ boundary name w) ->
  (forall l j, In l vis -> boundary name j ->
               plainAt (string_take j name) l) ->
  exists vis',
    walkPath fuel name walk vis = Some (Ok vis') /\
    vis' `sublist_of` vis /\
    forall l,
      In l vis' <->
      In l vis /\
      forall j, boundary name j -> (walk <= j)%nat ->
                isDirIn (string_take j name) l.
Proof.
  intros Hvalid Hdot.
  assert (Hstop : forall fuel walk vis,
            (String.length name <= walk)%nat \/ vis = [] ->
            walkPath fuel name walk vis = Some (Ok vis)).
  { intros fuel0 walk0 vis0 Hc. rewrite walkPath_unfold.
    destruct (Nat.ltb_spec walk0 (String.length name)) as [Hlt|Hge];
      cbn [andb negb]; [|by destruct fuel0].
    destruct Hc as [Hc| ->]; [lia|]. cbn [length Nat.ltb Nat.leb negb].
    by destruct fuel0. }
  assert (Hdone : forall fuel walk vis,
            (String.length name <= walk)%nat ->
            (walk = O \/ exists w, walk = S w /\ boundary name w) ->
            exists vis',
              walkPath fuel name walk vis = Some (Ok vis') /\
              vis' `sublist_of` vis /\
              forall l,
                In l vis' <->
                In l vis /\
                forall j, boundary name j -> (walk <= j)%nat ->
                          isDirIn (string_take j name) l).
  { intros fuel0 walk0 vis0 Hge Hpos. exists vis0.
    split; [apply Hstop; by left|]. split; [reflexivity|].
    intros l. split; [|by intros [? _]].
    intros Hin. split; [exact Hin|]. intros j Hj Hwj. exfalso.
    pose proof (boundary_le _ _ Hj) as Hjl.
    destruct (ValidPath_boundary name j Hvalid Hdot Hj) as (j' & -> & Hnot).
    destruct Hpos as [-> | (w & -> & [Hw|Hw])]; [lia | lia |].
    assert (w = j') as -> by (pose proof (get_lt_length _ _ _ Hw); lia).
    contradiction. }
  revert walk vis.
  induction fuel as [|fuel IH]; intros walk vis Hfuel Hpos Hplain.
  { apply Hdone; [lia | exact Hpos]. }
  destruct (Nat.le_gt_cases (String.length name) walk) as [Hge|Hlt];
    [by apply Hdone|].
  destruct vis as [|l0 vis0] eqn:Ev.
  { exists []. split; [apply Hstop; by right|]. split; [reflexivity|].
    intros l. split; [contradiction | by intros [? _]]. }
  rewrite <- Ev in *. rewrite walkPath_unfold.
  assert (Hc : negb ((walk <? String.length name)%nat
                     && (0 <? length vis)%nat) = false).
  { rewrite (proj2 (Nat.ltb_lt _ _) Hlt). rewrite Ev. reflexivity. }
  rewrite Hc. cbv zeta.
  destruct (nextStop_spec name walk ltac:(lia)) as (Hle & _ & Hb).
  destruct (scanLayers_plain (string_take (nextStop name walk) name) [] vis)
    as (r & -> & Hsub & Hin).
  { apply Forall_forall. intros l Hl. apply Hplain; [|exact Hb].
    by apply list_elem_of_In. }
  cbn [app].
  destruct (IH (S (nextStop name walk)) r) as (vis' & -> & Hsub' & Hin').
  - lia.
  - right. by exists (nextStop name walk).
  - intros l j Hl Hj. apply Hplain; [|exact Hj]. by apply Hin in Hl as [? _].
  - exists vis'. split; [reflexivity|]. split; [by etrans|].
    intros l. rewrite Hin', Hin. split.
    + intros [[Hv Hdir] Hall]. split; [exact Hv|]. intros j Hj Hwj.
      destruct (boundary_between name walk j ltac:(lia) Hj Hwj) as [-> | Hgt];
        [exact Hdir | by apply Hall].
    + intros [Hv Hall]. split; [split; [exact Hv|]|].
      * by apply Hall.
      * intros j Hj Hsj. apply Hall; [exact Hj | lia].
Qed.

(** X19. Directories are merged. When every layer of the stack, at
    every prefix of a valid path other than [.], either lacks the
    prefix or has it as a directory with no whiteout marker: [lookup]
    finds the layers of the stack that have every prefix of the path as
    a directory, all of them, in the order of the stack; and it fails,
    with a [*fs.PathError] whose cause is [fs.ErrNotExist], exactly when
    there is no such layer. *)
Theorem lookup_merges_directories (stack : layerFS) (op name : string) :
  ValidPath name = true ->
  name <> "." ->
  (forall l j, In l stack -> boundary name j ->
               plainAt (string_take j name) l) ->
  exists vis,
    vis `sublist_of` stack /\
    (forall l,
       In l vis <->
       In l stack /\
       forall j, boundary name j -> isDirIn (string_take j name) l) /\
    lookup stack op name
    = Some (match vis with
            | [] => Err (PathError op name ErrNotExist)
            | _ :: _ => Ok vis
            end).
Proof.
  intros Hvalid Hdot Hplain.
  destruct (walkPath_plain name (String.length name) O stack Hvalid Hdot
              ltac:(lia) (or_introl eq_refl) Hplain)
    as (vis & Hw & Hsub & Hin).
  exists vis. split; [exact Hsub|]. split.
  - intros l. rewrite Hin. split; intros [Hst Hall]; (split; [exact Hst|]).
    + intros j Hj. apply Hall; [exact Hj | lia].
    + intros j Hj _. by apply Hall.
  - unfold lookup, lookup_fuel. rewrite Hvalid. cbn [negb].
    destruct (String.eqb_spec name "."); [contradiction|].
    rewrite Hw. by destruct vis.
Qed.

(** Of three layers, the first and the third have the directory [d]:
    both are found; no layer has [e/x]. *)
Lemma lookup_merges_directories_witness :
  let top := Fixtures.mapFS [("d", Fixtures.dirInfo "d");
                             ("d/f", Fixtures.fileInfo "f" 292)] in
  let mid := Fixtures.mapFS [("e", Fixtures.dirInfo "e")] in
  let low := Fixtures.mapFS [("d", Fixtures.dirInfo "d");
                             ("d/g", Fixtures.fileInfo "g" 292)] in
  lookup [top; mid; low] "open" "d" = Some (Ok [top; low]) /\
  exists vis,
    vis `sublist_of` [top; mid; low] /\
    (forall l,
       In l vis <->
       In l [top; mid; low] /\
       forall j, boundary "d" j -> isDirIn (string_take j "d") l) /\
    lookup [top; mid; low] "open" "d"
    = Some (match vis with
            | [] => Err (PathError "open" "d" ErrNotExist)
            | _ :: _ => Ok vis
            end).
Proof.
  intros top mid low. split; [reflexivity|].
  apply (lookup_merges_directories [top; mid; low] "open" "d");
    [reflexivity | discriminate |].
  intros l j Hin [Hj|Hj].
  - cbn in Hj. subst j.
    destruct Hin as [<-|[<-|[<-|[]]]].
    + right. split; [|reflexivity].
      exists (Fixtures.dirInfo "d"). split; reflexivity.
    + left. exists (PathError "stat" "d" ErrNotExist). split; reflexivity.
    + right. split; [|reflexivity].
      exists (Fixtures.dirInfo "d"). split; reflexivity.
  - destruct j as [|[|j]]; cbn in Hj; discriminate.
Defined.

End Merge.

(** ** The merged listing, name by name *)

Section ListingExact.

Implicit Types (f : layerFile) (mk : gset string) (file : ReadDirFile).

Lemma HasPrefix_app (s pre : string) :
  HasPrefix s pre = true -> s = pre +:+ string_drop (String.length pre) s.
Proof.
  unfold HasPrefix. revert s. induction pre as [|a pre IH]; intros s Hs.
  - by destruct s.
  - destruct s as [|b s]; [discriminate|]. cbn [String.prefix] in Hs.
    destruct (ascii_dec a b) as [->|]; [|discriminate].
    rewrite append_cons. cbn [String.length string_drop]. f_equal.
    by apply IH.
Qed.

Lemma HasPrefix_nested (y : string) :
  HasPrefix (whiteoutPrefix +:+ y) (whiteoutPrefix +:+ whiteoutPrefix)
  = HasPrefix y whiteoutPrefix.
Proof. reflexivity. Qed.

Lemma layerNames_inv mk (l : list DirEntry) (y : string) :
  In y (layerNames mk l) ->
  exists e, In e l /\ (deName e ∉ mk) /\ isOpaque e = false /\
    ((isWhiteout e = false /\ y = deName e) \/
     (isWhiteout e = true /\ deName e = whiteoutPrefix +:+ y)).
Proof.
  unfold layerNames. intros Hy. apply in_flat_map in Hy as (e & Hin & Hy).
  exists e. split; [exact Hin|].
  destruct (unmasked mk e) eqn:Hm; cbn [andb] in Hy; [|contradiction].
  destruct (isOpaque e) eqn:Ho; cbn [negb] in Hy; [contradiction|].
  unfold unmasked in Hm. apply negb_true_iff, bool_decide_eq_false in Hm.
  split; [exact Hm|]. split; [reflexivity|].
  destruct (isWhiteout e) eqn:Hw; destruct Hy as [<-|[]].
  - right. split; [reflexivity|]. by apply HasPrefix_app.
  - left. auto.
Qed.

Lemma layerOpaque_inv mk (l : list DirEntry) :
  layerOpaque mk l = true -> In whiteoutOpaque (map deName l).
Proof.
  unfold layerOpaque. intros Ho.
  apply existsb_exists in Ho as (e & Hin & He).
  apply andb_prop in He as [_ He]. unfold isOpaque in He.
  apply String.eqb_eq in He. rewrite <- He. by apply in_map.
Qed.

(** Under a mask set of plain names, and without whiteouts of
    whiteouts: the names of the merged listing. *)
Lemma drainFiles_exact mk (nm : list string) (fl : list ReadDirFile)
    (x : string) :
  Forall noNestedWhiteout fl ->
  (forall m, m ∈ mk -> HasPrefix m whiteoutPrefix = false) ->
  (forall m, In m nm -> HasPrefix m whiteoutPrefix = false) ->
  HasPrefix x whiteoutPrefix = false ->
  In x (map deName (fst (drainFiles mk nm fl))) <->
  (x ∉ mk) /\
  exists hi file lo,
    fl = hi ++ file :: lo /\ In x (map deName (pending file)) /\
    Forall (silentOn x) hi /\ (hi <> [] -> ~ In x nm).
Proof.
  intros Hclean. revert mk nm.
  induction Hclean as [|file rest Hfile _ IH]; intros mk nm Hmk Hnm Hx.
  - cbn [drainFiles fst map]. split; [contradiction|].
    intros [_ (hi & f0 & lo & Heq & _)]. by destruct hi.
  - assert (Hmarked : forall y, HasPrefix y whiteoutPrefix = true -> y ∉ mk).
    { intros y Hy Hin. apply Hmk in Hin. congruence. }
    cbn [drainFiles].
    set (mk' := list_to_set (nm ++ layerNames mk (pending file)) ∪ mk).
    assert (Hmk' : forall m, m ∈ mk' -> HasPrefix m whiteoutPrefix = false).
    { intros m Hm. apply elem_of_union in Hm as [Hm|Hm]; [|by apply Hmk].
      apply elem_of_list_to_set, elem_of_app in Hm as [Hm|Hm].
      - apply Hnm. by apply list_elem_of_In.
      - apply list_elem_of_In, layerNames_inv in Hm
          as (e & Hin & _ & Ho & [[Hw ->] | [Hw He]]); [exact Hw|].
        destruct (HasPrefix m whiteoutPrefix) eqn:Hp; [|reflexivity].
        exfalso. unfold noNestedWhiteout in Hfile.
        rewrite Forall_forall in Hfile.
        assert (Hopq : deName e = whiteoutOpaque).
        { apply Hfile; [by apply list_elem_of_In|].
          rewrite He, HasPrefix_nested. exact Hp. }
        unfold isOpaque in Ho. rewrite Hopq, String.eqb_refl in Ho.
        discriminate. }
    assert (Hfirst : In x (map deName (layerEmit mk (pending file))) <->
                     (x ∉ mk) /\ In x (map deName (pending file))).
    { rewrite !in_map_iff. split.
      - intros (e & <- & He). apply layerEmit_In in He as (Hin & Hm & _).
        split; [exact Hm | by exists e].
      - intros [Hm (e & <- & Hin)]. exists e. split; [reflexivity|].
        apply layerEmit_In. by repeat split. }
    destruct (layerOpaque mk (pending file)) eqn:Hop; cbn [fst].
    + rewrite Hfirst. split.
      * intros [Hm Hin]. split; [exact Hm|]. exists [], file, rest.
        split; [reflexivity|]. split; [exact Hin|].
        split; [constructor | by intros Hc].
      * intros [Hm (hi & f0 & lo & Heq & Hin & Hsil & _)].
        split; [exact Hm|].
        destruct hi as [|h hi]; cbn [app] in Heq; inversion Heq; subst.
        -- exact Hin.
        -- exfalso. inversion Hsil as [|? ? (_ & _ & Hno) _]; subst.
           apply Hno. by apply layerOpaque_inv in Hop.
    + specialize (IH mk' [] Hmk' (fun m (H : In m []) => match H with end) Hx).
      destruct (drainFiles mk' [] rest) as [out d]. cbn [fst] in *.
      rewrite map_app, in_app_iff, Hfirst, IH. split.
      * intros [[Hm Hin] | [Hm' (hi & f0 & lo & -> & Hin & Hsil & _)]].
        -- split; [exact Hm|]. exists [], file, rest.
           split; [reflexivity|]. split; [exact Hin|].
           split; [constructor | by intros Hc].
        -- assert (Hm : x ∉ mk).
           { intros Hc. apply Hm'. by apply elem_of_union_r. }
           split; [exact Hm|]. exists (file :: hi), f0, lo.
           split; [reflexivity|]. split; [exact Hin|]. split.
           ++ constructor; [|exact Hsil]. split; [|split].
              ** intros Hc. apply Hm'.
                 apply elem_of_union_l, elem_of_list_to_set, elem_of_app.
                 right. apply list_elem_of_In.
                 apply in_map_iff in Hc as (e & <- & He).
                 by apply layerNames_plain.
              ** intros Hc. apply Hm'.
                 apply elem_of_union_l, elem_of_list_to_set, elem_of_app.
                 right. apply list_elem_of_In.
                 apply in_map_iff in Hc as (e & Hn & He).
                 assert (Hnot : deName e ∉ mk).
                 { apply Hmarked. rewrite Hn. apply whiteout_name. }
                 apply (layerNames_whiteout mk _ e x He Hn Hnot).
                 by apply (layerOpaque_false mk _ e Hop He).
              ** intros Hc. apply in_map_iff in Hc as (e & Hn & He).
                 assert (Hnot : deName e ∉ mk).
                 { apply Hmarked. by rewrite Hn. }
                 pose proof (layerOpaque_true mk _ e He Hn Hnot). congruence.
           ++ intros _ Hc. apply Hm'.
              apply elem_of_union_l, elem_of_list_to_set, elem_of_app.
              left. by apply list_elem_of_In.
      * intros [Hm (hi & f0 & lo & Heq & Hin & Hsil & Hnm')].
        destruct hi as [|h hi]; cbn [app] in Heq; inversion Heq; subst.
        -- left. auto.
        -- right. inversion Hsil as [|? ? (Hn1 & Hn2 & Hn3) Hsil']; subst.
           split.
           ++ intros Hc. apply elem_of_union in Hc as [Hc|Hc]; [|contradiction].
              apply elem_of_list_to_set, elem_of_app in Hc as [Hc|Hc].
              ** apply (Hnm' ltac:(discriminate)). by apply list_elem_of_In.
              ** apply list_elem_of_In, layerNames_inv in Hc
                   as (e & He & _ & _ & [[_ ->] | [_ Hn]]).
                 --- apply Hn1. by apply in_map.
                 --- apply Hn2. rewrite <- Hn. by apply in_map.
           ++ exists hi, f0, lo. split; [reflexivity|]. split; [exact Hin|].
              split; [exact Hsil'|]. by intros _ [].
Qed.

(** X20. What a merged directory lists. On a handle that was not read
    yet, whose directories have no whiteout of a whiteout, an unbounded
    [ReadDir] returns a name [x] exactly when [x] does not have the
    whiteout prefix and some layer lists [x] while every layer above it
    is silent on [x]: it lists neither [x], nor the whiteout [.wh.x],
    nor the opaque marker. *)
Theorem ReadDir_lists_exactly f (n : Z) (ret : list DirEntry)
    (err : option error) f' (x : string) :
  n <= 0 ->
  dirReader_ f = None ->
  Forall noNestedWhiteout (files (handleCursor f)) ->
  ReadDir f n = Some (ret, err, f') ->
  (In x (map deName ret) <->
   HasPrefix x whiteoutPrefix = false /\
   exists hi file lo,
     files (handleCursor f) = hi ++ file :: lo /\
     In x (map deName (pending file)) /\
     Forall (silentOn x) hi).
Proof.
  intros Hn Hfresh Hclean Hr.
  destruct (ReadDir_unbounded f n Hn) as [Hu _].
  rewrite Hu in Hr. inversion Hr; subst ret err f'. clear Hr Hu.
  assert (Hstart : masks (handleCursor f) = ∅ /\ names (handleCursor f) = []).
  { unfold handleCursor. rewrite Hfresh. split; reflexivity. }
  destruct Hstart as [Hmk Hnm]. unfold drain. rewrite Hmk, Hnm.
  assert (Hplain : In x (map deName (fst (drainFiles ∅ []
                                            (files (handleCursor f))))) ->
                   HasPrefix x whiteoutPrefix = false).
  { intros Hx. apply in_map_iff in Hx as (e & <- & He).
    by destruct (drainFiles_origin _ _ _ _ He) as (_ & _ & _ & _ & _ & Hw & _). }
  split.
  - intros Hx. pose proof (Hplain Hx) as Hp. split; [exact Hp|].
    apply (drainFiles_exact ∅ [] _ x Hclean) in Hx
      as [_ (hi & file & lo & Hf & Hin & Hsil & _)];
      [by exists hi, file, lo| |by intros m []|exact Hp].
    intros m Hm. by apply not_elem_of_empty in Hm.
  - intros [Hp (hi & file & lo & Hf & Hin & Hsil)].
    apply (drainFiles_exact ∅ [] _ x Hclean);
      [|by intros m []|exact Hp|].
    + intros m Hm. by apply not_elem_of_empty in Hm.
    + split; [apply not_elem_of_empty|]. exists hi, file, lo.
      split; [exact Hf|]. split; [exact Hin|]. split; [exact Hsil|].
      by intros _ [].
Qed.

(** The first layer lists [a] and the whiteout of [b], the second [b]
    and [c]: [c] is listed, [b] is not. *)
Lemma ReadDir_lists_exactly_witness :
  let h := Fixtures.dirHandle [["a"; ".wh.b"]; ["b"; "c"]] in
  exists ret err f',
    ReadDir h 0 = Some (ret, err, f') /\
    In "c" (map deName ret) /\ ~ In "b" (map deName ret).
Proof.
  intros h.
  destruct (ReadDir_unbounded h 0 ltac:(lia)) as [Hr _].
  eexists _, _, _. split; [exact Hr|].
  assert (Hclean : Forall noNestedWhiteout (files (handleCursor h))).
  { repeat constructor; intros Hp; discriminate Hp. }
  split.
  - apply (proj2 (ReadDir_lists_exactly h 0 _ _ _ "c" ltac:(lia) eq_refl
                    Hclean Hr)).
    split; [reflexivity|].
    exists [Fixtures.listing ["a"; ".wh.b"]], (Fixtures.listing ["b"; "c"]), [].
    split; [reflexivity|]. split; [right; by left|].
    repeat constructor; cbn; intros Hc;
      repeat (destruct Hc as [Hc|Hc]; [discriminate Hc|]); exact Hc.
  - intros Hb.
    apply (proj1 (ReadDir_lists_exactly h 0 _ _ _ "b" ltac:(lia) eq_refl
                    Hclean Hr)) in Hb
      as (_ & hi & file & lo & Hf & Hin & Hsil).
    destruct hi as [|h0 [|h1 hi]]; cbn [app] in Hf; inversion Hf; subst.
    + cbn in Hin. repeat (destruct Hin as [Hin|Hin]; [discriminate Hin|]).
      exact Hin.
    + inversion Hsil as [|? ? (_ & Hno & _) _]; subst. apply Hno.
      cbn. right. by left.
    + by destruct hi.
Defined.

End ListingExact.
